(** * node-fetch-cache: key derivation, stores and the cache-aware fetch

    A shallow embedding of [src/index.ts] (the TypeScript entry point with
    key flags), of the bundled [commonjs/index.cjs] (entry point, response
    wrapper, [KeyTimeout], [MemoryCache], [FileSystemCache]) and of the
    parts of the JavaScript run time they rely on. *)

From Stdlib Require Import ZArith Ascii String List Bool Lia.
From Stdlib Require Import DecimalString DecimalPos DecimalFacts.
From stdpp Require Import base option gmap strings list fin_maps.
Import ListNotations.

Set Warnings "-register-all".

#[local] Arguments String.append !s1 s2 : simpl nomatch.

Local Open Scope string_scope.
Local Open Scope Z_scope.

(** ** The MD5 digest ([crypto.createHash('md5').update(str).digest('hex')]) *)

Module MD5.

Definition w32 (x : Z) : Z := Z.land x 4294967295.

Definition add32 (x y : Z) : Z := w32 (x + y).

Definition not32 (x : Z) : Z := Z.lxor x 4294967295.

Definition rotl32 (x : Z) (c : Z) : Z :=
  w32 (Z.lor (Z.shiftl x c) (Z.shiftr x (32 - c))).

(** Per-round shift amounts. *)
Definition S : list Z :=
  [7; 12; 17; 22; 7; 12; 17; 22; 7; 12; 17; 22; 7; 12; 17; 22;
   5; 9; 14; 20; 5; 9; 14; 20; 5; 9; 14; 20; 5; 9; 14; 20;
   4; 11; 16; 23; 4; 11; 16; 23; 4; 11; 16; 23; 4; 11; 16; 23;
   6; 10; 15; 21; 6; 10; 15; 21; 6; 10; 15; 21; 6; 10; 15; 21].

(** [K[i] = floor(2^32 * abs(sin(i + 1)))]. *)
Definition K : list Z :=
  [3614090360; 3905402710; 606105819; 3250441966; 4118548399; 1200080426;
   2821735955; 4249261313; 1770035416; 2336552879; 4294925233; 2304563134;
   1804603682; 4254626195; 2792965006; 1236535329; 4129170786; 3225465664;
   643717713; 3921069994; 3593408605; 38016083; 3634488961; 3889429448;
   568446438; 3275163606; 4107603335; 1163531501; 2850285829; 4243563512;
   1735328473; 2368359562; 4294588738; 2272392833; 1839030562; 4259657740;
   2763975236; 1272893353; 4139469664; 3200236656; 681279174; 3936430074;
   3572445317; 76029189; 3654602809; 3873151461; 530742520; 3299628645;
   4096336452; 1126891415; 2878612391; 4237533241; 1700485571; 2399980690;
   4293915773; 2240044497; 1873313359; 4264355552; 2734768916; 1309151649;
   4149444226; 3174756917; 718787259; 3951481745].

Definition nthZ (l : list Z) (i : Z) : Z := nth (Z.to_nat i) l 0.

(** The padded message: a [1] bit, zeros up to 56 mod 64, then the bit
    length as a 64-bit little-endian integer. *)
Definition le_bytes (n : nat) (x : Z) : list Z :=
  map (fun i => Z.land (Z.shiftr x (8 * Z.of_nat i)) 255) (seq 0 n).

Definition pad (msg : list Z) : list Z :=
  let len := Z.of_nat (length msg) in
  let zeros := Z.to_nat ((55 - len) mod 64) in
  (msg ++ 128 :: repeat 0 zeros ++ le_bytes 8 (8 * len))%list.

Fixpoint le_word (bs : list Z) : Z :=
  match bs with
  | [] => 0
  | b :: bs' => b + 256 * le_word bs'
  end.

Fixpoint words (n : nat) (bs : list Z) : list Z :=
  match n with
  | O => []
  | Datatypes.S n' => le_word (firstn 4 bs) :: words n' (skipn 4 bs)
  end.

Record state := State { sa : Z; sb : Z; sc : Z; sd : Z }.

Definition init : state :=
  State 1732584193 4023233417 2562383102 271733878.

Definition step (M : list Z) (st : state) (i : Z) : state :=
  let '(State a b c d) := st in
  let '(f, g) :=
    if i <? 16 then (Z.lor (Z.land b c) (Z.land (not32 b) d), i)
    else if i <? 32 then
      (Z.lor (Z.land d b) (Z.land (not32 d) c), (5 * i + 1) mod 16)
    else if i <? 48 then (Z.lxor b (Z.lxor c d), (3 * i + 5) mod 16)
    else (Z.lxor c (Z.lor b (not32 d)), (7 * i) mod 16) in
  let f' := add32 (add32 (add32 f a) (nthZ K i)) (nthZ M g) in
  State d (add32 b (rotl32 f' (nthZ S i))) b c.

Definition block (st : state) (bs : list Z) : state :=
  let M := words 16 bs in
  let '(State a b c d) :=
    fold_left (step M) (map Z.of_nat (seq 0 64)) st in
  State (add32 (sa st) a) (add32 (sb st) b)
        (add32 (sc st) c) (add32 (sd st) d).

Fixpoint blocks (n : nat) (st : state) (bs : list Z) : state :=
  match n with
  | O => st
  | Datatypes.S n' => blocks n' (block st (firstn 64 bs)) (skipn 64 bs)
  end.

Definition hex_digit (n : Z) : ascii :=
  nth (Z.to_nat n)
      ["0"; "1"; "2"; "3"; "4"; "5"; "6"; "7";
       "8"; "9"; "a"; "b"; "c"; "d"; "e"; "f"]%char "0"%char.

Definition hex_byte (b : Z) : string :=
  String (hex_digit (Z.shiftr b 4)) (String (hex_digit (Z.land b 15)) "").

Definition digest (msg : list Z) : string :=
  let p := pad msg in
  let '(State a b c d) := blocks (length p / 64) init p in
  String.concat ""
    (map hex_byte (le_bytes 4 a ++ le_bytes 4 b ++ le_bytes 4 c ++ le_bytes 4 d)%list).

End MD5.

(** ** JavaScript values

    Strings are JavaScript strings whose code units are all below 256.
    Numbers are the integers.  An object is the ordered list of its own
    enumerable string-keyed properties; the class instances that the
    body normalizer tells apart have a constructor of their own. *)

Module JS.

Inductive value : Type :=
| VUndefined
| VNull
| VBool (b : bool)
| VNum (n : Z)
| VStr (s : string)
| VArr (elems : list value)
| VObj (props : list (string * value))
(** a function, with its source text (what [toString()] returns) *)
| VFunction (source : string)
(** a [URLSearchParams], with the query string [toString()] returns *)
| VURLSearchParams (query : string)
(** an [fs.ReadStream], with its own properties ([path] among them) *)
| VReadStream (props : list (string * value))
(** a [FormData] of the form-data package: what [getBoundary()] returns
    and the own properties ([_streams], [_boundary], ...) *)
| VFormData (boundary : string) (props : list (string * value))
(** a [Buffer], with the string it decodes to ([toString()]) *)
| VBuffer (text : string)
(** a node-fetch [Headers], with the pairs [entries()] yields: the names
    in lower case, the values of one name joined *)
| VHeaders (entries : list (string * string))
(** a node-fetch [Request]: the entries of its [headers] and what its
    other properties ([url], [method], [body], ...) read as *)
| VRequest (headers : list (string * string)) (fields : list (string * value)).

Definition props : Type := list (string * value).

(** An exception: an [Error] with the name of its class and its message,
    or a system error, which has a [code] too. *)
Inductive exn : Type :=
| JsError (name : string) (message : string)
| SystemError (code : string) (message : string).

Inductive result (A : Type) : Type :=
| Ok (a : A)
| Err (e : exn).
Arguments Ok {A} a.
Arguments Err {A} e.

Definition bind {A B : Type} (r : result A) (k : A -> result B) : result B :=
  match r with
  | Ok a => k a
  | Err e => Err e
  end.

#[global] Instance result_ret : MRet result := fun _ a => Ok a.
#[global] Instance result_bind : MBind result := fun _ _ k r => bind r k.

Definition TypeError (message : string) : exn := JsError "TypeError" message.

(** *** Property access on objects *)

Fixpoint obj_lookup (k : string) (ps : props) : option value :=
  match ps with
  | [] => None
  | (k', v) :: ps' => if String.eqb k k' then Some v else obj_lookup k ps'
  end.

(** [o[k]] on own properties: [undefined] when there is none. *)
Definition obj_get (k : string) (ps : props) : value :=
  match obj_lookup k ps with
  | Some v => v
  | None => VUndefined
  end.

Definition hasOwnProperty (k : string) (ps : props) : bool :=
  match obj_lookup k ps with
  | Some _ => true
  | None => false
  end.

(** [o[k] = v]: an existing property keeps its place, a new one goes last. *)
Fixpoint obj_set (k : string) (v : value) (ps : props) : props :=
  match ps with
  | [] => [(k, v)]
  | (k', v') :: ps' =>
      if String.eqb k k' then (k, v) :: ps' else (k', v') :: obj_set k v ps'
  end.

(** [delete o[k]] *)
Fixpoint obj_delete (k : string) (ps : props) : props :=
  match ps with
  | [] => []
  | (k', v') :: ps' =>
      if String.eqb k k' then obj_delete k ps' else (k', v') :: obj_delete k ps'
  end.

(** [Object.fromEntries(entries)] *)
Definition Object_fromEntries (entries : props) : props :=
  fold_left (fun o kv => obj_set (fst kv) (snd kv) o) entries [].

(** [Object.assign(target, source)], on the property lists. *)
Definition Object_assign (target source : props) : props :=
  fold_left (fun o kv => obj_set (fst kv) (snd kv) o) source target.

(** *** Strings *)

Definition code (c : ascii) : Z := Z.of_nat (nat_of_ascii c).

Definition chr (n : Z) : ascii := ascii_of_nat (Z.to_nat n).

(** [String.prototype.toLowerCase] on code units below 256. *)
Definition lower_char (c : ascii) : ascii :=
  let n := code c in
  if ((65 <=? n) && (n <=? 90))
     || ((192 <=? n) && (n <=? 222) && negb (n =? 215))
  then chr (n + 32) else c.

Fixpoint toLowerCase (s : string) : string :=
  match s with
  | EmptyString => EmptyString
  | String c s' => String (lower_char c) (toLowerCase s')
  end.

(** [s.replace(new RegExp(pat, 'g'), '')] for a pattern without regular
    expression metacharacters, which then matches itself only: the
    leftmost occurrences, one after the other, are removed.  The empty
    pattern matches the empty string and removes nothing. *)
Fixpoint remove_go (pat : string) (skip : nat) (s : string) : string :=
  match s with
  | EmptyString => EmptyString
  | String c s' =>
      match skip with
      | S k => remove_go pat k s'
      | O =>
          if String.prefix pat s
          then remove_go pat (Nat.pred (String.length pat)) s'
          else String c (remove_go pat O s')
      end
  end.

Definition removeAll (pat s : string) : string :=
  match pat with
  | EmptyString => s
  | _ => remove_go pat O s
  end.

(** The characters that stand for themselves in a regular expression. *)
Definition regexp_literal_char (c : ascii) : bool :=
  let n := code c in
  ((48 <=? n) && (n <=? 57)) || ((65 <=? n) && (n <=? 90))
  || ((97 <=? n) && (n <=? 122)) || (n =? 45) || (n =? 95).

Fixpoint regexp_literal (s : string) : bool :=
  match s with
  | EmptyString => true
  | String c s' => regexp_literal_char c && regexp_literal s'
  end.

(** UTF-8 encoding, as [hash.update(str)] applies it. *)
Fixpoint utf8 (s : string) : list Z :=
  match s with
  | EmptyString => []
  | String c s' =>
      let n := code c in
      if n <? 128 then n :: utf8 s'
      else Z.lor 192 (Z.shiftr n 6) :: Z.lor 128 (Z.land n 63) :: utf8 s'
  end.

Definition decimal (n : Z) : string := NilZero.string_of_int (Z.to_int n).

(** *** Truthiness, [toString()] *)

Definition truthy (v : value) : bool :=
  match v with
  | VUndefined | VNull => false
  | VBool b => b
  | VNum n => negb (n =? 0)
  | VStr s => negb (String.eqb s "")
  | _ => true
  end.

Definition join (sep : string) (l : list string) : string := String.concat sep l.

(** [v.toString()]; [undefined] and [null] print as the empty string
    inside [Array.prototype.join], the only place they are asked to. *)
Fixpoint toString (v : value) : string :=
  match v with
  | VUndefined | VNull => ""
  | VBool b => if b then "true" else "false"
  | VNum n => decimal n
  | VStr s => s
  | VArr elems => join "," (map toString elems)
  | VObj _ => "[object Object]"
  | VFunction source => source
  | VURLSearchParams query => query
  | VReadStream _ => "[object Object]"
  | VFormData _ _ => "[object FormData]"
  | VBuffer text => text
  | VHeaders _ => "[object Headers]"
  | VRequest _ _ => "[object Request]"
  end.

(** The own enumerable properties, as [{...v}] and [Object.entries(v)]
    list them; those of a [Headers] and of a [Request] are all keyed by
    symbols, which neither lists. *)
Definition indexed (l : list value) : props :=
  map (fun iv => (decimal (Z.of_nat (fst iv)), snd iv))
      (combine (seq 0 (length l)) l).

Definition own_enumerable (v : value) : props :=
  match v with
  | VObj ps | VReadStream ps | VFormData _ ps => ps
  | VArr elems => indexed elems
  | VStr s => indexed (map (fun c => VStr (String c "")) (list_ascii_of_string s))
  | VBuffer text => indexed (map VNum (utf8 text))
  | _ => []
  end.

(** *** [JSON.stringify] *)

Definition hex4 (n : Z) : string :=
  "00" +:+ MD5.hex_byte n.

Definition quote_char (c : ascii) : string :=
  let n := code c in
  if n =? 34 then String (chr 92) (String (chr 34) "")
  else if n =? 92 then "\\"
  else if n =? 8 then "\b"
  else if n =? 12 then "\f"
  else if n =? 10 then "\n"
  else if n =? 13 then "\r"
  else if n =? 9 then "\t"
  else if n <? 32 then "\u" +:+ hex4 n
  else String c "".

Fixpoint quote_body (s : string) : string :=
  match s with
  | EmptyString => EmptyString
  | String c s' => quote_char c +:+ quote_body s'
  end.

Definition quote (s : string) : string :=
  String (chr 34) (quote_body s) +:+ String (chr 34) "".

(** [None] stands for the result [undefined]. *)
Fixpoint stringify (v : value) : option string :=
  let element (x : value) : string :=
    match stringify x with Some s => s | None => "null" end in
  let members :=
    fix members (ps : props) : list string :=
      match ps with
      | [] => []
      | (k, x) :: ps' =>
          match stringify x with
          | Some s => (quote k +:+ ":" +:+ s) :: members ps'
          | None => members ps'
          end
      end in
  match v with
  | VUndefined | VFunction _ => None
  | VNull => Some "null"
  | VBool b => Some (if b then "true" else "false")
  | VNum n => Some (decimal n)
  | VStr s => Some (quote s)
  | VArr elems => Some ("[" +:+ join "," (map element elems) +:+ "]")
  | VObj ps | VReadStream ps | VFormData _ ps =>
      Some ("{" +:+ join "," (members ps) +:+ "}")
  | VURLSearchParams _ | VHeaders _ | VRequest _ _ => Some "{}"
  | VBuffer text =>
      Some ("{" +:+ quote "type" +:+ ":" +:+ quote "Buffer" +:+ ","
            +:+ quote "data" +:+ ":[" +:+ join "," (map decimal (utf8 text))
            +:+ "]}")
  end.

Definition JSON_stringify (v : value) : string :=
  match stringify v with
  | Some s => s
  | None => "undefined"
  end.

(** [md5(str)] of src/index.ts. *)
Definition md5 (str : string) : string := MD5.digest (utf8 str).

End JS.

(** ** Key derivation: the functions src/index.ts and commonjs/index.cjs share *)

Module Key.
Import JS.

Definition CACHE_VERSION : Z := 4.

Definition DEFAULT_KEY_FLAGS : props :=
  [ ("cache", VBool true);
    ("credentials", VBool true);
    ("destination", VBool true);
    ("headers", VBool true);
    ("integrity", VBool true);
    ("method", VBool true);
    ("redirect", VBool true);
    ("referrer", VBool true);
    ("referrerPolicy", VBool true);
    ("url", VBool true);
    ("body", VBool true) ].

(** [v[k]]: reading a property of [undefined] or [null] throws. *)
Definition get_property (v : value) (k : string) : result value :=
  match v with
  | VUndefined | VNull =>
      Err (TypeError ("Cannot read properties of " +:+ JSON_stringify v))
  | VRequest headers fields =>
      if String.eqb k "headers" then Ok (VHeaders headers)
      else Ok (obj_get k fields)
  | _ => Ok (obj_get k (own_enumerable v))
  end.

(** [Object.entries(v)] *)
Definition Object_entries (v : value) : result props :=
  match v with
  | VUndefined | VNull =>
      Err (TypeError "Cannot convert undefined or null to object")
  | _ => Ok (own_enumerable v)
  end.

Definition is_string (v : value) (s : string) : bool :=
  match v with
  | VStr s' => String.eqb s' s
  | _ => false
  end.

(** [s => typeof s === 'string' ? s.replace(boundaryReplaceRegex, '') : s] *)
Definition strip_boundary (boundary : string) (s : value) : value :=
  match s with
  | VStr str => VStr (removeAll boundary str)
  | _ => s
  end.

Definition getFormDataCacheKey (formData : value) : result value :=
  match formData with
  | VFormData boundary own =>
      let cacheKey := obj_delete "_boundary" own in
      match obj_get "_streams" cacheKey with
      | VArr streams =>
          Ok (VObj (obj_set "_streams"
                      (VArr (map (strip_boundary boundary) streams)) cacheKey))
      | _ => Err (TypeError "cacheKey._streams.map is not a function")
      end
  | _ => Err (TypeError "formData.getBoundary is not a function")
  end.

Definition UnsupportedBodyType : exn :=
  JsError "Error"
    "Unsupported body type. Supported body types are: string, number, undefined, null, url.URLSearchParams, fs.ReadStream, FormData".

Definition getBodyCacheKeyJson (body : value) : result value :=
  if negb (truthy body) then Ok body
  else match body with
  | VStr _ => Ok body
  | VURLSearchParams query => Ok (VStr query)
  | VReadStream own => Ok (obj_get "path" own)
  | _ =>
      if String.eqb (toString body) "[object FormData]"
      then getFormDataCacheKey body
      else match body with
      | VBuffer text => Ok (VStr text)
      | _ => Err UnsupportedBodyType
      end
  end.

(** [([key, value]) => key.toLowerCase() === 'cache-control' && value === 'only-if-cached'] *)
Definition is_only_if_cached (kv : string * value) : bool :=
  String.eqb (toLowerCase (fst kv)) "cache-control"
  && is_string (snd kv) "only-if-cached".

(** [headers.get(name)] of node-fetch: the name is matched without regard
    to case; [null] when the header is absent. *)
Fixpoint Headers_get (name : string) (entries : list (string * string)) : value :=
  match entries with
  | [] => VNull
  | (k, v) :: entries' =>
      if String.eqb (toLowerCase k) (toLowerCase name) then VStr v
      else Headers_get name entries'
  end.

Definition hasOnlyWithCacheOption (resource init : value) : result bool :=
  in_init ←
    (if truthy init then
       h ← get_property init "headers";
       if truthy h then
         es ← Object_entries h;
         mret (existsb is_only_if_cached es)
       else mret false
     else mret false);
  if (in_init : bool) then mret true
  else match resource with
       | VRequest headers _ =>
           mret (is_string (Headers_get "Cache-Control" headers) "only-if-cached")
       | _ => mret false
       end.

(** [Object.fromEntries([...req.headers.entries()])] *)
Definition headersPojo (req : value) : result value :=
  match req with
  | VRequest headers _ =>
      Ok (VObj (Object_fromEntries (map (fun kv => (fst kv, VStr (snd kv))) headers)))
  | _ =>
      h ← get_property req "headers";
      match h with
      | VHeaders entries =>
          Ok (VObj (Object_fromEntries (map (fun kv => (fst kv, VStr (snd kv))) entries)))
      | VUndefined | VNull =>
          Err (TypeError "Cannot read properties of undefined (reading 'entries')")
      | _ => Err (TypeError "req.headers.entries is not a function or its return value is not iterable")
      end
  end.

Definition is_Request (v : value) : bool :=
  match v with
  | VRequest _ _ => true
  | _ => false
  end.

(** [init.headers || {}] *)
Definition or_empty (v : value) : value :=
  if truthy v then v else VObj [].

End Key.

(** ** The module state: [DEFAULT_KEY_FLAGS] and [key_flags]

    [DEFAULT_KEY_FLAGS] is a [const] binding to an object and [key_flags]
    a [let] binding; both hold references into the heap, so that an
    update through one is seen through the other when they alias. *)

Module Globals.
Import JS.

Definition ref : Type := nat.

Record globals : Type := mkGlobals {
  heap : gmap nat props;
  DEFAULT_KEY_FLAGS : ref;
  key_flags : ref;
}.

Definition deref (g : globals) (r : ref) : props :=
  default [] (heap g !! r).

(** The object [key_flags] refers to. *)
Definition flags (g : globals) : props := deref g (key_flags g).

(** Module load: [const DEFAULT_KEY_FLAGS = {...}; let key_flags = DEFAULT_KEY_FLAGS;] *)
Definition initial : globals :=
  {| heap := {[ 0%nat := Key.DEFAULT_KEY_FLAGS ]};
     DEFAULT_KEY_FLAGS := 0%nat;
     key_flags := 0%nat |}.

(** [Object.assign(target, source)]: copies the own enumerable properties
    of [source] into the object [target] refers to and returns [target];
    a [source] of [undefined] or [null] is skipped. *)
Definition Object_assign (h : gmap nat props) (target : ref) (source : value)
  : gmap nat props * ref :=
  (<[ target := JS.Object_assign (default [] (h !! target)) (own_enumerable source) ]> h,
   target).

(** The statement [key_flags = Object.assign(DEFAULT_KEY_FLAGS, options.keyFlags)]
    of [createFetchWithCache(cache, options = {})]. *)
Definition createFetchWithCache (options : value) (g : globals) : result globals :=
  let options := match options with VUndefined => VObj [] | _ => options end in
  keyFlags ← Key.get_property options "keyFlags";
  let '(h, r) := Object_assign (heap g) (DEFAULT_KEY_FLAGS g) keyFlags in
  mret {| heap := h; DEFAULT_KEY_FLAGS := DEFAULT_KEY_FLAGS g; key_flags := r |}.

End Globals.



(** ** [JSON.parse]

    A recursive-descent reader of JSON texts; [None] is a [SyntaxError]
    (or a text outside the model: a fraction, an exponent, a code unit
    above 255).  A repeated member name keeps its first place and its last
    value. *)

Module Json.
Import JS.

Definition is_ws (c : ascii) : bool :=
  let n := code c in (n =? 32) || (n =? 9) || (n =? 10) || (n =? 13).

Fixpoint skip_ws (s : string) : string :=
  match s with
  | String c s' => if is_ws c then skip_ws s' else s
  | EmptyString => EmptyString
  end.

Definition is_digit (c : ascii) : bool :=
  let n := code c in (48 <=? n) && (n <=? 57).

Definition hex_value (c : ascii) : option Z :=
  let n := code c in
  if (48 <=? n) && (n <=? 57) then Some (n - 48)
  else if (97 <=? n) && (n <=? 102) then Some (n - 87)
  else if (65 <=? n) && (n <=? 70) then Some (n - 55)
  else None.

Definition unescape (e : ascii) : option ascii :=
  let n := code e in
  if n =? 34 then Some (chr 34)
  else if n =? 92 then Some (chr 92)
  else if n =? 47 then Some (chr 47)
  else if n =? 98 then Some (chr 8)
  else if n =? 102 then Some (chr 12)
  else if n =? 110 then Some (chr 10)
  else if n =? 114 then Some (chr 13)
  else if n =? 116 then Some (chr 9)
  else None.

(** The characters of a string literal after its opening quote. *)
Fixpoint parse_chars (s : string) : option (string * string) :=
  match s with
  | EmptyString => None
  | String c s' =>
      if code c =? 34 then Some (EmptyString, s')
      else if code c =? 92 then
        match s' with
        | String e s'' =>
            if code e =? 117 then
              match s'' with
              | String h1 (String h2 (String h3 (String h4 s4))) =>
                  match hex_value h1, hex_value h2, hex_value h3, hex_value h4 with
                  | Some a, Some b, Some c', Some d =>
                      let n := ((a * 16 + b) * 16 + c') * 16 + d in
                      if n <? 256 then
                        match parse_chars s4 with
                        | Some (str, rest) => Some (String (chr n) str, rest)
                        | None => None
                        end
                      else None
                  | _, _, _, _ => None
                  end
              | _ => None
              end
            else
              match unescape e, parse_chars s'' with
              | Some c', Some (str, rest) => Some (String c' str, rest)
              | _, _ => None
              end
        | EmptyString => None
        end
      else if code c <? 32 then None
      else
        match parse_chars s' with
        | Some (str, rest) => Some (String c str, rest)
        | None => None
        end
  end.

Fixpoint parse_digits (acc : Z) (s : string) : Z * string :=
  match s with
  | String c s' =>
      if is_digit c then parse_digits (acc * 10 + (code c - 48)) s' else (acc, s)
  | EmptyString => (acc, s)
  end.

(** An integer literal: no leading zero, no fraction, no exponent. *)
Definition parse_nat (s : string) : option (Z * string) :=
  match s with
  | String c s' =>
      if code c =? 48 then Some (0, s')
      else if is_digit c then Some (parse_digits 0 s)
      else None
  | EmptyString => None
  end.

Definition no_fraction (s : string) : bool :=
  match s with
  | String c _ => negb ((code c =? 46) || (code c =? 101) || (code c =? 69))
  | EmptyString => true
  end.

Definition parse_number (s : string) : option (Z * string) :=
  match s with
  | String c s' =>
      r ← (if code c =? 45
           then (p ← parse_nat s'; mret (- fst p, snd p))
           else parse_nat s);
      if no_fraction (snd r) then Some r else None
  | EmptyString => None
  end.

Definition literal (word : string) (v : value) (s : string) : option (value * string) :=
  if String.prefix word s
  then Some (v, String.substring (String.length word)
                                 (String.length s - String.length word) s)
  else None.

Fixpoint parse_value (fuel : nat) (s : string) : option (value * string) :=
  match fuel with
  | O => None
  | S fuel' =>
      match skip_ws s with
      | EmptyString => None
      | String c s' =>
          let n := code c in
          if n =? 110 then literal "null" VNull (String c s')
          else if n =? 116 then literal "true" (VBool true) (String c s')
          else if n =? 102 then literal "false" (VBool false) (String c s')
          else if n =? 34 then
            p ← parse_chars s'; mret (VStr (fst p), snd p)
          else if n =? 91 then
            match skip_ws s' with
            | String c' s'' =>
                if code c' =? 93 then Some (VArr [], s'')
                else p ← parse_elements fuel' s'; mret (VArr (fst p), snd p)
            | EmptyString => None
            end
          else if n =? 123 then
            match skip_ws s' with
            | String c' s'' =>
                if code c' =? 125 then Some (VObj [], s'')
                else p ← parse_members fuel' [] s'; mret (VObj (fst p), snd p)
            | EmptyString => None
            end
          else
            p ← parse_number (String c s'); mret (VNum (fst p), snd p)
      end
  end
with parse_elements (fuel : nat) (s : string) : option (list value * string) :=
  match fuel with
  | O => None
  | S fuel' =>
      p ← parse_value fuel' s;
      match skip_ws (snd p) with
      | String c s' =>
          if code c =? 44 then
            q ← parse_elements fuel' s'; mret (fst p :: fst q, snd q)
          else if code c =? 93 then Some ([fst p], s')
          else None
      | EmptyString => None
      end
  end
with parse_members (fuel : nat) (acc : props) (s : string) : option (props * string) :=
  match fuel with
  | O => None
  | S fuel' =>
      match skip_ws s with
      | String q s1 =>
          if code q =? 34 then
            k ← parse_chars s1;
            match skip_ws (snd k) with
            | String colon s2 =>
                if code colon =? 58 then
                  p ← parse_value fuel' s2;
                  let acc' := obj_set (fst k) (fst p) acc in
                  match skip_ws (snd p) with
                  | String c s3 =>
                      if code c =? 44 then parse_members fuel' acc' s3
                      else if code c =? 125 then Some (acc', s3)
                      else None
                  | EmptyString => None
                  end
                else None
            | EmptyString => None
            end
          else None
      | EmptyString => None
      end
  end.

Definition JSON_parse (text : string) : option value :=
  p ← parse_value (2 * String.length text + 2) text;
  match skip_ws (snd p) with
  | EmptyString => Some (fst p)
  | _ => None
  end.

(** The values [JSON.stringify] and [JSON.parse] carry back and forth
    unchanged: [null], booleans, numbers, strings, arrays of such values,
    and objects of such values with no name twice. *)
Fixpoint json_safe (v : value) : bool :=
  match v with
  | VNull | VBool _ | VNum _ | VStr _ => true
  | VArr elems => forallb json_safe elems
  | VObj ps =>
      (fix members (seen : list string) (ps : props) : bool :=
         match ps with
         | [] => true
         | (k, x) :: ps' =>
             negb (existsb (String.eqb k) seen) && json_safe x && members (k :: seen) ps'
         end) [] ps
  | _ => false
  end.

Fixpoint safe_members (seen : list string) (ps : props) : bool :=
  match ps with
  | [] => true
  | (k, x) :: ps' =>
      negb (existsb (String.eqb k) seen) && json_safe x && safe_members (k :: seen) ps'
  end.

End Json.

(** ** The run time: promises, streams, timers *)

Module Node.
Import JS.

(** How an awaited promise ends: with a value, with an exception, or not
    at all. *)
Inductive outcome (A : Type) : Type :=
| Resolved (a : A)
| Rejected (e : exn)
| Pending.
Arguments Resolved {A} a.
Arguments Rejected {A} e.
Arguments Pending {A}.

(** A finite readable stream: the chunks its [data] events carry, then
    [end], or [error] when [failure] is set. *)
Record Stream : Type := mkStream {
  chunks : list string;
  failure : option exn;
}.

Definition contents (s : Stream) : string := String.concat "" (chunks s).

(** [stream.Readable.from(buffer)]: the buffer is one chunk. *)
Definition Readable_from (buffer : string) : Stream :=
  {| chunks := [buffer]; failure := None |}.

Definition streamToBuffer (stream : Stream) : outcome string :=
  match failure stream with
  | Some err => Rejected err
  | None => Resolved (contents stream)
  end.

(** What [cache.get] and [cache.set] resolve to. *)
Record CachedValue : Type := mkCachedValue {
  bodyStream : Stream;
  metaData : value;
}.

(** *** Timers

    A pending timer of [KeyTimeout]: its handle, the time it is due, and
    the key of its callback [() => this.remove(key)]. *)
Record timer : Type := mkTimer {
  handle : nat;
  due : Z;
  callback : string;
}.

Record timers : Type := mkTimers {
  now : Z;
  next_handle : nat;
  pending : list timer;
}.

Definition TIMEOUT_MAX : Z := 2147483647.

(** [setTimeout(callback, ms)]: a delay below 1 or above [TIMEOUT_MAX]
    is set to 1. *)
Definition setTimeout (key : string) (ms : Z) (t : timers) : nat * timers :=
  let after := if (1 <=? ms) && (ms <=? TIMEOUT_MAX) then ms else 1 in
  (next_handle t,
   {| now := now t;
      next_handle := S (next_handle t);
      pending := pending t ++ [mkTimer (next_handle t) (now t + after) key] |}).

(** [clearTimeout(h)]; [h] is [undefined] when [None]. *)
Definition clearTimeout (h : option nat) (t : timers) : timers :=
  match h with
  | None => t
  | Some n =>
      {| now := now t;
         next_handle := next_handle t;
         pending := filter (fun x => handle x ≠ n) (pending t) |}
  end.

(** The timer that fires next, among those due by [limit]: the earliest,
    the oldest of them first. *)
Fixpoint next_due (limit : Z) (l : list timer) : option timer :=
  match l with
  | [] => None
  | x :: l' =>
      match next_due limit l' with
      | Some y => if (due x <=? limit) && (due x <=? due y) then Some x else Some y
      | None => if due x <=? limit then Some x else None
      end
  end.

(** *** What the embedding leaves to Node

    Two answers of the platform that the values of this embedding do not
    determine.  Both are asked for only after a [MemoryCache] was given
    the key [__proto__]. *)
Record Platform : Type := mkPlatform {
  (** [stream.Readable.from(x)] for an [x] that may be iterable and is
      neither a string nor a [Buffer] *)
  Readable_from_iterable : value -> result Stream;
  (** the timer, if any, that [clearTimeout(t[name])] cancels, [t] being
      the [Timeout] object of the given handle *)
  Timeout_member : nat -> string -> timers -> option nat;
}.

(** The [ERR_INVALID_ARG_TYPE] of [stream.Readable.from] *)
Definition not_iterable (x : value) : exn :=
  TypeError
    ("The " +:+ quote "iterable"
     +:+ " argument must be an instance of Iterable. Received "
     +:+ match x with
         | VBool _ => "type boolean (" +:+ toString x +:+ ")"
         | VNum _ => "type number (" +:+ toString x +:+ ")"
         | VObj _ => "an instance of Object"
         | _ => JSON_stringify x
         end).

(** [stream.Readable.from(x)]: a string or a [Buffer] is one chunk;
    [undefined], [null], a boolean, a number and a plain object are not
    iterable. *)
Definition Readable_from_value (node : Platform) (x : value) : result Stream :=
  match x with
  | VStr s | VBuffer s => Ok (Readable_from s)
  | VUndefined | VNull | VBool _ | VNum _ | VObj _ => Err (not_iterable x)
  | _ => Readable_from_iterable node x
  end.

End Node.

(** ** [KeyTimeout] and [MemoryCache] (commonjs/index.cjs) *)

Module MemoryCache.
Import JS Node.

(** [this.cache] and [this.timeoutHandleForKey] are plain objects ([{}])
    used as maps, so a key is a property name: reading it follows the
    prototype chain, and the name [__proto__] is the accessor of
    [Object.prototype], which reads and replaces the prototype and is
    not removed by [delete].  The own properties are a [gmap]; the
    prototype is kept beside them, [None] while it is [Object.prototype]. *)

(** The members of [Object.prototype] that a lookup by name reaches, the
    accessor [__proto__] apart. *)
Definition Object_prototype : list string :=
  [ "constructor"; "__defineGetter__"; "__defineSetter__"; "hasOwnProperty";
    "__lookupGetter__"; "__lookupSetter__"; "isPrototypeOf";
    "propertyIsEnumerable"; "toString"; "valueOf"; "toLocaleString" ].

Definition inherited (name : string) : bool :=
  existsb (String.eqb name) Object_prototype.

Definition builtin (name : string) : value :=
  VFunction ("function " +:+ (if String.eqb name "constructor" then "Object" else name)
             +:+ "() { [native code] }").

(** A key that names nothing but an entry: not [__proto__] and no member
    of [Object.prototype]. *)
Definition ordinary (key : string) : bool :=
  negb (String.eqb key "__proto__") && negb (inherited key).

Record KeyTimeout : Type := mkKeyTimeout {
  timeoutHandleForKey : gmap string nat;
  (** the [Timeout] that an assignment to [__proto__] has made the
      prototype of [timeoutHandleForKey] *)
  timeoutHandleForKey_proto : option nat;
}.

Record entry : Type := mkEntry {
  bodyBuffer : string;
  entry_metaData : value;
}.

(** A [MemoryCache] and the timers of the event loop it runs in. *)
Record t : Type := mk {
  ttl : value;
  keyTimeout : KeyTimeout;
  cache : gmap string entry;
  (** the [{ bodyBuffer, metaData }] that an assignment to [__proto__]
      has made the prototype of [cache] *)
  cache_proto : option entry;
  loop : timers;
  node : Platform;
}.

(** Both objects still have [Object.prototype] as their prototype. *)
Definition plain (this : t) : bool :=
  match cache_proto this, timeoutHandleForKey_proto (keyTimeout this) with
  | None, None => true
  | _, _ => false
  end.

(** [new MemoryCache(options)] at time [now]. *)
Definition new (node : Platform) (options_ttl : value) (now : Z) : t :=
  {| ttl := options_ttl;
     keyTimeout := mkKeyTimeout ∅ None;
     cache := ∅;
     cache_proto := None;
     loop := mkTimers now 0 [];
     node := node |}.

(** [this.timeoutHandleForKey[key]], as [clearTimeout] takes it: the
    handle of a timer, or a value that is none ([undefined], a function
    of [Object.prototype], [Object.prototype] itself). *)
Definition handle_of (key : string) (this : t) : option nat :=
  let T := keyTimeout this in
  if String.eqb key "__proto__" then timeoutHandleForKey_proto T
  else match timeoutHandleForKey T !! key with
  | Some h => Some h
  | None =>
      match timeoutHandleForKey_proto T with
      | Some h => Timeout_member (node this) h key (loop this)
      | None => None
      end
  end.

Definition KeyTimeout_clearTimeout (key : string) (this : t) : t :=
  {| ttl := ttl this;
     keyTimeout := keyTimeout this;
     cache := cache this;
     cache_proto := cache_proto this;
     loop := clearTimeout (handle_of key this) (loop this);
     node := node this |}.

Definition KeyTimeout_updateTimeout (key : string) (durationMs : Z) (this : t) : t :=
  let this := KeyTimeout_clearTimeout key this in
  let '(h, loop') := setTimeout key durationMs (loop this) in
  let T := keyTimeout this in
  {| ttl := ttl this;
     keyTimeout :=
       if String.eqb key "__proto__"
       then mkKeyTimeout (timeoutHandleForKey T) (Some h)
       else mkKeyTimeout (<[ key := h ]> (timeoutHandleForKey T))
                         (timeoutHandleForKey_proto T);
     cache := cache this;
     cache_proto := cache_proto this;
     loop := loop';
     node := node this |}.

(** What [this.cache[key]] is: an entry that [set] has made, or another
    value. *)
Inductive member : Type :=
| Entry (e : entry)
| Other (v : value).

Definition Object_prototype_member (key : string) : member :=
  Other (if inherited key then builtin key else VUndefined).

Definition lookup (key : string) (this : t) : member :=
  if String.eqb key "__proto__" then
    match cache_proto this with
    | Some e => Entry e
    | None => Other (VObj [])
    end
  else match cache this !! key with
  | Some e => Entry e
  | None =>
      match cache_proto this with
      | Some e =>
          if String.eqb key "bodyBuffer" then Other (VBuffer (bodyBuffer e))
          else if String.eqb key "metaData" then Other (entry_metaData e)
          else Object_prototype_member key
      | None => Object_prototype_member key
      end
  end.

Definition get (key : string) (this : t) : result (option CachedValue) :=
  match lookup key this with
  | Entry cachedValue =>
      Ok (Some {| bodyStream := Readable_from (bodyBuffer cachedValue);
                  metaData := entry_metaData cachedValue |})
  | Other cachedValue =>
      if truthy cachedValue then
        bodyBuffer ← Key.get_property cachedValue "bodyBuffer";
        bodyStream ← Readable_from_value (node this) bodyBuffer;
        metaData ← Key.get_property cachedValue "metaData";
        Ok (Some {| bodyStream := bodyStream; metaData := metaData |})
      else Ok None
  end.

Definition remove (key : string) (this : t) : t :=
  let this := KeyTimeout_clearTimeout key this in
  {| ttl := ttl this;
     keyTimeout := keyTimeout this;
     cache := if String.eqb key "__proto__" then cache this
              else delete key (cache this);
     cache_proto := cache_proto this;
     loop := loop this;
     node := node this |}.

Definition set (key : string) (bodyStream : Stream) (metaData : value) (this : t)
  : t * outcome (option CachedValue) :=
  match streamToBuffer bodyStream with
  | Resolved bodyBuffer =>
      let cachedValue := mkEntry bodyBuffer metaData in
      let this :=
        {| ttl := ttl this;
           keyTimeout := keyTimeout this;
           cache := if String.eqb key "__proto__" then cache this
                    else <[ key := cachedValue ]> (cache this);
           cache_proto := if String.eqb key "__proto__" then Some cachedValue
                          else cache_proto this;
           loop := loop this;
           node := node this |} in
      let this :=
        match ttl this with
        | VNum ms => KeyTimeout_updateTimeout key ms this
        | _ => this
        end in
      (this, match get key this with
             | Ok r => Resolved r
             | Err err => Rejected err
             end)
  | Rejected err => (this, Rejected err)
  | Pending => (this, Pending)
  end.

(** A timer fires: it leaves the pending timers and its callback runs. *)
Definition fire (x : timer) (this : t) : t :=
  remove (callback x)
    {| ttl := ttl this;
       keyTimeout := keyTimeout this;
       cache := cache this;
       cache_proto := cache_proto this;
       loop := {| now := now (loop this);
                  next_handle := next_handle (loop this);
                  pending := filter (fun y => handle y ≠ handle x)
                                    (pending (loop this)) |};
       node := node this |}.

Fixpoint run_timers (fuel : nat) (limit : Z) (this : t) : t :=
  match fuel with
  | O => this
  | S fuel' =>
      match next_due limit (pending (loop this)) with
      | Some x => run_timers fuel' limit (fire x this)
      | None => this
      end
  end.

(** [ms] milliseconds pass: the timers due by then fire. *)
Definition elapse (ms : Z) (this : t) : t :=
  let this := run_timers (length (pending (loop this))) (now (loop this) + ms) this in
  {| ttl := ttl this;
     keyTimeout := keyTimeout this;
     cache := cache this;
     cache_proto := cache_proto this;
     loop := {| now := now (loop this) + ms;
                next_handle := next_handle (loop this);
                pending := pending (loop this) |};
     node := node this |}.

End MemoryCache.

(** ** The cacache collaborator and [FileSystemCache] (commonjs/index.cjs) *)

Module FileSystemCache.
Import JS Node.

Section WithIntegrity.

(** The integrity digest cacache computes of a content. *)
Variable integrity : string -> string.

(** The cache at one directory: the index from keys to integrity digests
    and the contents by digest. *)
Record cacache : Type := mkCacache {
  index : gmap string string;
  content : gmap string string;
}.

Definition empty_cacache : cacache := mkCacache ∅ ∅.

Definition ENODATA : exn := SystemError "ENODATA" "Cache input stream was empty".

Definition ENOENT : exn := SystemError "ENOENT" "no such file or directory".

(** [cacache.put(dir, key, data)]; [fault] is the error of a write that
    fails, which then leaves the cache as it was. *)
Definition put (key data : string) (fault : option exn) (c : cacache)
  : cacache * outcome string :=
  match fault with
  | Some err => (c, Rejected err)
  | None =>
      (mkCacache (<[ key := integrity data ]> (index c))
                 (<[ integrity data := data ]> (content c)),
       Resolved (integrity data))
  end.

(** [bodyStream.pipe(cacache.put.stream(dir, key))], awaited through the
    [integrity] and [error] events of the destination.  An error of the
    source is not forwarded to the destination, which then emits neither;
    an input of no bytes is the error [ENODATA]. *)
Definition put_stream (key : string) (bodyStream : Stream) (fault : option exn)
  (c : cacache) : cacache * outcome string :=
  match failure bodyStream with
  | Some _ => (c, Pending)
  | None =>
      if String.eqb (contents bodyStream) "" then (c, Rejected ENODATA)
      else put key (contents bodyStream) fault c
  end.

(** [cacache.get.info(dir, key)] *)
Definition get_info (key : string) (c : cacache) : option string :=
  index c !! key.

(** [cacache.get.byDigest(dir, digest)] *)
Definition get_byDigest (digest : string) (c : cacache) : outcome string :=
  match content c !! digest with
  | Some data => Resolved data
  | None => Rejected ENOENT
  end.

(** [cacache.get.stream.byDigest(dir, digest)] *)
Definition get_stream_byDigest (digest : value) (c : cacache) : Stream :=
  match digest with
  | VStr d =>
      match content c !! d with
      | Some data => {| chunks := [data]; failure := None |}
      | None => {| chunks := []; failure := Some ENOENT |}
      end
  | _ => {| chunks := []; failure := Some (TypeError "Invalid integrity") |}
  end.

Definition err_code (e : exn) : value :=
  match e with
  | SystemError code _ => VStr code
  | JsError _ _ => VUndefined
  end.

Record t : Type := mk {
  ttl : value;
  cacheDirectory : string;
}.

(** [new FileSystemCache(options)] *)
Definition new (options_ttl options_cacheDirectory : value) : t :=
  {| ttl := options_ttl;
     cacheDirectory :=
       match options_cacheDirectory with
       | VStr d => if String.eqb d "" then ".cache" else d
       | _ => ".cache"
       end |}.

Definition getBodyAndMetaKeys (key : string) : string * string :=
  (key +:+ "body", key +:+ "meta").

(** [expiration < Date.now()]: a number compares as itself, a boolean as
    0 or 1, a string as the integer it spells; anything else converts to
    [NaN], which is below nothing. *)
Definition less_than (v : value) (n : Z) : bool :=
  match v with
  | VNum e => e <? n
  | VBool b => (if b then 1 else 0) <? n
  | VNull => 0 <? n
  | VStr s =>
      match Json.parse_number s with
      | Some (e, EmptyString) => e <? n
      | _ => false
      end
  | _ => false
  end.

(** The properties of the parsed metadata; destructuring [null] throws. *)
Definition meta_props (metaData : value) : result props :=
  match metaData with
  | VNull | VUndefined =>
      Err (TypeError "Cannot destructure property 'bodyStreamIntegrity' of 'metaData' as it is null.")
  | VObj ps => Ok ps
  | _ => Ok []
  end.

Definition delete_internal (metaData : value) : value :=
  match metaData with
  | VObj ps =>
      VObj (obj_delete "expiration"
              (obj_delete "empty" (obj_delete "bodyStreamIntegrity" ps)))
  | _ => metaData
  end.

(** [get(key)], with [now] the reading of [Date.now()]. *)
Definition get (this : t) (now : Z) (key : string) (c : cacache)
  : outcome (option CachedValue) :=
  let metaKey := snd (getBodyAndMetaKeys key) in
  match get_info metaKey c with
  | None => Resolved None
  | Some metaInfo_integrity =>
      match get_byDigest metaInfo_integrity c with
      | Resolved metaBuffer =>
          match Json.JSON_parse metaBuffer with
          | None => Rejected (JsError "SyntaxError" "Unexpected token in JSON")
          | Some metaData =>
              match meta_props metaData with
              | Err e => Rejected e
              | Ok ps =>
                  let bodyStreamIntegrity := obj_get "bodyStreamIntegrity" ps in
                  let empty := obj_get "empty" ps in
                  let expiration := obj_get "expiration" ps in
                  let metaData := delete_internal metaData in
                  if truthy expiration && less_than expiration now
                  then Resolved None
                  else
                    let bodyStream :=
                      if truthy empty then Readable_from ""
                      else get_stream_byDigest bodyStreamIntegrity c in
                    Resolved (Some {| bodyStream := bodyStream;
                                      metaData := metaData |})
              end
          end
      | Rejected e => Rejected e
      | Pending => Pending
      end
  end.

(** [remove(key)] *)
Definition remove (this : t) (key : string) (c : cacache) : cacache :=
  let '(bodyKey, metaKey) := getBodyAndMetaKeys key in
  mkCacache (delete metaKey (delete bodyKey (index c))) (content c).

(** The faults of the two writes of one [set]. *)
Record faults : Type := mkFaults {
  put_stream_fault : option exn;
  put_fault : option exn;
}.

Definition no_faults : faults := mkFaults None None.

(** [{ ...metaData }], then [expiration] when [this.ttl] is a number. *)
Definition metaCopy_of (this : t) (now : Z) (metaData : value) : props :=
  let metaCopy := own_enumerable metaData in
  match ttl this with
  | VNum ms => obj_set "expiration" (VNum (now + ms)) metaCopy
  | _ => metaCopy
  end.

(** [set(key, bodyStream, metaData)]; [now] is the reading of [Date.now()]
    in [set] itself and [now_get] the later one in the [get] it ends with. *)
Definition set (this : t) (now now_get : Z) (f : faults) (key : string)
  (bodyStream : Stream) (metaData : value) (c : cacache)
  : cacache * outcome (option CachedValue) :=
  let '(bodyKey, metaKey) := getBodyAndMetaKeys key in
  let metaCopy := metaCopy_of this now metaData in
  let write_meta (metaCopy : props) (c : cacache) :=
    let metaBuffer := JSON_stringify (VObj metaCopy) in
    match put metaKey metaBuffer (put_fault f) c with
    | (c, Resolved _) => (c, get this now_get key c)
    | (c, Rejected e) => (c, Rejected e)
    | (c, Pending) => (c, Pending)
    end in
  match put_stream bodyKey bodyStream (put_stream_fault f) c with
  | (c, Resolved i) =>
      write_meta (obj_set "bodyStreamIntegrity" (VStr i) metaCopy) c
  | (c, Rejected err) =>
      if Key.is_string (err_code err) "ENODATA"
      then write_meta (obj_set "empty" (VBool true) metaCopy) c
      else (c, Rejected err)
  | (c, Pending) => (c, Pending)
  end.

End WithIntegrity.

End FileSystemCache.

(** ** The cache-aware fetch: [NFCResponse], [getResponse] *)

Module Fetch.
Import JS Node.

(** An [NFCResponse]: the body and metadata handed to [super], the key
    that [ejectFromCache] (the closure [() => cache.remove(cacheKey)])
    removes, and [fromCache]. *)
Record NFCResponse : Type := mkNFCResponse {
  response_bodyStream : Stream;
  response_metaData : value;
  ejectFromCache : string;
  fromCache : bool;
}.

(** What the transport resolves to, as far as [getResponse] reads it. *)
Record FetchResponse : Type := mkFetchResponse {
  url : value;
  status : value;
  statusText : value;
  headers_raw : value;
  size : value;
  timeout : value;
  counter : value;
  body : Stream;
}.

Definition serializeMetaFromNodeFetchResponse (res : FetchResponse) : value :=
  VObj [ ("url", url res);
         ("status", status res);
         ("statusText", statusText res);
         ("headers", headers_raw res);
         ("size", size res);
         ("timeout", timeout res);
         ("counter", counter res) ].

(** The [cache] argument: any object with [get], [set] and [remove], over
    a state of its own. *)
Record Cache (S : Type) : Type := mkCache {
  cache_get : string -> S -> outcome (option CachedValue);
  cache_set : string -> Stream -> value -> S -> S * outcome (option CachedValue);
  cache_remove : string -> S -> S;
}.
Arguments cache_get {S} _ _ _.
Arguments cache_set {S} _ _ _ _ _.
Arguments cache_remove {S} _ _ _.

Inductive event : Type :=
| EvGet (key : string)
| EvLock (key : string)
| EvFetch (args : list value)
| EvSet (key : string)
| EvUnlock (key : string).

(** The state one call runs in: the store, the keys whose lock is held,
    and the calls made so far, the latest last. *)
Record World (S : Type) : Type := mkWorld {
  store : S;
  locks : gset string;
  log : list event;
}.
Arguments mkWorld {S} _ _ _.
Arguments store {S} _.
Arguments locks {S} _.
Arguments log {S} _.

(** The surroundings of one call: what the other tasks make of the store
    while the caller waits for the lock, and what the transport answers. *)
Record Env (S : Type) : Type := mkEnv {
  while_waiting : S -> S;
  fetch : list value -> outcome FetchResponse;
}.
Arguments while_waiting {S} _ _.
Arguments fetch {S} _ _.

Section WithCache.

Context {S : Type}.
Variable cache : Cache S.
Variable env : Env S.

Definition record (e : event) (w : World S) : World S :=
  mkWorld (store w) (locks w) (log w ++ [e]).

(** [await cache.get(cacheKey)] *)
Definition get (key : string) (w : World S)
  : World S * outcome (option CachedValue) :=
  (record (EvGet key) w, cache_get cache key (store w)).

(** [await locko.lock(cacheKey)] *)
Definition lock (key : string) (w : World S) : World S :=
  mkWorld (while_waiting env (store w)) ({[ key ]} ∪ locks w) (log w ++ [EvLock key]).

(** [locko.unlock(cacheKey)] *)
Definition unlock (key : string) (w : World S) : World S :=
  mkWorld (store w) (locks w ∖ {[ key ]}) (log w ++ [EvUnlock key]).

(** [new NFCResponse(v.bodyStream, v.metaData, ejectSelfFromCache, fromCache)];
    reading [bodyStream] of [undefined] throws. *)
Definition respond (v : option CachedValue) (cacheKey : string) (fromCache : bool)
  : outcome (option NFCResponse) :=
  match v with
  | Some v =>
      Resolved (Some (mkNFCResponse (bodyStream v) (metaData v) cacheKey fromCache))
  | None =>
      Rejected (TypeError "Cannot read properties of undefined (reading 'bodyStream')")
  end.

(** The body of the [try] block of [getResponse]. *)
Definition fetch_and_store (cacheKey : string) (requestArguments : list value)
  (w : World S) : World S * outcome (option NFCResponse) :=
  let '(w, cachedValue) := get cacheKey w in
  match cachedValue with
  | Resolved (Some v) => (w, respond (Some v) cacheKey true)
  | Resolved None =>
      let w := record (EvFetch requestArguments) w in
      match fetch env requestArguments with
      | Resolved fetchResponse =>
          let serializedMeta := serializeMetaFromNodeFetchResponse fetchResponse in
          let '(s, newlyCachedData) :=
            cache_set cache cacheKey (body fetchResponse) serializedMeta (store w) in
          let w := mkWorld s (locks w) (log w ++ [EvSet cacheKey]) in
          match newlyCachedData with
          | Resolved v => (w, respond v cacheKey false)
          | Rejected e => (w, Rejected e)
          | Pending => (w, Pending)
          end
      | Rejected e => (w, Rejected e)
      | Pending => (w, Pending)
      end
  | Rejected e => (w, Rejected e)
  | Pending => (w, Pending)
  end.

(** [await locko.lock(cacheKey); try { ... } finally { locko.unlock(cacheKey); }];
    the [finally] block runs when the [try] block is left, which a promise
    that never settles does not let happen. *)
Definition locked (cacheKey : string) (requestArguments : list value)
  (w : World S) : World S * outcome (option NFCResponse) :=
  let w := lock cacheKey w in
  match fetch_and_store cacheKey requestArguments w with
  | (w, Pending) => (w, Pending)
  | (w, r) => (unlock cacheKey w, r)
  end.

(** The part of [getResponse] after the key is derived; [only_if_cached]
    is what [hasOnlyWithCacheOption] answers, asked after a miss only. *)
Definition getResponse_from (cacheKey : string)
  (only_if_cached : result bool) (requestArguments : list value)
  (w : World S) : World S * outcome (option NFCResponse) :=
  let '(w, cachedValue) := get cacheKey w in
  match cachedValue with
  | Resolved (Some v) => (w, respond (Some v) cacheKey true)
  | Resolved None =>
      match only_if_cached with
      | Ok true => (w, Resolved None)
      | Ok false => locked cacheKey requestArguments w
      | Err e => (w, Rejected e)
      end
  | Rejected e => (w, Rejected e)
  | Pending => (w, Pending)
  end.

(** [args[i]] *)
Definition argument (i : nat) (args : list value) : value := nth i args VUndefined.

(** [args.name] for a name that is no index: an array has no such
    property but [length]. *)
Definition array_property (name : string) (args : list value) : value :=
  if String.eqb name "length" then VNum (Z.of_nat (length args))
  else obj_get name (indexed args).

End WithCache.

End Fetch.

(** ** src/index.ts: key derivation and [getResponse] *)

Module Ts.
Import JS Key Node Fetch.

Section WithKeyFlags.

(** The object the global [key_flags] refers to when the functions run. *)
Variable key_flags : props.

(** The second conjunct of the filter of [getHeadersCacheKeyJson]. *)
Definition header_flag (key : string) : result bool :=
  match obj_get "headers" key_flags with
  | VBool _ => Ok true
  | hf =>
      own ← Object_entries hf;
      mret (negb (hasOwnProperty key own) || truthy (obj_get key own))
  end.

Definition keep_header (kv : string * value) : result bool :=
  if negb (String.eqb (fst kv) "cache-control")
     || negb (is_string (snd kv) "only-if-cached")
  then header_flag (fst kv)
  else Ok false.

Fixpoint filterM (f : string * value -> result bool) (l : props) : result props :=
  match l with
  | [] => Ok []
  | kv :: l' =>
      b ← f kv;
      r ← filterM f l';
      mret (if (b : bool) then kv :: r else r)
  end.

Definition getHeadersCacheKeyJson (headersObj : value) : result value :=
  es ← Object_entries headersObj;
  kept ← filterM keep_header (map (fun kv => (toLowerCase (fst kv), snd kv)) es);
  mret (VObj (Object_fromEntries kept)).

Definition flag (name : string) : bool := truthy (obj_get name key_flags).

(** [key_flags[name] ? req[name] : ''] *)
Definition flagged (req : value) (name : string) : result value :=
  if flag name then get_property req name else Ok (VStr "").

Definition getRequestCacheKey (req : value) : result props :=
  pojo ← headersPojo req;
  cache ← flagged req "cache";
  credentials ← flagged req "credentials";
  destination ← flagged req "destination";
  headers ← (if flag "headers" then getHeadersCacheKeyJson pojo else Ok (VStr ""));
  integrity ← flagged req "integrity";
  method ← flagged req "method";
  redirect ← flagged req "redirect";
  referrer ← flagged req "referrer";
  referrerPolicy ← flagged req "referrerPolicy";
  url ← flagged req "url";
  body ← (if flag "body"
          then b ← get_property req "body"; getBodyCacheKeyJson b
          else Ok (VStr ""));
  mret [ ("cache", cache);
         ("credentials", credentials);
         ("destination", destination);
         ("headers", headers);
         ("integrity", integrity);
         ("method", method);
         ("redirect", redirect);
         ("referrer", referrer);
         ("referrerPolicy", referrerPolicy);
         ("url", url);
         ("body", body) ].

(** The array handed to [JSON.stringify]; [getCacheKey] is its digest. *)
Definition getCacheKeyJson (resource init : value) : result value :=
  let init := match init with VUndefined => VObj [] | _ => init end in
  resourceCacheKeyJson ←
    (if is_Request resource
     then getRequestCacheKey resource
     else getRequestCacheKey (VObj [("url", resource)]));
  headers ←
    (if flag "headers"
     then h ← get_property init "headers"; getHeadersCacheKeyJson (or_empty h)
     else Ok (VStr ""));
  let initCacheKeyJson := obj_set "headers" headers (own_enumerable init) in
  rbody ← getBodyCacheKeyJson (obj_get "body" resourceCacheKeyJson);
  let resourceCacheKeyJson := obj_set "body" rbody resourceCacheKeyJson in
  ibody ← getBodyCacheKeyJson (obj_get "body" initCacheKeyJson);
  let initCacheKeyJson := obj_set "body" ibody initCacheKeyJson in
  let initCacheKeyJson := obj_delete "agent" initCacheKeyJson in
  mret (VArr [VObj resourceCacheKeyJson; VObj initCacheKeyJson; VNum CACHE_VERSION]).

Definition getCacheKey (resource init : value) : result string :=
  json ← getCacheKeyJson resource init;
  mret (md5 (JSON_stringify json)).

End WithKeyFlags.

(** [getResponse] of src/index.ts: [getCacheKey(requestArguments.resource, requestArguments.init)],
    [hasOnlyWithCacheOption(requestArguments.resource, requestArguments.init)],
    on the array [createFetchWithCache] passes ([(...args) => getResponse(cache, args)]). *)
Definition getResponse {S : Type} (cache : Cache S) (env : Env S)
  (key_flags : props) (requestArguments : list value) (w : World S)
  : World S * outcome (option NFCResponse) :=
  let resource := array_property "resource" requestArguments in
  let init := array_property "init" requestArguments in
  match getCacheKey key_flags resource init with
  | Ok cacheKey =>
      getResponse_from cache env cacheKey
        (hasOnlyWithCacheOption resource init) requestArguments w
  | Err e => (w, Rejected e)
  end.

End Ts.

(** ** commonjs/index.cjs: key derivation and [getResponse] *)

Module Cjs.
Import JS Key Node Fetch.

Section WithKeyFlags.

Variable key_flags : props.

Definition keep_header (kv : string * value) : bool :=
  negb (String.eqb (fst kv) "cache-control")
  || negb (is_string (snd kv) "only-if-cached").

Definition getHeadersCacheKeyJson (headersObj : value) : result value :=
  es ← Object_entries headersObj;
  mret (VObj (Object_fromEntries
                (filter (fun kv => keep_header kv = true)
                        (map (fun kv => (toLowerCase (fst kv), snd kv)) es)))).

Definition flag (name : string) : bool := truthy (obj_get name key_flags).

Definition flagged (req : value) (name : string) : result value :=
  if flag name then get_property req name else Ok (VStr "").

Definition getRequestCacheKey (req : value) : result props :=
  pojo ← headersPojo req;
  cache ← flagged req "cache";
  credentials ← flagged req "credentials";
  destination ← flagged req "destination";
  headers ← (if flag "headers" then getHeadersCacheKeyJson pojo else Ok (VStr ""));
  integrity ← flagged req "integrity";
  method ← flagged req "method";
  redirect ← flagged req "redirect";
  referrer ← flagged req "referrer";
  referrerPolicy ← flagged req "referrerPolicy";
  url ← flagged req "url";
  body ← (if flag "body"
          then b ← get_property req "body"; getBodyCacheKeyJson b
          else Ok (VStr ""));
  mret [ ("cache", cache);
         ("credentials", credentials);
         ("destination", destination);
         ("headers", headers);
         ("integrity", integrity);
         ("method", method);
         ("redirect", redirect);
         ("referrer", referrer);
         ("referrerPolicy", referrerPolicy);
         ("url", url);
         ("body", body) ].

Definition getCacheKeyJson (resource init : value) : result value :=
  let init := match init with VUndefined => VObj [] | _ => init end in
  resourceCacheKeyJson ←
    (if is_Request resource
     then getRequestCacheKey resource
     else Ok [("url", resource)]);
  h ← get_property init "headers";
  headers ← getHeadersCacheKeyJson (or_empty h);
  let initCacheKeyJson := obj_set "headers" headers (own_enumerable init) in
  rbody ← getBodyCacheKeyJson (obj_get "body" resourceCacheKeyJson);
  let resourceCacheKeyJson := obj_set "body" rbody resourceCacheKeyJson in
  ibody ← getBodyCacheKeyJson (obj_get "body" initCacheKeyJson);
  let initCacheKeyJson := obj_set "body" ibody initCacheKeyJson in
  let initCacheKeyJson := obj_delete "agent" initCacheKeyJson in
  mret (VArr [VObj resourceCacheKeyJson; VObj initCacheKeyJson; VNum CACHE_VERSION]).

Definition getCacheKey (resource init : value) : result string :=
  json ← getCacheKeyJson resource init;
  mret (md5 (JSON_stringify json)).

End WithKeyFlags.

(** [getResponse] of commonjs/index.cjs: [getCacheKey(...requestArguments)],
    [hasOnlyWithCacheOption(...requestArguments)]. *)
Definition getResponse {S : Type} (cache : Cache S) (env : Env S)
  (key_flags : props) (requestArguments : list value) (w : World S)
  : World S * outcome (option NFCResponse) :=
  let resource := argument 0 requestArguments in
  let init := argument 1 requestArguments in
  match getCacheKey key_flags resource init with
  | Ok cacheKey =>
      getResponse_from cache env cacheKey
        (hasOnlyWithCacheOption resource init) requestArguments w
  | Err e => (w, Rejected e)
  end.

End Cjs.

(** ** Multipart forms as the form-data package builds them

    [append(name, value)] of a string value pushes three parts on
    [_streams]: the header line with the boundary, the value, and the
    footer (a function).  [_boundary] is created by the first
    [getBoundary()], after the properties the constructors set. *)

Module FormData.
Import JS.

Definition CRLF : string := String (chr 13) (String (chr 10) "").

Definition dquote : string := String (chr 34) "".

(** The header of a part, after the boundary. *)
Definition header_tail (name : string) : string :=
  CRLF +:+ "Content-Disposition: form-data; name=" +:+ dquote +:+ name +:+ dquote
  +:+ CRLF +:+ CRLF.

Definition footer : value := VFunction "function (next) { ... }".

Definition part (boundary : string) (field : string * string) : list value :=
  [ VStr ("--" +:+ boundary +:+ header_tail (fst field));
    VStr (snd field);
    footer ].

Definition streams (boundary : string) (fields : list (string * string)) : list value :=
  concat (map (part boundary) fields).

(** A form with the given boundary and fields; [before] and [after] are
    its other own properties, around [_streams]. *)
Definition form (boundary : string) (fields : list (string * string))
  (before after : props) : value :=
  VFormData boundary
    (before ++ ("_streams", VArr (streams boundary fields))
            :: after ++ [("_boundary", VStr boundary)]).

Fixpoint dashes (n : nat) : string :=
  match n with
  | O => EmptyString
  | S n' => String "-" (dashes n')
  end.

(** [pat] occurs in [s]. *)
Fixpoint occurs (pat s : string) : bool :=
  String.prefix pat s
  || match s with
     | EmptyString => false
     | String _ s' => occurs pat s'
     end.

(** The boundary occurs in no part of the fields but where [part] puts it. *)
Definition free_of (boundary : string) (fields : list (string * string)) : Prop :=
  Forall (fun field =>
            occurs boundary (header_tail (fst field)) = false
            /\ occurs boundary (snd field) = false) fields.

(** A run of dashes, then a token that does not start with a dash, all
    of it letters, digits, dashes or underscores: the shape of the
    boundaries form-data generates (26 dashes, 24 digits), which as a
    regular expression match themselves only. *)
Definition boundary_shape (boundary : string) : Prop :=
  exists n c t, boundary = dashes n +:+ String c t /\ c <> "-"%char
                /\ regexp_literal boundary = true.

End FormData.

(** ** The two stores as the [cache] argument *)

Module Stores.
Import JS Node Fetch.

Definition memoryCache : Cache MemoryCache.t :=
  {| cache_get key this :=
       match MemoryCache.get key this with
       | Ok r => Resolved r
       | Err err => Rejected err
       end;
     cache_set key bodyStream metaData this := MemoryCache.set key bodyStream metaData this;
     cache_remove key this := MemoryCache.remove key this |}.

(** A [FileSystemCache] with the cache directory it writes to, the clock,
    and what its surroundings decide of the next [set]: the time its
    writes take and the faults they run into. *)
Record disk : Type := mkDisk {
  this : FileSystemCache.t;
  files : FileSystemCache.cacache;
  clock : Z;
  latency : Z;
  faults : FileSystemCache.faults;
}.

Definition fileSystemCache (integrity : string -> string) : Cache disk :=
  {| cache_get key d := FileSystemCache.get (this d) (clock d) key (files d);
     cache_set key bodyStream metaData d :=
       let '(c, r) :=
         FileSystemCache.set integrity (this d) (clock d) (clock d + latency d)
           (faults d) key bodyStream metaData (files d) in
       (mkDisk (this d) c (clock d + latency d) (latency d) (faults d), r);
     cache_remove key d :=
       mkDisk (this d) (FileSystemCache.remove (this d) key (files d))
              (clock d) (latency d) (faults d) |}.

(** A digest that tells any two contents apart. *)
Definition ideal_integrity (data : string) : string := "sha512-" +:+ data.

(** Every content is filed under its own digest. *)
Definition content_addressed (integrity : string -> string)
  (c : FileSystemCache.cacache) : Prop :=
  forall digest data,
    FileSystemCache.content c !! digest = Some data -> digest = integrity data.

End Stores.

(** * Properties *)

Import JS Key Node.

Local Open Scope list_scope.

(** ** Objects *)

Lemma obj_lookup_set_eq (k : string) (v : value) (ps : props) :
  obj_lookup k (obj_set k v ps) = Some v.
Proof.
  induction ps as [|[k' x] ps IH]; cbn [obj_set obj_lookup].
  - rewrite String.eqb_refl. reflexivity.
  - destruct (String.eqb k k') eqn:E; cbn [obj_lookup]; rewrite ?String.eqb_refl, ?E; auto.
Qed.

Lemma obj_lookup_set_ne (k k' : string) (v : value) (ps : props) :
  k <> k' -> obj_lookup k (obj_set k' v ps) = obj_lookup k ps.
Proof.
  intros Hne. induction ps as [|[k'' x] ps IH]; cbn [obj_set obj_lookup].
  - destruct (String.eqb_spec k k'); [contradiction|reflexivity].
  - destruct (String.eqb_spec k' k'') as [<-|]; cbn [obj_lookup].
    + destruct (String.eqb_spec k k'); [contradiction|reflexivity].
    + rewrite IH. reflexivity.
Qed.

Lemma obj_get_set_eq (k : string) (v : value) (ps : props) :
  obj_get k (obj_set k v ps) = v.
Proof. unfold obj_get. rewrite obj_lookup_set_eq. reflexivity. Qed.

Lemma obj_get_set_ne (k k' : string) (v : value) (ps : props) :
  k <> k' -> obj_get k (obj_set k' v ps) = obj_get k ps.
Proof. intros H. unfold obj_get. rewrite obj_lookup_set_ne by assumption. reflexivity. Qed.

Lemma obj_lookup_delete_eq (k : string) (ps : props) :
  obj_lookup k (obj_delete k ps) = None.
Proof.
  induction ps as [|[k' x] ps IH]; cbn [obj_delete obj_lookup]; [reflexivity|].
  destruct (String.eqb k k') eqn:E; cbn [obj_lookup]; rewrite ?E; assumption.
Qed.

Lemma obj_lookup_delete_ne (k k' : string) (ps : props) :
  k <> k' -> obj_lookup k (obj_delete k' ps) = obj_lookup k ps.
Proof.
  intros Hne. induction ps as [|[k'' x] ps IH]; cbn [obj_delete obj_lookup]; [reflexivity|].
  destruct (String.eqb_spec k' k'') as [<-|]; cbn [obj_lookup].
  - destruct (String.eqb_spec k k'); [contradiction|assumption].
  - rewrite IH. reflexivity.
Qed.

Lemma obj_get_delete_ne (k k' : string) (ps : props) :
  k <> k' -> obj_get k (obj_delete k' ps) = obj_get k ps.
Proof. intros H. unfold obj_get. rewrite obj_lookup_delete_ne by assumption. reflexivity. Qed.

(** ** Bare URLs as the resource (src/index.ts against commonjs/index.cjs) *)

(** [getRequestCacheKey] reads [req.headers.entries()] first: on the
    object [{ url: resource }] that throws. *)
Lemma Ts_getRequestCacheKey_url_only (key_flags : props) (resource : value) :
  Ts.getRequestCacheKey key_flags (VObj [("url", resource)])
  = Err (TypeError "Cannot read properties of undefined (reading 'entries')").
Proof. reflexivity. Qed.

(** The sibling in commonjs/index.cjs derives the key from [{ url: resource }]
    with every other field absent. *)
Lemma Cjs_getCacheKey_bare_url (key_flags : props) (url : string) :
  Cjs.getCacheKey key_flags (VStr url) VUndefined
  = Ok (md5 (JSON_stringify
               (VArr [ VObj [("url", VStr url); ("body", VUndefined)];
                       VObj [("headers", VObj []); ("body", VUndefined)];
                       VNum 4 ]))).
Proof. reflexivity. Qed.

(** C9 (src/index.ts): for every bare URL string, and whatever the key
    flags and the init argument, [getCacheKey] throws a [TypeError] and
    returns no key; the sibling in commonjs/index.cjs returns the digest
    of the request [{ url }], its other fields absent. *)
Theorem C9_ts_getCacheKey_bare_url_throws
  (key_flags : props) (url : string) (init : value) :
  let thrown := TypeError "Cannot read properties of undefined (reading 'entries')" in
  Ts.getCacheKey key_flags (VStr url) init = Err thrown
  /\ (forall cacheKey, Ts.getCacheKey key_flags (VStr url) init <> Ok cacheKey)
  /\ exists cacheKey,
       Cjs.getCacheKey key_flags (VStr url) VUndefined = Ok cacheKey
       /\ cacheKey
          = md5 (JSON_stringify
                   (VArr [ VObj [("url", VStr url); ("body", VUndefined)];
                           VObj [("headers", VObj []); ("body", VUndefined)];
                           VNum CACHE_VERSION ])).
Proof.
  intros thrown. split; [reflexivity|]. split; [discriminate|].
  eexists. split; reflexivity.
Qed.

Example Cjs_getCacheKey_example :
  Cjs.getCacheKey DEFAULT_KEY_FLAGS (VStr "https://example.com/") VUndefined
  = Ok "071bb0a9a478dd5c6cc5e788e7d84c75".
Proof. vm_compute. reflexivity. Qed.

(** ** The key flags across constructions *)

(** After any construction [key_flags] refers to the very object
    [DEFAULT_KEY_FLAGS] refers to. *)
Lemma createFetchWithCache_aliases (options : value) (g g' : Globals.globals) :
  Globals.createFetchWithCache options g = Ok g' ->
  Globals.key_flags g' = Globals.DEFAULT_KEY_FLAGS g'
  /\ Globals.DEFAULT_KEY_FLAGS g' = Globals.DEFAULT_KEY_FLAGS g.
Proof.
  unfold Globals.createFetchWithCache.
  destruct (get_property _ "keyFlags") as [keyFlags|e]; simpl; [|discriminate].
  intros [= <-]. simpl. split; reflexivity.
Qed.

(** A construction with no [keyFlags] option leaves the flags as the
    constructions before it made them: nothing resets them. *)
Lemma createFetchWithCache_without_keyFlags (g : Globals.globals) :
  Globals.key_flags g = Globals.DEFAULT_KEY_FLAGS g ->
  exists g', Globals.createFetchWithCache VUndefined g = Ok g'
             /\ Globals.flags g' = Globals.flags g.
Proof.
  intros Halias. eexists. split; [reflexivity|].
  unfold Globals.flags, Globals.deref. simpl.
  rewrite lookup_insert_eq. simpl. rewrite Halias. reflexivity.
Qed.

(** C5: construct one instance with [keyFlags: { url: false }], then a
    second with no [keyFlags]: the flags still have [url] off, they are not
    the defaults, and two requests that differ in their URL only get the
    same key, which under the defaults they do not. *)
Theorem C5_key_flags_keep_residue :
  exists g1 g2 : Globals.globals,
    Globals.createFetchWithCache
      (VObj [("keyFlags", VObj [("url", VBool false)])]) Globals.initial = Ok g1
    /\ Globals.createFetchWithCache (VObj []) g1 = Ok g2
    /\ obj_get "url" (Globals.flags g2) = VBool false
    /\ Globals.flags g2 <> DEFAULT_KEY_FLAGS
    /\ Globals.deref g2 (Globals.DEFAULT_KEY_FLAGS g2) = Globals.flags g2
    /\ Ts.getCacheKey (Globals.flags g2)
         (VRequest [] [("url", VStr "https://example.com/a")]) VUndefined
       = Ok "3af5fd116cc9f3b0bc44b0f3d4fff77f"
    /\ Ts.getCacheKey (Globals.flags g2)
         (VRequest [] [("url", VStr "https://example.com/b")]) VUndefined
       = Ok "3af5fd116cc9f3b0bc44b0f3d4fff77f"
    /\ Ts.getCacheKey DEFAULT_KEY_FLAGS
         (VRequest [] [("url", VStr "https://example.com/a")]) VUndefined
       = Ok "10598055b51c53d54c33c09e6437848e"
    /\ Ts.getCacheKey DEFAULT_KEY_FLAGS
         (VRequest [] [("url", VStr "https://example.com/b")]) VUndefined
       = Ok "1507cef4c2398ae2dfd94d181f6428e4".
Proof.
  do 2 eexists. split; [reflexivity|]. split; [reflexivity|].
  repeat split; try (vm_compute; congruence).
Qed.

(** ** The body normalizer, applied twice *)

Lemma bind_Ok {A B : Type} (a : A) (k : A -> result B) : (Ok a ≫= k) = k a.
Proof. reflexivity. Qed.

Lemma bind_Err {A B : Type} (e : exn) (k : A -> result B) : (Err e ≫= k) = Err e.
Proof. reflexivity. Qed.






Lemma or_empty_defined (v : value) : or_empty v <> VUndefined /\ or_empty v <> VNull.
Proof.
  unfold or_empty. destruct (truthy v) eqn:E; split; try congruence;
    intros ->; discriminate.
Qed.










(** ** Key flags and the fields they gate *)

(** The fields of a structured request that [getRequestCacheKey] reads
    under a flag of the same name. *)
Definition request_fields : list string :=
  [ "cache"; "credentials"; "destination"; "integrity"; "method";
    "redirect"; "referrer"; "referrerPolicy"; "url"; "body" ].

Lemma Ts_flagged_off (key_flags : props) headers (fields : props)
  (name : string) (v1 v2 : value) (n : string) :
  name <> "headers" ->
  Ts.flag key_flags name = false ->
  Ts.flagged key_flags (VRequest headers (obj_set name v1 fields)) n
  = Ts.flagged key_flags (VRequest headers (obj_set name v2 fields)) n.
Proof.
  intros Hh Hoff. unfold Ts.flagged.
  destruct (String.eqb_spec n name) as [->|Hne]; [rewrite Hoff; reflexivity|].
  destruct (Ts.flag key_flags n); [|reflexivity].
  cbn [get_property]. destruct (String.eqb n "headers"); [reflexivity|].
  rewrite !obj_get_set_ne by assumption. reflexivity.
Qed.

(** With the flag of a request field off, the value of the field does
    not reach the object [getRequestCacheKey] builds. *)
Lemma Ts_getRequestCacheKey_flag_off (key_flags : props) headers (fields : props)
  (name : string) (v1 v2 : value) :
  In name request_fields ->
  Ts.flag key_flags name = false ->
  Ts.getRequestCacheKey key_flags (VRequest headers (obj_set name v1 fields))
  = Ts.getRequestCacheKey key_flags (VRequest headers (obj_set name v2 fields)).
Proof.
  intros Hin Hoff.
  assert (name <> "headers") as Hh.
  { intros ->. cbn in Hin. repeat destruct Hin as [Hin|Hin]; congruence. }
  unfold Ts.getRequestCacheKey. cbn [headersPojo].
  rewrite !(Ts_flagged_off key_flags headers fields name v1 v2) by assumption.
  assert ((if Ts.flag key_flags "body"
           then b ← get_property (VRequest headers (obj_set name v1 fields)) "body";
                getBodyCacheKeyJson b
           else Ok (VStr ""))
          = (if Ts.flag key_flags "body"
             then b ← get_property (VRequest headers (obj_set name v2 fields)) "body";
                  getBodyCacheKeyJson b
             else Ok (VStr ""))) as ->; [|reflexivity].
  destruct (String.eqb_spec "body" name) as [<-|Hne]; [rewrite Hoff; reflexivity|].
  destruct (Ts.flag key_flags "body"); [|reflexivity].
  cbn [get_property]. cbn [String.eqb Ascii.eqb Bool.eqb].
  rewrite !obj_get_set_ne by assumption. reflexivity.
Qed.

(** Flag independence on a structured request: with the flag of a field
    off, two requests that differ in that field only get the same key (or
    fail alike). *)
Lemma Ts_getCacheKey_request_flag_off (key_flags : props) headers (fields : props)
  (name : string) (v1 v2 : value) (init : value) :
  In name request_fields ->
  Ts.flag key_flags name = false ->
  Ts.getCacheKey key_flags (VRequest headers (obj_set name v1 fields)) init
  = Ts.getCacheKey key_flags (VRequest headers (obj_set name v2 fields)) init.
Proof.
  intros Hin Hoff. unfold Ts.getCacheKey, Ts.getCacheKeyJson. cbn [is_Request].
  rewrite (Ts_getRequestCacheKey_flag_off key_flags headers fields name v1 v2 Hin Hoff).
  reflexivity.
Qed.

(** With the [headers] flag off, neither the headers of a structured
    request nor those of the init argument reach the key. *)
Lemma Ts_getCacheKey_headers_flag_off (key_flags : props)
  (headers1 headers2 : list (string * string)) (fields : props)
  (init : props) (h1 h2 : value) :
  Ts.flag key_flags "headers" = false ->
  Ts.getCacheKey key_flags (VRequest headers1 fields) (VObj (obj_set "headers" h1 init))
  = Ts.getCacheKey key_flags (VRequest headers2 fields) (VObj (obj_set "headers" h2 init)).
Proof.
  intros Hoff. unfold Ts.getCacheKey, Ts.getCacheKeyJson. cbn [is_Request].
  assert (Ts.getRequestCacheKey key_flags (VRequest headers1 fields)
          = Ts.getRequestCacheKey key_flags (VRequest headers2 fields)) as ->.
  { unfold Ts.getRequestCacheKey, Ts.flagged. cbn [headersPojo get_property].
    rewrite Hoff. cbn [String.eqb Ascii.eqb Bool.eqb]. reflexivity. }
  rewrite Hoff. cbn [own_enumerable].
  assert (forall h, obj_set "headers" (VStr "") (obj_set "headers" h init)
                    = obj_set "headers" (VStr "") init) as Hset.
  { intros h. induction init as [|[k x] init IH]; cbn [obj_set].
    - rewrite String.eqb_refl. reflexivity.
    - destruct (String.eqb "headers" k) eqn:E; cbn [obj_set]; rewrite ?String.eqb_refl, ?E;
        [reflexivity|]. rewrite IH. reflexivity. }
  destruct (Ts.getRequestCacheKey key_flags (VRequest headers2 fields)) as [r|e];
    [|reflexivity].
  rewrite !bind_Ok.
  destruct (getBodyCacheKeyJson (obj_get "body" r)) as [rbody|e]; [|reflexivity].
  rewrite !bind_Ok, !Hset. reflexivity.
Qed.

(** C6 (src/index.ts): with the [method] flag (or the [body] flag) off,
    two calls on the same structured request whose init arguments differ
    in [method] (in [body]) only get different keys: the init argument is
    spread into the hashed structure whatever the flags say. *)
Theorem C6_init_fields_ignore_their_flags :
  let request := VRequest [] [("url", VStr "https://example.com/"); ("method", VStr "GET")] in
  let method_off := obj_set "method" (VBool false) DEFAULT_KEY_FLAGS in
  let body_off := obj_set "body" (VBool false) DEFAULT_KEY_FLAGS in
  Ts.flag method_off "method" = false
  /\ Ts.getCacheKey method_off request (VObj [("method", VStr "POST")])
     = Ok "807d9d16f5970b37fd50242b37e3ad57"
  /\ Ts.getCacheKey method_off request (VObj [("method", VStr "GET")])
     = Ok "0ce1eace2e7d7c59bdf8b9d8bc45afcb"
  /\ Ts.flag body_off "body" = false
  /\ Ts.getCacheKey body_off request (VObj [("body", VStr "a=1")])
     = Ok "1f4627397592049a665137ee6ca4e252"
  /\ Ts.getCacheKey body_off request (VObj [("body", VStr "a=2")])
     = Ok "003e3c7abeec278f412595f5afe9c885".
Proof.
  vm_compute. repeat split.
Qed.

(** ** Multipart forms and their boundary *)

Import FormData.

Lemma append_assoc (x y z : string) : (x +:+ y) +:+ z = x +:+ (y +:+ z).
Proof. induction x as [|a x IH]; cbn [String.append]; [reflexivity|]. rewrite IH. reflexivity. Qed.

Lemma prefix_app_same (x y z : string) :
  String.prefix (x +:+ y) (x +:+ z) = String.prefix y z.
Proof.
  induction x as [|a x IH]; cbn [String.append String.prefix]; [reflexivity|].
  destruct (ascii_dec a a); [assumption|contradiction].
Qed.

Lemma prefix_app_self (x y : string) : String.prefix x (x +:+ y) = true.
Proof.
  induction x as [|a x IH]; cbn [String.append String.prefix];
    [destruct y; reflexivity|].
  destruct (ascii_dec a a); [assumption|contradiction].
Qed.

Lemma remove_go_skip (pat x y : string) :
  remove_go pat (String.length x) (x +:+ y) = remove_go pat O y.
Proof. induction x as [|a x IH]; cbn [String.append String.length remove_go]; auto. Qed.

Lemma removeAll_nonempty (c : ascii) (t s : string) :
  removeAll (String c t) s = remove_go (String c t) O s.
Proof. reflexivity. Qed.

(** A string the pattern does not occur in is left as it is. *)
Lemma removeAll_free (pat s : string) :
  occurs pat s = false -> removeAll pat s = s.
Proof.
  destruct pat as [|c t]; [reflexivity|]. rewrite removeAll_nonempty.
  induction s as [|a s IH]; [reflexivity|].
  cbn [occurs]. intros H. apply orb_false_iff in H as [Hp Ho].
  cbn [remove_go]. rewrite Hp, (IH Ho). reflexivity.
Qed.

Lemma dashes_shift (n : nat) (x : string) :
  String "-" (dashes n +:+ x) = dashes n +:+ String "-" x.
Proof. induction n as [|n IH]; cbn [dashes String.append]; [reflexivity|]. rewrite IH. reflexivity. Qed.

(** A boundary of the generated shape does not match at the dashes that
    lead a delimiter line. *)
Lemma boundary_not_at_dashes (n : nat) (c : ascii) (t x : string) :
  c <> "-"%char ->
  String.prefix (dashes n +:+ String c t) (String "-" (dashes n +:+ x)) = false.
Proof.
  intros Hc. rewrite dashes_shift, prefix_app_same. cbn [String.prefix].
  destruct (ascii_dec c "-"); [contradiction|reflexivity].
Qed.

(** Stripping the boundary from a header line leaves the two dashes and
    what follows the boundary. *)
Lemma strip_header (boundary tail : string) :
  boundary_shape boundary ->
  occurs boundary tail = false ->
  removeAll boundary ("--" +:+ boundary +:+ tail) = "--" +:+ tail.
Proof.
  intros (n & c & t & -> & Hc & _) Hfree.
  assert (exists c0 t0, dashes n +:+ String c t = String c0 t0) as (c0 & t0 & Hb)
    by (destruct n; cbn [dashes String.append]; eauto).
  assert (String.prefix (dashes n +:+ String c t)
            (String "-" (String "-" ((dashes n +:+ String c t) +:+ tail))) = false) as H0.
  { rewrite append_assoc, !dashes_shift, prefix_app_same. cbn [String.prefix].
    destruct (ascii_dec c "-"); [contradiction|reflexivity]. }
  assert (String.prefix (dashes n +:+ String c t)
            (String "-" ((dashes n +:+ String c t) +:+ tail)) = false) as H1.
  { rewrite append_assoc. apply boundary_not_at_dashes, Hc. }
  change ("--" +:+ ?x) with (String "-" (String "-" x)).
  rewrite Hb in *. rewrite removeAll_nonempty.
  cbn [remove_go]. rewrite H0. cbn [remove_go]. rewrite H1.
  cbn [String.append remove_go].
  replace (String.prefix (String c0 t0) (String c0 (t0 +:+ tail))) with true
    by (symmetry; apply (prefix_app_self (String c0 t0) tail)).
  cbn [String.length Nat.pred]. rewrite remove_go_skip.
  rewrite <- removeAll_nonempty, removeAll_free by assumption. reflexivity.
Qed.

Lemma obj_delete_app (k : string) (a b : props) :
  obj_delete k (a ++ b) = obj_delete k a ++ obj_delete k b.
Proof.
  induction a as [|[k' x] a IH]; cbn [obj_delete app]; [reflexivity|].
  destruct (String.eqb k k'); cbn [app]; rewrite IH; reflexivity.
Qed.

Lemma obj_lookup_app_None (k : string) (a b : props) :
  obj_lookup k a = None -> obj_lookup k (a ++ b) = obj_lookup k b.
Proof.
  induction a as [|[k' x] a IH]; cbn [obj_lookup app]; [reflexivity|].
  destruct (String.eqb k k'); [discriminate|assumption].
Qed.

Lemma obj_set_app_None (k : string) (v x : value) (a b : props) :
  obj_lookup k a = None -> obj_set k v (a ++ (k, x) :: b) = a ++ (k, v) :: b.
Proof.
  induction a as [|[k' y] a IH]; cbn [obj_lookup obj_set app].
  - rewrite String.eqb_refl. reflexivity.
  - destruct (String.eqb k k'); [discriminate|]. intros H. rewrite (IH H). reflexivity.
Qed.

(** The parts of a form once the boundary is stripped. *)
Definition stripped_part (field : string * string) : list value :=
  [ VStr ("--" +:+ header_tail (fst field)); VStr (snd field); footer ].

Lemma strip_streams (boundary : string) (fields : list (string * string)) :
  boundary_shape boundary ->
  free_of boundary fields ->
  map (strip_boundary boundary) (streams boundary fields)
  = concat (map stripped_part fields).
Proof.
  intros Hshape Hfree. unfold streams.
  induction Hfree as [|field fields [Hh Hv] _ IH]; [reflexivity|].
  cbn [map concat]. rewrite map_app, IH. f_equal.
  unfold part, stripped_part. cbn [map strip_boundary footer].
  rewrite (strip_header boundary _ Hshape Hh), (removeAll_free _ _ Hv). reflexivity.
Qed.

(** What the normalizer makes of a form does not depend on its boundary. *)
Lemma getBodyCacheKeyJson_form (boundary : string) (fields : list (string * string))
  (before after : props) :
  boundary_shape boundary ->
  free_of boundary fields ->
  obj_lookup "_streams" before = None ->
  getBodyCacheKeyJson (form boundary fields before after)
  = Ok (VObj (obj_delete "_boundary" before
              ++ ("_streams", VArr (concat (map stripped_part fields)))
              :: obj_delete "_boundary" after)).
Proof.
  intros Hshape Hfree Hbefore.
  unfold getBodyCacheKeyJson, form. cbn [truthy negb toString].
  cbn [String.eqb Ascii.eqb Bool.eqb]. unfold getFormDataCacheKey.
  assert (obj_delete "_boundary"
            (before ++ ("_streams", VArr (streams boundary fields))
                    :: after ++ [("_boundary", VStr boundary)])
          = obj_delete "_boundary" before
            ++ ("_streams", VArr (streams boundary fields))
            :: obj_delete "_boundary" after) as ->.
  { rewrite obj_delete_app. cbn [obj_delete]. cbn [String.eqb Ascii.eqb Bool.eqb].
    rewrite obj_delete_app. cbn [obj_delete]. rewrite String.eqb_refl.
    rewrite app_nil_r. reflexivity. }
  assert (obj_lookup "_streams" (obj_delete "_boundary" before) = None) as Hb'.
  { rewrite obj_lookup_delete_ne by discriminate. assumption. }
  unfold obj_get. rewrite (obj_lookup_app_None _ _ _ Hb').
  cbn [obj_lookup]. rewrite String.eqb_refl.
  rewrite (obj_set_app_None _ _ _ _ _ Hb'), strip_streams by assumption.
  reflexivity.
Qed.

(** Setting a property is blind to the value it replaces, also across
    the setting of another property. *)
Lemma obj_set_set_eq (k : string) (v x : value) (ps : props) :
  obj_set k v (obj_set k x ps) = obj_set k v ps.
Proof.
  induction ps as [|[k' y] ps IH]; cbn [obj_set].
  - rewrite String.eqb_refl. reflexivity.
  - destruct (String.eqb k k') eqn:E; cbn [obj_set]; rewrite ?String.eqb_refl, ?E;
      [reflexivity|]. rewrite IH. reflexivity.
Qed.

Lemma obj_set_over (k k' : string) (v w x1 x2 : value) (ps : props) :
  k <> k' ->
  obj_set k v (obj_set k' w (obj_set k x1 ps))
  = obj_set k v (obj_set k' w (obj_set k x2 ps)).
Proof.
  intros Hne. induction ps as [|[a y] ps IH]; cbn [obj_set].
  - destruct (String.eqb_spec k' k); [congruence|]. cbn [obj_set].
    rewrite String.eqb_refl. reflexivity.
  - destruct (String.eqb_spec k a) as [<-|Ha]; cbn [obj_set].
    + destruct (String.eqb_spec k' k); [congruence|]. cbn [obj_set].
      rewrite String.eqb_refl. reflexivity.
    + destruct (String.eqb_spec k' a) as [<-|Ha']; cbn [obj_set].
      * destruct (String.eqb_spec k k'); [contradiction|].
        rewrite !obj_set_set_eq. reflexivity.
      * destruct (String.eqb_spec k a); [contradiction|]. rewrite IH. reflexivity.
Qed.

Lemma obj_lookup_app (k : string) (a b : props) :
  obj_lookup k (a ++ b)
  = match obj_lookup k a with Some v => Some v | None => obj_lookup k b end.
Proof.
  induction a as [|[k' x] a IH]; cbn [obj_lookup app]; [reflexivity|].
  destruct (String.eqb k k'); [reflexivity|assumption].
Qed.

(** C8, for boundaries of the generated shape that occur in no field
    name or value: two forms with the same fields (and the same other
    properties) are normalized to the same plain object, which has no
    [_boundary], and get the same key, from src/index.ts and from
    commonjs/index.cjs alike, whatever the resource and the rest of the
    init argument. *)
Theorem C8_multipart_boundary_invariance
  (key_flags : props) (resource : value) (init : props)
  (boundary1 boundary2 : string) (fields : list (string * string))
  (before after : props) :
  boundary_shape boundary1 -> boundary_shape boundary2 ->
  free_of boundary1 fields -> free_of boundary2 fields ->
  obj_lookup "_streams" before = None ->
  (exists o,
      getBodyCacheKeyJson (form boundary1 fields before after) = Ok (VObj o)
      /\ getBodyCacheKeyJson (form boundary2 fields before after) = Ok (VObj o)
      /\ obj_lookup "_boundary" o = None)
  /\ Ts.getCacheKey key_flags resource
       (VObj (obj_set "body" (form boundary1 fields before after) init))
     = Ts.getCacheKey key_flags resource
         (VObj (obj_set "body" (form boundary2 fields before after) init))
  /\ Cjs.getCacheKey key_flags resource
       (VObj (obj_set "body" (form boundary1 fields before after) init))
     = Cjs.getCacheKey key_flags resource
         (VObj (obj_set "body" (form boundary2 fields before after) init)).
Proof.
  intros Hs1 Hs2 Hf1 Hf2 Hbefore.
  pose proof (getBodyCacheKeyJson_form boundary1 fields before after Hs1 Hf1 Hbefore) as H1.
  pose proof (getBodyCacheKeyJson_form boundary2 fields before after Hs2 Hf2 Hbefore) as H2.
  set (F1 := form boundary1 fields before after) in *.
  set (F2 := form boundary2 fields before after) in *.
  assert (forall F hv, obj_get "body" (obj_set "headers" hv (obj_set "body" F init)) = F)
    as Hget.
  { intros F hv. rewrite obj_get_set_ne by discriminate. apply obj_get_set_eq. }
  assert (forall F, obj_get "headers" (obj_set "body" F init) = obj_get "headers" init)
    as Hhdr.
  { intros F. apply obj_get_set_ne. discriminate. }
  split; [|split].
  - eexists. split; [exact H1|]. split; [exact H2|].
    rewrite obj_lookup_app, obj_lookup_delete_eq. cbn [obj_lookup].
    cbn [String.eqb Ascii.eqb Bool.eqb]. apply obj_lookup_delete_eq.
  - unfold Ts.getCacheKey, Ts.getCacheKeyJson.
    cbn [get_property own_enumerable]. rewrite !Hhdr.
    match goal with |- (?m ≫= _) ≫= _ = _ => destruct m as [r|e]; [|reflexivity] end.
    rewrite !bind_Ok.
    match goal with |- (?m ≫= _) ≫= _ = _ => destruct m as [hv|e]; [|reflexivity] end.
    rewrite !bind_Ok.
    match goal with |- (?m ≫= _) ≫= _ = _ => destruct m as [rbody|e]; [|reflexivity] end.
    rewrite !bind_Ok, !Hget, H1, H2, !bind_Ok.
    rewrite (obj_set_over "body" "headers" _ hv F1 F2) by discriminate. reflexivity.
  - unfold Cjs.getCacheKey, Cjs.getCacheKeyJson.
    cbn [get_property own_enumerable]. rewrite !Hhdr.
    match goal with |- (?m ≫= _) ≫= _ = _ => destruct m as [r|e]; [|reflexivity] end.
    rewrite !bind_Ok.
    match goal with |- (?m ≫= _) ≫= _ = _ => destruct m as [hv|e]; [|reflexivity] end.
    rewrite !bind_Ok.
    match goal with |- (?m ≫= _) ≫= _ = _ => destruct m as [rbody|e]; [|reflexivity] end.
    rewrite !bind_Ok, !Hget, H1, H2, !bind_Ok.
    rewrite (obj_set_over "body" "headers" _ hv F1 F2) by discriminate. reflexivity.
Qed.

Definition boundary_a : string := "--------------------------104771796205034621652076".

Definition boundary_b : string := "--------------------------935020611920542387329480".

Lemma boundary_a_shape : boundary_shape boundary_a.
Proof.
  exists 26%nat, "1"%char, "04771796205034621652076".
  split; [reflexivity|]. split; [discriminate|reflexivity].
Qed.

Lemma boundary_b_shape : boundary_shape boundary_b.
Proof.
  exists 26%nat, "9"%char, "35020611920542387329480".
  split; [reflexivity|]. split; [discriminate|reflexivity].
Qed.

Lemma C8_witness :
  let fields := [("title", "hello"); ("note", "a - b")] in
  let after := [("_overheadLength", VNum 212); ("_valueLength", VNum 10)] in
  Cjs.getCacheKey DEFAULT_KEY_FLAGS (VStr "https://example.com/upload")
    (VObj (obj_set "body" (form boundary_a fields [("readable", VBool true)] after)
             [("method", VStr "POST")]))
  = Cjs.getCacheKey DEFAULT_KEY_FLAGS (VStr "https://example.com/upload")
      (VObj (obj_set "body" (form boundary_b fields [("readable", VBool true)] after)
               [("method", VStr "POST")])).
Proof.
  intros fields after.
  refine (proj2 (proj2 (C8_multipart_boundary_invariance DEFAULT_KEY_FLAGS _ _
                          boundary_a boundary_b fields _ after
                          boundary_a_shape boundary_b_shape _ _ _))).
  - repeat constructor.
  - repeat constructor.
  - reflexivity.
Defined.

(** C8 as stated fails when a field value holds the boundary of one of
    the two forms: that form loses the value, the other keeps it. *)
Lemma C8_counterexample :
  let request := VRequest [] [("url", VStr "https://example.com/upload")] in
  let fields := [("token", boundary_a)] in
  Ts.getCacheKey DEFAULT_KEY_FLAGS request
    (VObj [("body", form boundary_a fields [] [])])
  = Ok "ef6671937b41811d537d8e8c4adf00b9"
  /\ Ts.getCacheKey DEFAULT_KEY_FLAGS request
       (VObj [("body", form boundary_b fields [] [])])
     = Ok "423d44f30ff0ff6279dcb833a6c8075d"
  /\ Ts.getCacheKey DEFAULT_KEY_FLAGS request
       (VObj [("body", form boundary_a fields [] [])])
     <> Ts.getCacheKey DEFAULT_KEY_FLAGS request
          (VObj [("body", form boundary_b fields [] [])]).
Proof.
  vm_compute. repeat split. discriminate.
Qed.

(** ** The cache-aware fetch of commonjs/index.cjs *)

Import Fetch.

(** The response [getResponse] builds of what the store hands out. *)
Definition response_of (v : CachedValue) (cacheKey : string) (fromCache : bool)
  : outcome (option NFCResponse) :=
  Resolved (Some (mkNFCResponse (bodyStream v) (metaData v) cacheKey fromCache)).

(** The locks once [cacheKey] has been taken and given back. *)
Definition released {S : Type} (cacheKey : string) (w : World S) : gset string :=
  ({[ cacheKey ]} ∪ locks w) ∖ {[ cacheKey ]}.

Lemma released_free {S : Type} (cacheKey : string) (w : World S) :
  cacheKey ∉ released cacheKey w.
Proof.
  unfold released. intros [_ H]%elem_of_difference. apply H, elem_of_singleton. reflexivity.
Qed.

Ltac no_fetch :=
  let H := fresh "H" in
  intros H; injection H as <- <-; cbn [log]; rewrite <- ?app_assoc;
  eexists; (split; [reflexivity|]);
  let ev := fresh "ev" in let Hin := fresh "Hin" in
  intros ev Hin; cbn in Hin; exfalso; intuition discriminate.

Ltac with_fetch :=
  let H := fresh "H" in
  intros H; injection H as <- <-; cbn [log]; rewrite <- ?app_assoc;
  eexists; (split; [reflexivity|]);
  let ev := fresh "ev" in let Hin := fresh "Hin" in
  intros ev Hin; split; reflexivity.

(** A memory cache that holds one entry, under the key of
    [fetch('https://example.com/')]. *)
Definition example_key : string := "071bb0a9a478dd5c6cc5e788e7d84c75".

Definition example_meta : value :=
  VObj [ ("url", VStr "https://example.com/");
         ("status", VNum 200);
         ("statusText", VStr "OK");
         ("headers", VObj [("content-type", VArr [VStr "text/plain"])]);
         ("size", VNum 0);
         ("timeout", VNum 0);
         ("counter", VNum 0) ].

(** The platform of the examples: nothing more is iterable, and no member
    of a [Timeout] is a timer. *)
Definition example_node : Platform :=
  mkPlatform (fun x => Err (not_iterable x)) (fun _ _ _ => None).

Definition warm_memory : MemoryCache.t :=
  MemoryCache.mk VUndefined (MemoryCache.mkKeyTimeout ∅ None)
    {[ example_key := MemoryCache.mkEntry "hello" example_meta ]} None
    (mkTimers 0 0 []) example_node.

Definition silent : Env MemoryCache.t := mkEnv _ (fun s => s) (fun _ => Pending).

(** ** The cache-aware fetch of src/index.ts *)

Lemma decimal_head (n : nat) :
  exists c t, decimal (Z.of_nat n) = String c t /\ Json.is_digit c = true.
Proof.
  unfold decimal. destruct (Z.of_nat n) as [|p|p] eqn:E; [| |lia].
  - do 2 eexists. split; reflexivity.
  - cbn [Z.to_int NilZero.string_of_int].
    destruct (Pos.to_uint p); do 2 eexists; split; reflexivity.
Qed.

(** An array has no property whose name starts with a letter, but [length]. *)
Lemma indexed_no_name (c : ascii) (t : string) (l : list value) :
  Json.is_digit c = false -> obj_lookup (String c t) (indexed l) = None.
Proof.
  intros Hc. unfold indexed. generalize 0%nat.
  induction l as [|x l IH]; intros n; cbn [length seq combine map obj_lookup fst snd];
    [reflexivity|].
  destruct (decimal_head n) as (c' & t' & -> & Hc').
  cbn [String.eqb]. destruct (Ascii.eqb_spec c c') as [->|_]; [congruence|]. apply IH.
Qed.

Lemma array_property_resource (args : list value) :
  array_property "resource" args = VUndefined.
Proof.
  unfold array_property, obj_get. cbn [String.eqb Ascii.eqb Bool.eqb].
  rewrite indexed_no_name by reflexivity. reflexivity.
Qed.

Lemma array_property_init (args : list value) :
  array_property "init" args = VUndefined.
Proof.
  unfold array_property, obj_get. cbn [String.eqb Ascii.eqb Bool.eqb].
  rewrite indexed_no_name by reflexivity. reflexivity.
Qed.

(** Whatever the arguments, the store and the surroundings, [getResponse]
    of src/index.ts reads [resource] and [init] off the arguments array,
    gets [undefined] twice, never sees an only-if-cached directive, and is
    rejected with the [TypeError] of the key derivation. *)
Lemma Ts_getResponse_rejects_every_call {S : Type}
  (cache : Cache S) (env : Env S) (key_flags : props)
  (requestArguments : list value) (w : World S) :
  hasOnlyWithCacheOption (array_property "resource" requestArguments)
                         (array_property "init" requestArguments) = Ok false
  /\ Ts.getResponse cache env key_flags requestArguments w
     = (w, Rejected (TypeError "Cannot read properties of undefined (reading 'entries')")).
Proof.
  unfold Ts.getResponse.
  rewrite array_property_resource, array_property_init. split; reflexivity.
Qed.

(** A request that asks for what the cache holds, and nothing else. *)
Definition only_if_cached_call (url : string) : list value :=
  [ VStr url; VObj [("headers", VObj [("Cache-Control", VStr "only-if-cached")])] ].

(** C4: on an only-if-cached request [getResponse] of src/index.ts is
    rejected with a [TypeError], whatever the store holds; it does not
    resolve to [undefined].  On the same request and a store that misses,
    [getResponse] of commonjs/index.cjs resolves to [undefined] (the
    [None] here) after the one [get], with no transport call. *)
Theorem C4_ts_only_if_cached_is_rejected {S : Type}
  (cache : Cache S) (env : Env S) (key_flags : props) (url : string) (w : World S) :
  Ts.getResponse cache env key_flags (only_if_cached_call url) w
  = (w, Rejected (TypeError "Cannot read properties of undefined (reading 'entries')"))
  /\ exists cacheKey,
       Cjs.getCacheKey key_flags (VStr url)
         (VObj [("headers", VObj [("Cache-Control", VStr "only-if-cached")])]) = Ok cacheKey
       /\ (cache_get cache cacheKey (store w) = Resolved None ->
           Cjs.getResponse cache env key_flags (only_if_cached_call url) w
           = (mkWorld (store w) (locks w) (log w ++ [EvGet cacheKey]), Resolved None)).
Proof.
  split; [apply Ts_getResponse_rejects_every_call|].
  exists (md5 (JSON_stringify
            (VArr [VObj [("url", VStr url); ("body", VUndefined)];
                   VObj [("headers", VObj []); ("body", VUndefined)]; VNum 4]))).
  assert (Cjs.getCacheKey key_flags (VStr url)
            (VObj [("headers", VObj [("Cache-Control", VStr "only-if-cached")])])
          = Ok (md5 (JSON_stringify
                  (VArr [VObj [("url", VStr url); ("body", VUndefined)];
                         VObj [("headers", VObj []); ("body", VUndefined)]; VNum 4]))))
    as Hkey by reflexivity.
  split; [exact Hkey|].
  intros Hmiss. unfold Cjs.getResponse, only_if_cached_call. cbn [argument nth].
  rewrite Hkey.
  unfold getResponse_from, Fetch.get, record. cbn [store locks log].
  rewrite Hmiss. reflexivity.
Qed.

(** ** Failures of the transport and of the store *)

Lemma less_than_mono (v : value) (n n' : Z) :
  n <= n' -> FileSystemCache.less_than v n = true -> FileSystemCache.less_than v n' = true.
Proof.
  intros Hle. unfold FileSystemCache.less_than.
  destruct v as [| |b|e|s| | | | | | | | |]; try discriminate.
  - lia.
  - destruct b; lia.
  - lia.
  - destruct (Json.parse_number s) as [[e [|]]|]; try discriminate. lia.
Qed.

(** [get] looks at the index under the metadata key and at the contents. *)
Lemma FileSystemCache_get_ext (this : FileSystemCache.t) (now : Z) (key : string)
  (c c' : FileSystemCache.cacache) :
  FileSystemCache.index c' !! (key +:+ "meta") = FileSystemCache.index c !! (key +:+ "meta") ->
  FileSystemCache.content c' = FileSystemCache.content c ->
  FileSystemCache.get this now key c' = FileSystemCache.get this now key c.
Proof.
  intros Hi Hc. unfold FileSystemCache.get, FileSystemCache.get_info,
    FileSystemCache.get_byDigest, FileSystemCache.get_stream_byDigest.
  cbn [FileSystemCache.getBodyAndMetaKeys snd]. rewrite Hi, Hc. reflexivity.
Qed.

(** A miss stays a miss when time passes. *)
Lemma FileSystemCache_miss_mono (this : FileSystemCache.t) (now now' : Z) (key : string)
  (c : FileSystemCache.cacache) :
  now <= now' ->
  FileSystemCache.get this now key c = Resolved None ->
  FileSystemCache.get this now' key c = Resolved None.
Proof.
  intros Hle. unfold FileSystemCache.get.
  destruct (FileSystemCache.get_info _ c); [|reflexivity].
  destruct (FileSystemCache.get_byDigest _ c); try discriminate.
  destruct (Json.JSON_parse _); try discriminate.
  destruct (FileSystemCache.meta_props _); try discriminate.
  destruct (truthy _) eqn:Ht; cbn [andb]; [|discriminate].
  destruct (FileSystemCache.less_than _ now) eqn:Hl; [|discriminate].
  rewrite (less_than_mono _ _ _ Hle Hl). reflexivity.
Qed.

Lemma body_key_not_meta_key (key key' : string) : key +:+ "body" <> key' +:+ "meta".
Proof.
  revert key'. induction key as [|a key IH]; intros [|a' key']; cbn [String.append].
  - discriminate.
  - destruct key' as [|? [|? [|? [|? [|]]]]]; cbn [String.append]; try discriminate.
  - destruct key as [|? [|? [|? [|? [|]]]]]; cbn [String.append]; try discriminate.
  - intros [= _ H]. exact (IH _ H).
Qed.

(** A write of a content under a key other than the metadata key, into a
    content-addressed cache, keeps every miss of [get] a miss. *)
Lemma FileSystemCache_body_write_keeps_miss (integrity : string -> string)
  (this : FileSystemCache.t) (now now' : Z) (key data : string)
  (c : FileSystemCache.cacache) :
  (forall x y, integrity x = integrity y -> x = y) ->
  Stores.content_addressed integrity c ->
  now <= now' ->
  FileSystemCache.get this now key c = Resolved None ->
  FileSystemCache.get this now' key
    (FileSystemCache.mkCacache
       (<[ key +:+ "body" := integrity data ]> (FileSystemCache.index c))
       (<[ integrity data := data ]> (FileSystemCache.content c)))
  = Resolved None.
Proof.
  intros Hinj Hca Hle Hmiss.
  apply (FileSystemCache_miss_mono this now now'); [assumption|].
  revert Hmiss. unfold FileSystemCache.get, FileSystemCache.get_info,
    FileSystemCache.get_byDigest.
  cbn [FileSystemCache.getBodyAndMetaKeys snd FileSystemCache.index FileSystemCache.content].
  rewrite lookup_insert_ne by apply body_key_not_meta_key.
  destruct (FileSystemCache.index c !! (key +:+ "meta")) as [d|]; [|reflexivity].
  destruct (FileSystemCache.content c !! d) as [text|] eqn:Hd; [|discriminate].
  assert (<[ integrity data := data ]> (FileSystemCache.content c) !! d = Some text) as ->.
  { destruct (decide (integrity data = d)) as [<-|Hne].
    - rewrite lookup_insert_eq. f_equal. apply Hinj. exact (Hca _ _ Hd).
    - rewrite lookup_insert_ne by assumption. exact Hd. }
  destruct (Json.JSON_parse text); [|discriminate].
  destruct (FileSystemCache.meta_props _); [|discriminate].
  destruct (truthy _ && _); [reflexivity|discriminate].
Qed.

(** What [set] has stored under a key is what a lookup by that key
    finds, whatever the key. *)
Lemma MemoryCache_get_after_set (key : string) (bodyStream : Stream) (metaData : value)
  (this : MemoryCache.t) :
  failure bodyStream = None ->
  let r := {| bodyStream := Readable_from (contents bodyStream);
              metaData := metaData |} in
  snd (MemoryCache.set key bodyStream metaData this) = Resolved (Some r)
  /\ MemoryCache.get key (fst (MemoryCache.set key bodyStream metaData this)) = Ok (Some r).
Proof.
  intros Hfinite r. unfold MemoryCache.set, streamToBuffer. rewrite Hfinite.
  cbn [MemoryCache.ttl fst snd].
  assert (forall w : MemoryCache.t,
            MemoryCache.lookup key w
            = MemoryCache.Entry (MemoryCache.mkEntry (contents bodyStream) metaData) ->
            MemoryCache.get key w = Ok (Some r)) as Hget.
  { intros w Hw. unfold MemoryCache.get. rewrite Hw. reflexivity. }
  assert (forall w : MemoryCache.t,
            MemoryCache.get key w = Ok (Some r) ->
            match MemoryCache.get key w with
            | Ok r => Resolved r
            | Err err => Rejected err
            end = Resolved (Some r)) as Hres.
  { intros w ->. reflexivity. }
  destruct (MemoryCache.ttl this); split; try apply Hres; apply Hget;
    unfold MemoryCache.lookup, MemoryCache.KeyTimeout_updateTimeout;
    cbn [MemoryCache.cache MemoryCache.cache_proto MemoryCache.KeyTimeout_clearTimeout
         MemoryCache.loop setTimeout];
    destruct (String.eqb key "__proto__"); rewrite ?lookup_insert_eq; reflexivity.
Qed.

(** C2, as amended: (1) when the transport call raises, [getResponse] is
    rejected with that error, after one transport call and no [set]; the
    lock is released and the store is as the check under the lock found
    it; (2) when [set] raises, [getResponse] is rejected with that error,
    after one transport call and one [set], and the lock is released;
    (3) a [MemoryCache.set] that raises was given a stream that failed
    with that error and leaves the cache as it was; (4) a failing write of
    the body leaves the files of a [FileSystemCache] as they were; (5) a
    failing write of the metadata is what [set] raises, and a [get] that
    missed before misses afterwards. *)
Theorem C2_failures_propagate_and_cache_nothing {S : Type}
  (cache : Cache S) (env : Env S) (key_flags : props)
  (requestArguments : list value) (w : World S) (cacheKey : string) (e : exn) :
  Cjs.getCacheKey key_flags (argument 0 requestArguments) (argument 1 requestArguments)
  = Ok cacheKey ->
  hasOnlyWithCacheOption (argument 0 requestArguments) (argument 1 requestArguments)
  = Ok false ->
  cache_get cache cacheKey (store w) = Resolved None ->
  cache_get cache cacheKey (while_waiting env (store w)) = Resolved None ->
  (fetch env requestArguments = Rejected e ->
     Cjs.getResponse cache env key_flags requestArguments w
     = (mkWorld (while_waiting env (store w)) (released cacheKey w)
          (log w ++ [EvGet cacheKey; EvLock cacheKey; EvGet cacheKey;
                     EvFetch requestArguments; EvUnlock cacheKey]),
        Rejected e))
  /\ (forall res s',
        fetch env requestArguments = Resolved res ->
        cache_set cache cacheKey (body res) (serializeMetaFromNodeFetchResponse res)
          (while_waiting env (store w)) = (s', Rejected e) ->
        Cjs.getResponse cache env key_flags requestArguments w
        = (mkWorld s' (released cacheKey w)
             (log w ++ [EvGet cacheKey; EvLock cacheKey; EvGet cacheKey;
                        EvFetch requestArguments; EvSet cacheKey; EvUnlock cacheKey]),
           Rejected e))
  /\ (forall bodyStream metaData this this',
        MemoryCache.set cacheKey bodyStream metaData this = (this', Rejected e) ->
        failure bodyStream = Some e /\ this' = this)
  /\ (forall integrity this now now_get f bodyStream metaData c,
        failure bodyStream = None ->
        contents bodyStream <> "" ->
        FileSystemCache.put_stream_fault f = Some e ->
        FileSystemCache.err_code e <> VStr "ENODATA" ->
        FileSystemCache.set integrity this now now_get f cacheKey bodyStream metaData c
        = (c, Rejected e))
  /\ (forall integrity this now now_get f bodyStream metaData c,
        failure bodyStream = None ->
        FileSystemCache.put_stream_fault f = None ->
        FileSystemCache.put_fault f = Some e ->
        exists c',
          FileSystemCache.set integrity this now now_get f cacheKey bodyStream metaData c
          = (c', Rejected e)
          /\ ((forall x y, integrity x = integrity y -> x = y) ->
              Stores.content_addressed integrity c ->
              forall t t', t <= t' ->
                FileSystemCache.get this t cacheKey c = Resolved None ->
                FileSystemCache.get this t' cacheKey c' = Resolved None)).
Proof.
  intros Hkey Honly Hfirst Hsecond.
  assert (forall r : World S * outcome (option NFCResponse),
    locked cache env cacheKey requestArguments
      (mkWorld (store w) (locks w) (log w ++ [EvGet cacheKey])) = r ->
    Cjs.getResponse cache env key_flags requestArguments w = r) as Hlocked.
  { intros r <-. unfold Cjs.getResponse. rewrite Hkey, Honly.
    unfold getResponse_from, Fetch.get, record. rewrite Hfirst. reflexivity. }
  split; [|split; [|split; [|split]]].
  - intros Hfetch. apply Hlocked.
    unfold locked, fetch_and_store, Fetch.get, lock, unlock, record, released.
    cbn [store locks log]. rewrite Hsecond, Hfetch. cbn [store locks log].
    rewrite <- !app_assoc. reflexivity.
  - intros res s' Hfetch Hset. apply Hlocked.
    unfold locked, fetch_and_store, Fetch.get, lock, unlock, record, released.
    cbn [store locks log]. rewrite Hsecond, Hfetch. cbn [store locks log].
    rewrite Hset. cbn [store locks log]. rewrite <- !app_assoc. reflexivity.
  - intros bodyStream metaData this this'.
    destruct (failure bodyStream) as [err|] eqn:Hfailure.
    + unfold MemoryCache.set, streamToBuffer. rewrite Hfailure.
      intros [= <- <-]. split; reflexivity.
    + intros Hset.
      pose proof (proj1 (MemoryCache_get_after_set cacheKey bodyStream metaData this
                           Hfailure)) as Hsnd.
      rewrite Hset in Hsnd. discriminate.
  - intros integrity this now now_get f bodyStream metaData c Hok Hdata Hfault Hcode.
    unfold FileSystemCache.set, FileSystemCache.put_stream, FileSystemCache.put.
    cbn [FileSystemCache.getBodyAndMetaKeys]. rewrite Hok, Hfault.
    destruct (String.eqb_spec (contents bodyStream) ""); [contradiction|].
    destruct e as [name message|code message]; cbn [FileSystemCache.err_code is_string];
      [reflexivity|].
    destruct (String.eqb_spec code "ENODATA") as [->|]; [|reflexivity].
    contradiction Hcode. reflexivity.
  - intros integrity this now now_get f bodyStream metaData c Hok Hfault1 Hfault2.
    unfold FileSystemCache.set, FileSystemCache.put_stream, FileSystemCache.put.
    cbn [FileSystemCache.getBodyAndMetaKeys]. rewrite Hok, Hfault1, Hfault2.
    destruct (String.eqb (contents bodyStream) "").
    + cbn [FileSystemCache.ENODATA FileSystemCache.err_code is_string String.eqb Ascii.eqb
           Bool.eqb].
      eexists. split; [reflexivity|].
      intros _ _ t t' Hle. apply FileSystemCache_miss_mono, Hle.
    + eexists. split; [reflexivity|].
      intros Hinj Hca t t' Hle.
      apply FileSystemCache_body_write_keeps_miss; assumption.
Qed.

Definition network_down : exn := JsError "FetchError" "request to https://example.com/ failed".

Definition offline : Env MemoryCache.t := mkEnv _ (fun s => s) (fun _ => Rejected network_down).

Lemma C2_witness :
  Cjs.getResponse Stores.memoryCache offline DEFAULT_KEY_FLAGS
    [VStr "https://example.com/"] (mkWorld (MemoryCache.new example_node VUndefined 0) ∅ [])
  = (mkWorld (MemoryCache.new example_node VUndefined 0)
       (released example_key (mkWorld (MemoryCache.new example_node VUndefined 0) ∅ []))
       [EvGet example_key; EvLock example_key; EvGet example_key;
        EvFetch [VStr "https://example.com/"]; EvUnlock example_key],
     Rejected network_down).
Proof.
  refine (proj1 (C2_failures_propagate_and_cache_nothing Stores.memoryCache offline
                   DEFAULT_KEY_FLAGS [VStr "https://example.com/"]
                   (mkWorld (MemoryCache.new example_node VUndefined 0) ∅ []) example_key
                   network_down _ _ _ _) _).
  - vm_compute. reflexivity.
  - reflexivity.
  - reflexivity.
  - reflexivity.
  - reflexivity.
Defined.

(** A transport that answers 200 with the body [hello]. *)
Definition hello_response : FetchResponse :=
  mkFetchResponse (VStr "https://example.com/") (VNum 200) (VStr "OK")
    (VObj [("content-type", VArr [VStr "text/plain"])]) (VNum 0) (VNum 0) (VNum 0)
    (mkStream ["hel"; "lo"] None).

Definition disk_error : exn := SystemError "EIO" "i/o error, write".

(** An empty cache directory whose next metadata write fails. *)
Definition failing_disk : Stores.disk :=
  Stores.mkDisk (FileSystemCache.new VUndefined VUndefined)
    FileSystemCache.empty_cacache 0 0
    (FileSystemCache.mkFaults None (Some disk_error)).

(** C2 as stated fails on a [FileSystemCache] whose metadata write
    fails: the error is propagated and the lock released, but the body
    written before stays filed under the body key. *)
Lemma C2_counterexample :
  let result :=
    Cjs.getResponse (Stores.fileSystemCache Stores.ideal_integrity)
      (mkEnv _ (fun d => d) (fun _ => Resolved hello_response)) DEFAULT_KEY_FLAGS
      [VStr "https://example.com/"] (mkWorld failing_disk ∅ []) in
  snd result = Rejected disk_error
  /\ FileSystemCache.get_info (example_key +:+ "body") (Stores.files failing_disk) = None
  /\ FileSystemCache.get_info (example_key +:+ "body")
       (Stores.files (store (fst result))) = Some "sha512-hello"
  /\ FileSystemCache.content (Stores.files (store (fst result))) !! "sha512-hello"
     = Some "hello".
Proof. vm_compute. repeat split. Qed.

(** ** [JSON.parse] reads back what [JSON.stringify] writes *)

Import Json.

(** What may follow a number: nothing, or a character that is no digit and
    starts no fraction or exponent. *)
Definition ends_number (rest : string) : Prop :=
  match rest with
  | EmptyString => True
  | String c _ => is_digit c = false /\ no_fraction rest = true
  end.

Lemma parse_digits_uint (d : Decimal.uint) (acc : positive) (rest : string) :
  ends_number rest ->
  parse_digits (Zpos acc) (NilEmpty.string_of_uint d +:+ rest)
  = (Zpos (Pos.of_uint_acc d acc), rest).
Proof.
  intros Hrest. revert acc.
  induction d as [|d IH|d IH|d IH|d IH|d IH|d IH|d IH|d IH|d IH|d IH]; intros acc;
    cbn [NilEmpty.string_of_uint String.append Pos.of_uint_acc];
    try (cbn [parse_digits]; 
         match goal with |- context [is_digit ?c] =>
           change (is_digit c) with true; cbv iota end;
         match goal with |- parse_digits ?a _ = (Zpos (Pos.of_uint_acc _ ?b), _) =>
           replace a with (Zpos b) by (vm_compute (code _); lia) end;
         apply IH).
  destruct rest as [|c rest]; [reflexivity|].
  destruct Hrest as [Hd _]. cbn [parse_digits]. rewrite Hd. reflexivity.
Qed.

Ltac leading_digit Hof Hr :=
  cbn [NilEmpty.string_of_uint String.append]; unfold parse_nat;
  match goal with |- context [code ?c =? 48] =>
    change (code c =? 48) with false; change (is_digit c) with true end;
  cbv iota; cbn [parse_digits];
  match goal with |- context [is_digit ?c] => change (is_digit c) with true end;
  cbv iota;
  match goal with |- context [parse_digits ?a _] =>
    let a' := eval vm_compute in a in change a with a' end;
  rewrite parse_digits_uint by exact Hr;
  cbn [Pos.of_uint] in Hof; injection Hof as Hof; rewrite Hof; reflexivity.

Lemma parse_nat_pos (p : positive) (rest : string) :
  ends_number rest ->
  parse_nat (NilEmpty.string_of_uint (Pos.to_uint p) +:+ rest) = Some (Zpos p, rest).
Proof.
  intros Hr.
  pose proof (Unsigned.to_of (Pos.to_uint p)) as H.
  pose proof (Unsigned.of_to p) as Hof.
  rewrite Hof in H. cbn [N.to_uint] in H.
  pose proof (Unsigned.to_uint_nonnil p) as Hnn.
  assert (forall l, Pos.to_uint p <> Decimal.D0 l) as H0.
  { intros l Hl. unfold Decimal.unorm in H.
    pose proof (Unsigned.to_uint_nonzero p) as Hnz.
    destruct (Decimal.nzhead (Pos.to_uint p)) eqn:E;
      try (rewrite H in Hl; discriminate Hl); [contradiction|].
    eapply nzhead_nonzero. exact E. }
  destruct (Pos.to_uint p) as [|l|l|l|l|l|l|l|l|l|l];
    [congruence|exfalso; eapply H0; reflexivity|..].
  - leading_digit Hof Hr.
  - leading_digit Hof Hr.
  - leading_digit Hof Hr.
  - leading_digit Hof Hr.
  - leading_digit Hof Hr.
  - leading_digit Hof Hr.
  - leading_digit Hof Hr.
  - leading_digit Hof Hr.
  - leading_digit Hof Hr.
Qed.

Lemma decimal_pos (p : positive) :
  decimal (Zpos p) = NilEmpty.string_of_uint (Pos.to_uint p).
Proof.
  unfold decimal. cbn [Z.to_int NilZero.string_of_int]. unfold NilZero.string_of_uint.
  pose proof (Unsigned.to_uint_nonnil p). destruct (Pos.to_uint p); congruence.
Qed.

Lemma decimal_neg (p : positive) :
  decimal (Zneg p) = String "-" (NilEmpty.string_of_uint (Pos.to_uint p)).
Proof.
  unfold decimal. cbn [Z.to_int NilZero.string_of_int]. unfold NilZero.string_of_uint.
  pose proof (Unsigned.to_uint_nonnil p). destruct (Pos.to_uint p); congruence.
Qed.

Lemma ends_number_no_fraction (rest : string) : ends_number rest -> no_fraction rest = true.
Proof. destruct rest; [reflexivity|]. intros [_ H]. exact H. Qed.

(** The head of a number in decimal is a digit, not the minus sign. *)
Lemma string_of_uint_head (p : positive) (rest : string) :
  exists c t, NilEmpty.string_of_uint (Pos.to_uint p) +:+ rest = String c t
              /\ is_digit c = true.
Proof.
  pose proof (Unsigned.to_uint_nonnil p).
  destruct (Pos.to_uint p); try congruence;
    cbn [NilEmpty.string_of_uint String.append]; do 2 eexists; split; reflexivity.
Qed.

Lemma parse_number_decimal (n : Z) (rest : string) :
  ends_number rest ->
  parse_number (decimal n +:+ rest) = Some (n, rest).
Proof.
  intros Hr. pose proof (ends_number_no_fraction rest Hr) as Hnf.
  destruct n as [|p|p].
  - change (decimal 0) with "0". cbn [String.append]. unfold parse_number, parse_nat.
    change (code "0" =? 45) with false. change (code "0" =? 48) with true.
    cbv iota. cbn. rewrite Hnf. reflexivity.
  - rewrite decimal_pos.
    destruct (string_of_uint_head p rest) as (c & t & E & Hc).
    pose proof (parse_nat_pos p rest Hr) as Hp. rewrite E in *.
    unfold parse_number.
    assert ((code c =? 45) = false) as ->.
    { unfold is_digit in Hc. apply andb_true_iff in Hc as [H1 H2]. lia. }
    rewrite Hp. cbn. rewrite Hnf. reflexivity.
  - rewrite decimal_neg. cbn [String.append]. unfold parse_number.
    change (code "-" =? 45) with true. cbv iota.
    rewrite (parse_nat_pos p rest Hr). cbn. rewrite Hnf. reflexivity.
Qed.

Lemma parse_chars_quote_char (c : ascii) (s : string) :
  parse_chars (quote_char c +:+ s)
  = match parse_chars s with
    | Some (str, rest) => Some (String c str, rest)
    | None => None
    end.
Proof.
  destruct c as [[] [] [] [] [] [] [] []]; vm_compute (quote_char _);
    cbn [String.append parse_chars];
    repeat match goal with
    | |- context [code ?c =? ?n] =>
        let b := eval vm_compute in (code c =? n) in change (code c =? n) with b
    | |- context [code ?c <? ?n] =>
        let b := eval vm_compute in (code c <? n) in change (code c <? n) with b
    end; cbv iota;
    try reflexivity.
Qed.

Lemma parse_chars_quote_body (s rest : string) :
  parse_chars (quote_body s +:+ String (chr 34) rest) = Some (s, rest).
Proof.
  induction s as [|c s IH]; cbn [quote_body String.append].
  - reflexivity.
  - rewrite append_assoc, parse_chars_quote_char, IH. reflexivity.
Qed.

Lemma quote_app (s rest : string) :
  quote s +:+ rest = String (chr 34) (quote_body s +:+ String (chr 34) rest).
Proof. unfold quote. cbn [String.append]. rewrite append_assoc. reflexivity. Qed.

Lemma substring_all (s : string) : String.substring 0 (String.length s) s = s.
Proof. induction s as [|c s IH]; cbn; [reflexivity|]. rewrite IH. reflexivity. Qed.

Lemma json_safe_obj (ps : props) : json_safe (VObj ps) = safe_members [] ps.
Proof. reflexivity. Qed.

(** The fuel the reader needs. *)
Fixpoint need (v : value) : nat :=
  match v with
  | VArr elems =>
      S ((fix go (l : list value) : nat :=
            match l with
            | [] => O
            | x :: l' => S (Nat.max (need x) (go l'))
            end) elems)
  | VObj ps =>
      S ((fix go (l : props) : nat :=
            match l with
            | [] => O
            | (_, x) :: l' => S (Nat.max (need x) (go l'))
            end) ps)
  | _ => 1%nat
  end.

Fixpoint need_elems (l : list value) : nat :=
  match l with
  | [] => O
  | x :: l' => S (Nat.max (need x) (need_elems l'))
  end.

Fixpoint need_members (l : props) : nat :=
  match l with
  | [] => O
  | (_, x) :: l' => S (Nat.max (need x) (need_members l'))
  end.

Lemma need_arr (l : list value) : need (VArr l) = S (need_elems l).
Proof. reflexivity. Qed.

Lemma need_obj (ps : props) : need (VObj ps) = S (need_members ps).
Proof. reflexivity. Qed.

(** What may follow a value: nothing, a comma, or a closing bracket. *)
Definition delimited (rest : string) : Prop :=
  match rest with
  | EmptyString => True
  | String c _ => code c = 44 \/ code c = 93 \/ code c = 125
  end.

Lemma delimited_skip_ws (rest : string) : delimited rest -> skip_ws rest = rest.
Proof.
  destruct rest as [|c rest]; [reflexivity|]. cbn [delimited skip_ws]. unfold is_ws.
  intros [H|[H|H]]; rewrite H; reflexivity.
Qed.

Lemma delimited_ends_number (rest : string) : delimited rest -> ends_number rest.
Proof.
  destruct rest as [|c rest]; [exact id|]. cbn [delimited ends_number no_fraction].
  unfold is_digit. intros [H|[H|H]]; rewrite H; split; reflexivity.
Qed.

Definition stringify_element (x : value) : string :=
  match stringify x with Some s => s | None => "null" end.

Fixpoint stringify_members (ps : props) : list string :=
  match ps with
  | [] => []
  | (k, x) :: ps' =>
      match stringify x with
      | Some s => (quote k +:+ ":" +:+ s) :: stringify_members ps'
      | None => stringify_members ps'
      end
  end.

Lemma stringify_arr (l : list value) :
  stringify (VArr l) = Some ("[" +:+ join "," (map stringify_element l) +:+ "]").
Proof. reflexivity. Qed.

Lemma stringify_obj (ps : props) :
  stringify (VObj ps) = Some ("{" +:+ join "," (stringify_members ps) +:+ "}").
Proof. reflexivity. Qed.

Lemma value_ind' (P : value -> Prop)
  (Hother : forall v, match v with VArr _ | VObj _ => False | _ => True end -> P v)
  (Harr : forall l, Forall P l -> P (VArr l))
  (Hobj : forall ps, Forall (fun kv => P (snd kv)) ps -> P (VObj ps)) :
  forall v, P v.
Proof.
  fix IH 1. intros [| | | | |l|ps| | | | | | |]; try (apply Hother; exact I).
  - apply Harr. induction l as [|x l IHl]; constructor; [apply IH|exact IHl].
  - apply Hobj. induction ps as [|[k x] ps IHps]; constructor; [apply IH|exact IHps].
Qed.

(** The first character of a text of [JSON.stringify] is no white space
    and closes nothing. *)
Definition opens (text : string) : Prop :=
  exists c t, text = String c t /\ is_ws c = false /\ (code c =? 93) = false
              /\ (code c =? 125) = false.

Lemma opens_skip_ws (text rest : string) :
  opens text -> skip_ws (text +:+ rest) = text +:+ rest.
Proof. intros (c & t & -> & H & _). cbn [String.append skip_ws]. rewrite H. reflexivity. Qed.

Lemma decimal_opens (n : Z) :
  exists c t, decimal n = String c t /\ (is_digit c = true \/ c = "-"%char).
Proof.
  destruct n as [|p|p].
  - exists "0"%char, "". split; [reflexivity|left; reflexivity].
  - rewrite decimal_pos. destruct (string_of_uint_head p "") as (c & t & E & Hc).
    exists c, t. split; [|left; exact Hc].
    rewrite <- E. clear. generalize (NilEmpty.string_of_uint (Pos.to_uint p)).
    intros s. induction s as [|a s IH]; cbn [String.append]; congruence.
  - rewrite decimal_neg. do 2 eexists. split; [reflexivity|right; reflexivity].
Qed.

Lemma json_safe_stringify (v : value) :
  json_safe v = true -> stringify v = Some (JSON_stringify v) /\ opens (JSON_stringify v).
Proof.
  destruct v as [| |b|n|s|l|ps| | | | | | |]; try discriminate; intros _;
    (split; [reflexivity|]).
  - do 2 eexists. split; [reflexivity|]. repeat split.
  - destruct b; do 2 eexists; (split; [reflexivity|]); repeat split.
  - unfold JSON_stringify. cbn [stringify].
    destruct (decimal_opens n) as (c & t & -> & [H| ->]).
    + exists c, t. split; [reflexivity|]. unfold is_digit in H. unfold is_ws.
      apply andb_true_iff in H as [H1 H2].
      repeat split; repeat (apply orb_false_iff; split); lia.
    + do 2 eexists. split; [reflexivity|]. repeat split.
  - do 2 eexists. split; [reflexivity|]. repeat split.
  - do 2 eexists. split; [reflexivity|]. repeat split.
  - do 2 eexists. split; [reflexivity|]. repeat split.
Qed.

Definition reads_back (v : value) : Prop :=
  json_safe v = true ->
  forall fuel rest, (need v <= fuel)%nat -> delimited rest ->
    parse_value fuel (JSON_stringify v +:+ rest) = Some (v, rest).

Lemma delimited_comma (s : string) : delimited ("," +:+ s).
Proof. left. reflexivity. Qed.

Lemma delimited_bracket (s : string) : delimited ("]" +:+ s).
Proof. right. left. reflexivity. Qed.

Lemma delimited_brace (s : string) : delimited ("}" +:+ s).
Proof. right. right. reflexivity. Qed.

Lemma stringify_element_safe (x : value) :
  json_safe x = true -> stringify_element x = JSON_stringify x.
Proof.
  intros H. unfold stringify_element.
  rewrite (proj1 (json_safe_stringify x H)). reflexivity.
Qed.

Lemma parse_elements_reads_back (l : list value) :
  Forall reads_back l -> forallb json_safe l = true -> l <> [] ->
  forall fuel rest, (need_elems l <= fuel)%nat ->
    parse_elements fuel (join "," (map stringify_element l) +:+ "]" +:+ rest)
    = Some (l, rest).
Proof.
  induction 1 as [|x l Hx Hl IH]; [congruence|].
  cbn [forallb]. intros [Hsx Hsl]%andb_true_iff _ fuel rest Hfuel.
  cbn [need_elems] in Hfuel. destruct fuel as [|fuel]; [lia|].
  cbn [parse_elements]. destruct l as [|y l].
  - cbn [map join String.concat]. rewrite (stringify_element_safe x Hsx).
    rewrite (Hx Hsx fuel ("]" +:+ rest)) by (try apply delimited_bracket; lia).
    reflexivity.
  - change (join "," (map stringify_element (x :: y :: l)))
      with (stringify_element x +:+ "," +:+ join "," (map stringify_element (y :: l))).
    rewrite !append_assoc. rewrite (stringify_element_safe x Hsx).
    rewrite (Hx Hsx fuel) by (try apply delimited_comma; lia).
    cbn [mbind option_bind fst snd String.append skip_ws].
    change (is_ws ",") with false. cbv iota.
    change (code "," =? 44) with true. cbv iota.
    change (String "]" rest) with ("]" +:+ rest).
    rewrite (IH Hsl) by (try discriminate; cbn [need_elems] in *; lia).
    reflexivity.
Qed.

Lemma obj_set_fresh (k : string) (v : value) (acc : props) :
  obj_lookup k acc = None -> obj_set k v acc = acc ++ [(k, v)].
Proof.
  induction acc as [|[k' x] acc IH]; cbn [obj_lookup obj_set app]; [reflexivity|].
  destruct (String.eqb k k'); [discriminate|]. intros H. rewrite (IH H). reflexivity.
Qed.

Lemma obj_lookup_snoc (k k' : string) (v : value) (acc : props) :
  obj_lookup k acc = None -> String.eqb k k' = false ->
  obj_lookup k (acc ++ [(k', v)]) = None.
Proof.
  induction acc as [|[k'' x] acc IH]; cbn [obj_lookup app].
  - intros _ ->. reflexivity.
  - destruct (String.eqb k k''); [discriminate|]. exact IH.
Qed.

Lemma stringify_members_safe (k : string) (x : value) (ps : props) :
  json_safe x = true ->
  stringify_members ((k, x) :: ps)
  = (quote k +:+ ":" +:+ JSON_stringify x) :: stringify_members ps.
Proof.
  intros H. cbn [stringify_members]. rewrite (proj1 (json_safe_stringify x H)). reflexivity.
Qed.

Lemma join_cons2 (sep a b : string) (l : list string) :
  join sep (a :: b :: l) = a +:+ sep +:+ join sep (b :: l).
Proof. reflexivity. Qed.

Lemma parse_members_reads_back (ps : props) :
  Forall (fun kv => reads_back (snd kv)) ps ->
  forall seen acc, safe_members seen ps = true -> ps <> [] ->
    (forall k, existsb (String.eqb k) seen = false -> obj_lookup k acc = None) ->
    forall fuel rest, (need_members ps <= fuel)%nat ->
      parse_members fuel acc (join "," (stringify_members ps) +:+ "}" +:+ rest)
      = Some (acc ++ ps, rest).
Proof.
  induction 1 as [|[k x] ps Hx Hps IH]; [congruence|].
  intros seen acc Hsafe _ Hacc fuel rest Hfuel.
  cbn [safe_members] in Hsafe.
  apply andb_true_iff in Hsafe as [[Hk Hsx]%andb_true_iff Hsps].
  apply negb_true_iff in Hk. cbn [snd] in Hx.
  cbn [need_members] in Hfuel. destruct fuel as [|fuel]; [lia|].
  rewrite (stringify_members_safe k x ps Hsx).
  assert (obj_set k x acc = acc ++ [(k, x)]) as Hset by (apply obj_set_fresh, Hacc, Hk).
  destruct ps as [|[k' y] ps].
  - cbn [stringify_members join String.concat]. rewrite !append_assoc, quote_app.
    cbn [parse_members skip_ws]. change (is_ws (chr 34)) with false. cbv iota.
    change (code (chr 34) =? 34) with true. cbv iota.
    rewrite ?append_assoc, parse_chars_quote_body.
    cbn [mbind option_bind fst snd String.append skip_ws].
    change (is_ws ":") with false. cbv iota. change (code ":" =? 58) with true. cbv iota.
    change (String "}" rest) with ("}" +:+ rest).
    rewrite (Hx Hsx fuel) by (try apply delimited_brace; lia).
    cbn [mbind option_bind fst snd String.append skip_ws].
    change (is_ws "}") with false. cbv iota.
    change (code "}" =? 44) with false. change (code "}" =? 125) with true. cbv iota.
    rewrite Hset. reflexivity.
  - assert (json_safe y = true) as Hsy.
    { cbn [safe_members] in Hsps. apply andb_true_iff in Hsps as [[_ H]%andb_true_iff _].
      exact H. }
    rewrite (stringify_members_safe k' y ps Hsy), join_cons2.
    rewrite <- (stringify_members_safe k' y ps Hsy).
    { rewrite !append_assoc, quote_app.
      cbn [parse_members skip_ws]. change (is_ws (chr 34)) with false. cbv iota.
      change (code (chr 34) =? 34) with true. cbv iota.
      rewrite ?append_assoc, parse_chars_quote_body.
      cbn [mbind option_bind fst snd String.append skip_ws].
      change (is_ws ":") with false. cbv iota. change (code ":" =? 58) with true. cbv iota.
      change (String "," ?s) with ("," +:+ s).
      rewrite (Hx Hsx fuel) by (try apply delimited_comma; lia).
      cbn [mbind option_bind fst snd String.append skip_ws].
      change (is_ws ",") with false. cbv iota.
      change (code "," =? 44) with true. cbv iota.
      rewrite Hset. change (String "}" rest) with ("}" +:+ rest).
      rewrite (IH (k :: seen) (acc ++ [(k, x)]) Hsps).
      - rewrite <- app_assoc. reflexivity.
      - discriminate.
      - intros k0 Hk0. cbn [existsb] in Hk0. apply orb_false_iff in Hk0 as [Hne Hseen].
        apply obj_lookup_snoc; [apply Hacc, Hseen|exact Hne].
      - cbn [need_members] in *. lia. }
Qed.

Lemma forallb_safe_elems (l : list value) :
  json_safe (VArr l) = true -> forallb json_safe l = true.
Proof. exact id. Qed.

Theorem parse_value_stringify (v : value) : reads_back v.
Proof.
  induction v as [v Hv|l IH|ps IH] using value_ind'; intros Hsafe fuel rest Hfuel Hrest.
  - destruct v as [| |b|n|s| | | | | | | | |]; try discriminate; try contradiction;
      (destruct fuel as [|fuel]; [cbn [need] in Hfuel; lia|]).
    + cbn [parse_value]. change (JSON_stringify VNull) with "null".
      cbn [String.append skip_ws]. change (is_ws "n") with false. cbv iota.
      change (code "n" =? 110) with true. cbv iota. unfold literal.
      cbn [String.prefix String.length].
      repeat match goal with |- context [ascii_dec ?a ?b] =>
        let d := eval vm_compute in (if ascii_dec a b then true else false) in
        destruct (ascii_dec a b); [|congruence] end.
      destruct rest; cbn [String.prefix]; cbn; rewrite ?substring_all; reflexivity.
    + cbn [parse_value]. destruct b.
      * change (JSON_stringify (VBool true)) with "true".
        cbn [String.append skip_ws]. change (is_ws "t") with false. cbv iota.
        change (code "t" =? 110) with false. change (code "t" =? 116) with true.
        cbv iota. unfold literal. cbn [String.prefix String.length].
        repeat match goal with |- context [ascii_dec ?a ?b] =>
          destruct (ascii_dec a b); [|congruence] end.
        destruct rest; cbn [String.prefix]; cbn; rewrite ?substring_all; reflexivity.
      * change (JSON_stringify (VBool false)) with "false".
        cbn [String.append skip_ws]. change (is_ws "f") with false. cbv iota.
        change (code "f" =? 110) with false. change (code "f" =? 116) with false.
        change (code "f" =? 102) with true.
        cbv iota. unfold literal. cbn [String.prefix String.length].
        repeat match goal with |- context [ascii_dec ?a ?b] =>
          destruct (ascii_dec a b); [|congruence] end.
        destruct rest; cbn [String.prefix]; cbn; rewrite ?substring_all; reflexivity.
    + change (JSON_stringify (VNum n)) with (decimal n).
      pose proof (parse_number_decimal n rest (delimited_ends_number rest Hrest)) as Hn.
      destruct (decimal_opens n) as (c & t & E & Hc). rewrite E in *.
      cbn [parse_value String.append skip_ws] in *.
      assert (is_ws c = false /\ (code c =? 110) = false /\ (code c =? 116) = false
              /\ (code c =? 102) = false /\ (code c =? 34) = false
              /\ (code c =? 91) = false /\ (code c =? 123) = false)
        as (-> & -> & -> & -> & -> & -> & ->).
      { destruct Hc as [Hc| ->]; [|repeat split].
        unfold is_digit in Hc. apply andb_true_iff in Hc as [H1 H2]. unfold is_ws.
        repeat split; repeat (apply orb_false_iff; split); lia. }
      rewrite Hn. reflexivity.
    + change (JSON_stringify (VStr s)) with (quote s). rewrite quote_app.
      cbn [parse_value skip_ws]. change (is_ws (chr 34)) with false. cbv iota.
      change (code (chr 34) =? 110) with false. change (code (chr 34) =? 116) with false.
      change (code (chr 34) =? 102) with false. change (code (chr 34) =? 34) with true.
      cbv iota. rewrite parse_chars_quote_body. reflexivity.
  - rewrite need_arr in Hfuel. destruct fuel as [|fuel]; [lia|].
    assert (Forall reads_back l) as Hl by exact IH.
    unfold JSON_stringify. rewrite stringify_arr.
    cbn [parse_value String.append skip_ws]. change (is_ws "[") with false. cbv iota.
    change (code "[" =? 110) with false. change (code "[" =? 116) with false.
    change (code "[" =? 102) with false. change (code "[" =? 34) with false.
    change (code "[" =? 91) with true. cbv iota.
    destruct l as [|x l].
    + cbn [map join String.concat String.append skip_ws].
      change (is_ws "]") with false. cbv iota. reflexivity.
    + rewrite append_assoc.
      assert (opens (join "," (map stringify_element (x :: l)))) as Hopen.
      { assert (json_safe x = true) as Hsx
          by (apply forallb_safe_elems in Hsafe; cbn [forallb] in Hsafe;
              apply andb_true_iff in Hsafe as [H _]; exact H).
        destruct (proj2 (json_safe_stringify x Hsx)) as (c & t & E & H).
        cbn [map]. rewrite (stringify_element_safe x Hsx), E.
        destruct l; cbn [map join String.concat String.append]; do 2 eexists;
          (split; [reflexivity|exact H]). }
      rewrite (opens_skip_ws _ _ Hopen).
      destruct Hopen as (c & t & E & Hws & H93 & H125).
      pose proof (parse_elements_reads_back (x :: l) Hl (forallb_safe_elems _ Hsafe)
                    ltac:(discriminate) fuel rest ltac:(lia)) as Hp.
      change (String "]" rest) with ("]" +:+ rest).
      rewrite E in *. cbn [String.append] in *. rewrite H93, Hp. reflexivity.
  - rewrite need_obj in Hfuel. destruct fuel as [|fuel]; [lia|].
    unfold JSON_stringify. rewrite stringify_obj. rewrite json_safe_obj in Hsafe.
    cbn [parse_value String.append skip_ws]. change (is_ws "{") with false. cbv iota.
    change (code "{" =? 110) with false. change (code "{" =? 116) with false.
    change (code "{" =? 102) with false. change (code "{" =? 34) with false.
    change (code "{" =? 91) with false. change (code "{" =? 123) with true. cbv iota.
    destruct ps as [|[k x] ps].
    + cbn [stringify_members join String.concat String.append skip_ws].
      change (is_ws "}") with false. cbv iota. reflexivity.
    + rewrite append_assoc.
      pose proof (parse_members_reads_back ((k, x) :: ps) IH [] [] Hsafe
                    ltac:(discriminate) ltac:(reflexivity) fuel rest ltac:(lia)) as Hp.
      assert (json_safe x = true) as Hsx.
      { cbn [safe_members] in Hsafe. apply andb_true_iff in Hsafe as [[_ H]%andb_true_iff _].
        exact H. }
      rewrite (stringify_members_safe k x ps Hsx) in *.
      assert (exists t, join "," ((quote k +:+ ":" +:+ JSON_stringify x)
                                    :: stringify_members ps) = String (chr 34) t)
        as [t E].
      { unfold quote. destruct (stringify_members ps);
          cbn [join String.concat String.append]; eexists; reflexivity. }
      change (String "}" rest) with ("}" +:+ rest).
      rewrite E in *. cbn [String.append skip_ws] in *.
      change (is_ws (chr 34)) with false. cbv iota.
      change (code (chr 34) =? 125) with false. cbv iota.
      rewrite Hp. reflexivity.
Qed.

Lemma length_append (a b : string) :
  String.length (a +:+ b) = (String.length a + String.length b)%nat.
Proof. induction a as [|c a IH]; cbn [String.append String.length]; [reflexivity|]. rewrite IH. reflexivity. Qed.

Definition bounded (v : value) : Prop :=
  json_safe v = true -> (need v <= String.length (JSON_stringify v) + 1)%nat.

Lemma need_elems_bound (l : list value) :
  Forall bounded l -> forallb json_safe l = true ->
  (need_elems l <= String.length (join "," (map stringify_element l)) + 2)%nat.
Proof.
  induction 1 as [|x l Hx Hl IH]; [cbn; lia|].
  cbn [forallb]. intros [Hsx Hsl]%andb_true_iff.
  specialize (Hx Hsx). specialize (IH Hsl). cbn [need_elems map].
  rewrite (stringify_element_safe x Hsx).
  destruct l as [|y l].
  - cbn [map join String.concat need_elems]. lia.
  - cbn [map] in *. rewrite join_cons2, !length_append.
    change (String.length ",") with 1%nat. lia.
Qed.

Lemma need_members_bound (ps : props) :
  Forall (fun kv => bounded (snd kv)) ps ->
  forall seen, safe_members seen ps = true ->
  (need_members ps <= String.length (join "," (stringify_members ps)) + 2)%nat.
Proof.
  induction 1 as [|[k x] ps Hx Hps IH]; [cbn; lia|].
  intros seen Hsafe. cbn [safe_members] in Hsafe.
  apply andb_true_iff in Hsafe as [[_ Hsx]%andb_true_iff Hsps].
  cbn [snd] in Hx. specialize (Hx Hsx). specialize (IH _ Hsps). cbn [need_members].
  rewrite (stringify_members_safe k x ps Hsx).
  destruct ps as [|[k' y] ps].
  - cbn [stringify_members join String.concat need_members]. rewrite !length_append. lia.
  - assert (json_safe y = true) as Hsy.
    { cbn [safe_members] in Hsps. apply andb_true_iff in Hsps as [[_ H]%andb_true_iff _].
      exact H. }
    rewrite (stringify_members_safe k' y ps Hsy) in *. rewrite join_cons2, !length_append.
    change (String.length ",") with 1%nat. lia.
Qed.

Lemma need_bound (v : value) : bounded v.
Proof.
  induction v as [v Hv|l IH|ps IH] using value_ind'; intros Hsafe.
  - destruct v; try contradiction; cbn [need]; lia.
  - rewrite need_arr. unfold JSON_stringify. rewrite stringify_arr, !length_append.
    pose proof (need_elems_bound l IH (forallb_safe_elems l Hsafe)).
    change (String.length "[") with 1%nat. change (String.length "]") with 1%nat. lia.
  - rewrite need_obj. unfold JSON_stringify. rewrite stringify_obj, !length_append.
    rewrite json_safe_obj in Hsafe.
    pose proof (need_members_bound ps IH [] Hsafe).
    change (String.length "{") with 1%nat. change (String.length "}") with 1%nat. lia.
Qed.

(** [JSON.parse(JSON.stringify(v))] is [v] again, for the values of
    [json_safe]. *)
Theorem JSON_parse_stringify (v : value) :
  json_safe v = true -> JSON_parse (JSON_stringify v) = Some v.
Proof.
  intros Hsafe. unfold JSON_parse.
  pose proof (need_bound v Hsafe) as Hb.
  pose proof (parse_value_stringify v Hsafe
                (2 * String.length (JSON_stringify v) + 2)%nat "" ltac:(lia) I) as Hp.
  assert (forall s, s +:+ "" = s) as Hnil.
  { intros s. induction s as [|c s IH]; cbn [String.append]; congruence. }
  rewrite Hnil in Hp. rewrite Hp. reflexivity.
Qed.

(** ** What [FileSystemCache.set] files and what [get] makes of it *)

Lemma safe_members_set (k : string) (v : value) (ps : props) (seen : list string) :
  safe_members seen ps = true -> json_safe v = true ->
  existsb (String.eqb k) seen = false ->
  safe_members seen (obj_set k v ps) = true.
Proof.
  revert seen. induction ps as [|[k' x] ps IH]; intros seen Hps Hv Hk; cbn [obj_set].
  - cbn [safe_members]. rewrite Hk, Hv. reflexivity.
  - cbn [safe_members] in Hps.
    apply andb_true_iff in Hps as [[Hk' Hx]%andb_true_iff Hrest].
    destruct (String.eqb_spec k k') as [<-|Hne]; cbn [safe_members].
    + rewrite Hk, Hv, Hrest. reflexivity.
    + rewrite Hk', Hx. cbn [andb]. apply IH; [assumption..|].
      cbn [existsb]. rewrite Hk. destruct (String.eqb_spec k k'); [contradiction|reflexivity].
Qed.

Lemma json_safe_set (k : string) (v : value) (ps : props) :
  json_safe (VObj ps) = true -> json_safe v = true -> json_safe (VObj (obj_set k v ps)) = true.
Proof.
  rewrite !json_safe_obj. intros Hps Hv. apply safe_members_set; [assumption..|reflexivity].
Qed.

Lemma obj_delete_set_eq (k : string) (v : value) (ps : props) :
  obj_delete k (obj_set k v ps) = obj_delete k ps.
Proof.
  induction ps as [|[k' x] ps IH]; cbn [obj_set obj_delete].
  - rewrite String.eqb_refl. reflexivity.
  - destruct (String.eqb k k') eqn:E; cbn [obj_delete]; rewrite ?String.eqb_refl, ?E;
      [reflexivity|]. rewrite IH. reflexivity.
Qed.

Lemma obj_delete_set_ne (k k' : string) (v : value) (ps : props) :
  k <> k' -> obj_delete k (obj_set k' v ps) = obj_set k' v (obj_delete k ps).
Proof.
  intros Hne. induction ps as [|[k'' x] ps IH]; cbn [obj_set obj_delete].
  - destruct (String.eqb_spec k k'); [contradiction|reflexivity].
  - destruct (String.eqb_spec k' k'') as [<-|Hne']; cbn [obj_delete].
    + destruct (String.eqb_spec k k'); [contradiction|]. cbn [obj_set].
      rewrite String.eqb_refl. reflexivity.
    + destruct (String.eqb_spec k k'') as [<-|Hne'']; cbn [obj_set].
      * exact IH.
      * destruct (String.eqb_spec k' k''); [contradiction|]. rewrite IH. reflexivity.
Qed.

Lemma obj_delete_absent (k : string) (ps : props) :
  obj_lookup k ps = None -> obj_delete k ps = ps.
Proof.
  induction ps as [|[k' x] ps IH]; cbn [obj_lookup obj_delete]; [reflexivity|].
  destruct (String.eqb k k'); [discriminate|]. intros H. rewrite (IH H). reflexivity.
Qed.

(** The metadata document [set] files: the copy of the metadata with the
    expiration, then the digest of the body or the empty flag. *)
Definition stored_document (integrity : string -> string) (this : FileSystemCache.t)
  (now : Z) (bodyStream : Stream) (metaData : value) : props :=
  let metaCopy := FileSystemCache.metaCopy_of this now metaData in
  if String.eqb (contents bodyStream) ""
  then obj_set "empty" (VBool true) metaCopy
  else obj_set "bodyStreamIntegrity" (VStr (integrity (contents bodyStream))) metaCopy.

(** The files after a [set] with no fault. *)
Definition stored_files (integrity : string -> string) (this : FileSystemCache.t)
  (now : Z) (key : string) (bodyStream : Stream) (metaData : value)
  (c : FileSystemCache.cacache) : FileSystemCache.cacache :=
  let data := contents bodyStream in
  let text := JSON_stringify (VObj (stored_document integrity this now bodyStream metaData)) in
  let c1 :=
    if String.eqb data "" then c
    else FileSystemCache.mkCacache
           (<[ key +:+ "body" := integrity data ]> (FileSystemCache.index c))
           (<[ integrity data := data ]> (FileSystemCache.content c)) in
  FileSystemCache.mkCacache
    (<[ key +:+ "meta" := integrity text ]> (FileSystemCache.index c1))
    (<[ integrity text := text ]> (FileSystemCache.content c1)).

Lemma FileSystemCache_set_stores (integrity : string -> string)
  (this : FileSystemCache.t) (now now_get : Z) (key : string)
  (bodyStream : Stream) (metaData : value) (c : FileSystemCache.cacache) :
  failure bodyStream = None ->
  FileSystemCache.set integrity this now now_get FileSystemCache.no_faults key
    bodyStream metaData c
  = (stored_files integrity this now key bodyStream metaData c,
     FileSystemCache.get this now_get key
       (stored_files integrity this now key bodyStream metaData c)).
Proof.
  intros Hok.
  unfold FileSystemCache.set, FileSystemCache.put_stream, FileSystemCache.put,
    stored_files, stored_document.
  cbn [FileSystemCache.getBodyAndMetaKeys FileSystemCache.no_faults
       FileSystemCache.put_stream_fault FileSystemCache.put_fault].
  rewrite Hok. destruct (String.eqb (contents bodyStream) ""); reflexivity.
Qed.

Lemma delete_internal_set (k : string) (v : value) (ps : props) :
  k = "expiration" \/ k = "empty" \/ k = "bodyStreamIntegrity" ->
  FileSystemCache.delete_internal (VObj (obj_set k v ps))
  = FileSystemCache.delete_internal (VObj ps).
Proof.
  unfold FileSystemCache.delete_internal. intros [->|[->| ->]]; f_equal.
  - rewrite !(obj_delete_set_ne _ "expiration") by discriminate.
    rewrite obj_delete_set_eq. reflexivity.
  - rewrite (obj_delete_set_ne _ "empty") by discriminate.
    rewrite obj_delete_set_eq. reflexivity.
  - rewrite obj_delete_set_eq. reflexivity.
Qed.

Lemma delete_internal_stored (integrity : string -> string) (this : FileSystemCache.t)
  (now : Z) (bodyStream : Stream) (metaData : value) :
  FileSystemCache.delete_internal
    (VObj (stored_document integrity this now bodyStream metaData))
  = FileSystemCache.delete_internal (VObj (own_enumerable metaData)).
Proof.
  unfold stored_document, FileSystemCache.metaCopy_of.
  destruct (String.eqb (contents bodyStream) ""); rewrite delete_internal_set by auto;
    destruct (FileSystemCache.ttl this); try reflexivity;
    apply delete_internal_set; auto.
Qed.

Lemma stored_document_safe (integrity : string -> string) (this : FileSystemCache.t)
  (now : Z) (bodyStream : Stream) (metaData : value) :
  json_safe (VObj (own_enumerable metaData)) = true ->
  json_safe (VObj (stored_document integrity this now bodyStream metaData)) = true.
Proof.
  intros Hsafe. unfold stored_document, FileSystemCache.metaCopy_of.
  assert (json_safe (VObj match FileSystemCache.ttl this with
                          | VNum ms => obj_set "expiration" (VNum (now + ms))
                                         (own_enumerable metaData)
                          | _ => own_enumerable metaData
                          end) = true) as Hcopy.
  { destruct (FileSystemCache.ttl this); try exact Hsafe.
    apply json_safe_set; [exact Hsafe|reflexivity]. }
  destruct (String.eqb (contents bodyStream) ""); apply json_safe_set;
    solve [exact Hcopy|reflexivity].
Qed.

(** What [get] answers at time [t] on the files a [set] left. *)
Lemma FileSystemCache_get_stored (integrity : string -> string)
  (this this' : FileSystemCache.t) (now t : Z) (key : string)
  (bodyStream : Stream) (metaData : value) (c : FileSystemCache.cacache) :
  (forall x y, integrity x = integrity y -> x = y) ->
  json_safe (VObj (own_enumerable metaData)) = true ->
  obj_lookup "empty" (own_enumerable metaData) = None ->
  let expiration :=
    obj_get "expiration" (stored_document integrity this now bodyStream metaData) in
  FileSystemCache.get this' t key
    (stored_files integrity this now key bodyStream metaData c)
  = if truthy expiration && FileSystemCache.less_than expiration t
    then Resolved None
    else Resolved (Some {| bodyStream := Readable_from (contents bodyStream);
                           metaData := FileSystemCache.delete_internal
                                         (VObj (own_enumerable metaData)) |}).
Proof.
  intros Hinj Hsafe Hempty expiration. subst expiration.
  pose proof (stored_document_safe integrity this now bodyStream metaData Hsafe) as Hdoc.
  pose proof (JSON_parse_stringify _ Hdoc) as Hparse.
  pose proof (delete_internal_stored integrity this now bodyStream metaData) as Hdel.
  unfold FileSystemCache.get, FileSystemCache.get_info, FileSystemCache.get_byDigest,
    stored_files.
  cbn [FileSystemCache.getBodyAndMetaKeys snd FileSystemCache.index FileSystemCache.content].
  rewrite !lookup_insert_eq, Hparse. cbn [FileSystemCache.meta_props].
  rewrite Hdel.
  destruct (truthy _ && FileSystemCache.less_than _ t); [reflexivity|].
  do 3 f_equal.
  unfold stored_document in *.
  assert (obj_get "empty" (FileSystemCache.metaCopy_of this now metaData) = VUndefined)
    as Hnoempty.
  { unfold FileSystemCache.metaCopy_of.
    destruct (FileSystemCache.ttl this); try (unfold obj_get; rewrite Hempty; reflexivity).
    rewrite obj_get_set_ne by discriminate. unfold obj_get. rewrite Hempty. reflexivity. }
  destruct (String.eqb (contents bodyStream) "") eqn:Hdata.
  - rewrite obj_get_set_eq. cbn [truthy]. apply String.eqb_eq in Hdata. rewrite Hdata.
    reflexivity.
  - rewrite obj_get_set_ne by discriminate. rewrite Hnoempty. cbn [truthy].
    rewrite obj_get_set_eq. unfold FileSystemCache.get_stream_byDigest.
    cbn [FileSystemCache.content].
    match goal with |- context [<[ ?i := ?text ]> (<[ ?j := ?data ]> ?m) !! ?j] =>
      assert (<[ i := text ]> (<[ j := data ]> m) !! j = Some data) as ->
    end; [|reflexivity].
    match goal with |- <[ ?i := ?text ]> _ !! _ = _ =>
      destruct (decide (i = integrity (contents bodyStream))) as [E|E]
    end.
    + rewrite E, lookup_insert_eq. f_equal. apply Hinj. exact E.
    + rewrite lookup_insert_ne by exact E. apply lookup_insert_eq.
Qed.

(** ** Round trip through a store *)

(** The entry a [FileSystemCache.set] at [now] files is not yet expired
    at [t']: with a numeric [ttl] the time limit it stamps is not behind
    [t'], and without one the metadata brings no [expiration] of its
    own. *)
Definition unexpired (this : FileSystemCache.t) (now : Z) (metaData : value) (t' : Z)
  : Prop :=
  match FileSystemCache.ttl this with
  | VNum ms => t' <= now + ms
  | _ => obj_lookup "expiration" (own_enumerable metaData) = None
  end.

Lemma unexpired_passes (integrity : string -> string) (this : FileSystemCache.t)
  (now t' : Z) (bodyStream : Stream) (metaData : value) :
  unexpired this now metaData t' ->
  let expiration :=
    obj_get "expiration" (stored_document integrity this now bodyStream metaData) in
  truthy expiration && FileSystemCache.less_than expiration t' = false.
Proof.
  unfold unexpired, stored_document, FileSystemCache.metaCopy_of. intros H. cbv zeta.
  assert (forall k v ps, k = "empty" \/ k = "bodyStreamIntegrity" ->
            obj_get "expiration" (obj_set k v ps) = obj_get "expiration" ps) as Hskip.
  { intros k v ps [->| ->]; apply obj_get_set_ne; discriminate. }
  destruct (String.eqb (contents bodyStream) ""); rewrite Hskip by auto;
    destruct (FileSystemCache.ttl this);
    try (unfold obj_get; rewrite H; reflexivity);
    rewrite obj_get_set_eq; cbn [FileSystemCache.less_than];
    apply andb_false_iff; right; apply Z.ltb_ge; exact H.
Qed.

(** C3 (amended).  A finite body stream and its metadata come back from
    either store.  [MemoryCache.set] resolves to the body's bytes and the
    very metadata it was given, and a [get] of the key afterwards gives
    the same.  [FileSystemCache.set], when its two writes succeed, the
    digest tells contents apart, the metadata is an object of JSON values
    which has no [empty] field of its own, and the entry has not expired
    when [set] reads it back, resolves to the body's bytes and the
    metadata without [expiration], [empty] and [bodyStreamIntegrity]; a
    later [get] before expiry gives the same. *)
Theorem C3_set_then_get_round_trip (integrity : string -> string) (key : string)
  (body : Stream) (meta : value) :
  (forall x y, integrity x = integrity y -> x = y) ->
  failure body = None ->
  (forall this : MemoryCache.t,
     let r := {| bodyStream := Readable_from (contents body); metaData := meta |} in
     snd (MemoryCache.set key body meta this) = Resolved (Some r)
     /\ MemoryCache.get key (fst (MemoryCache.set key body meta this)) = Ok (Some r)
     /\ contents (bodyStream r) = contents body)
  /\ (forall (this : FileSystemCache.t) (now now_get now' : Z)
        (c : FileSystemCache.cacache),
        json_safe (VObj (own_enumerable meta)) = true ->
        obj_lookup "empty" (own_enumerable meta) = None ->
        unexpired this now meta now_get ->
        unexpired this now meta now' ->
        let r := {| bodyStream := Readable_from (contents body);
                    metaData := FileSystemCache.delete_internal
                                  (VObj (own_enumerable meta)) |} in
        let after :=
          FileSystemCache.set integrity this now now_get FileSystemCache.no_faults
            key body meta c in
        snd after = Resolved (Some r)
        /\ FileSystemCache.get this now' key (fst after) = Resolved (Some r)
        /\ contents (bodyStream r) = contents body).
Proof.
  intros Hinj Hfinite. split.
  - intros this r.
    destruct (MemoryCache_get_after_set key body meta this Hfinite) as [Hset Hget].
    split; [exact Hset|]. split; [exact Hget|].
    reflexivity.
  - intros this now now_get now' c Hsafe Hempty Hset Hget r after.
    subst after. rewrite FileSystemCache_set_stores by exact Hfinite.
    cbn [fst snd].
    rewrite !(FileSystemCache_get_stored integrity this this) by assumption.
    rewrite !unexpired_passes by assumption.
    split; [reflexivity|]. split; [reflexivity|].
    reflexivity.
Qed.

Lemma ideal_integrity_inj (x y : string) :
  Stores.ideal_integrity x = Stores.ideal_integrity y -> x = y.
Proof. unfold Stores.ideal_integrity. cbn. intros H. injection H. auto. Qed.

Lemma C3_witness :
  let body := {| chunks := ["hel"; "lo"]; failure := None |} in
  let this := FileSystemCache.new (VNum 1000) VUndefined in
  let after :=
    FileSystemCache.set Stores.ideal_integrity this 0 5 FileSystemCache.no_faults
      example_key body example_meta FileSystemCache.empty_cacache in
  (MemoryCache.get example_key
     (fst (MemoryCache.set example_key body example_meta
             (MemoryCache.new example_node VUndefined 0)))
   = Ok (Some {| bodyStream := Readable_from "hello"; metaData := example_meta |}))
  /\ snd after
     = Resolved (Some {| bodyStream := Readable_from "hello"; metaData := example_meta |})
  /\ FileSystemCache.get this 1000 example_key (fst after)
     = Resolved (Some {| bodyStream := Readable_from "hello"; metaData := example_meta |}).
Proof.
  intros body this after.
  destruct (C3_set_then_get_round_trip Stores.ideal_integrity example_key body
              example_meta ideal_integrity_inj eq_refl) as [Hmemory Hfiles].
  split.
  - exact (proj1 (proj2 (Hmemory (MemoryCache.new example_node VUndefined 0)))).
  - assert (json_safe (VObj (own_enumerable example_meta)) = true) as Hsafe
      by (vm_compute; reflexivity).
    assert (obj_lookup "empty" (own_enumerable example_meta) = None) as Hempty
      by reflexivity.
    assert (unexpired this 0 example_meta 5) as Hset by (cbn; lia).
    assert (unexpired this 0 example_meta 1000) as Hget by (cbn; lia).
    destruct (Hfiles this 0 5 1000 FileSystemCache.empty_cacache Hsafe Hempty Hset Hget)
      as (Hr & Hlater & _).
    split; [exact Hr | exact Hlater].
Defined.

(** Metadata with an [empty] field of its own: the body is filed, and
    read back as no bytes at all. *)
Lemma C3_counterexample :
  let body := Readable_from "hello" in
  let meta := VObj [("empty", VBool true)] in
  let this := FileSystemCache.new VUndefined VUndefined in
  let after :=
    FileSystemCache.set Stores.ideal_integrity this 0 0 FileSystemCache.no_faults
      example_key body meta FileSystemCache.empty_cacache in
  let r := {| bodyStream := Readable_from ""; metaData := VObj [] |} in
  failure body = None
  /\ snd after = Resolved (Some r)
  /\ FileSystemCache.get this 0 example_key (fst after) = Resolved (Some r)
  /\ contents (bodyStream r) <> contents body
  /\ FileSystemCache.get_info (example_key +:+ "body") (fst after) = Some "sha512-hello".
Proof. vm_compute. repeat split. discriminate. Qed.

(** ** Expiry *)

(** The prototypes of [cache] and [timeoutHandleForKey] are as they were
    made, and every pending timer is the one [KeyTimeout] has on record
    for the key of its callback, a key other than [__proto__]; its handle
    has been handed out. *)
Definition registered (this : MemoryCache.t) : bool :=
  MemoryCache.plain this
  && forallb
       (fun x =>
          negb (String.eqb (callback x) "__proto__")
          && bool_decide (MemoryCache.timeoutHandleForKey (MemoryCache.keyTimeout this)
                            !! callback x = Some (handle x))
          && (handle x <? next_handle (MemoryCache.loop this))%nat)
       (pending (MemoryCache.loop this)).

Lemma registered_spec (this : MemoryCache.t) :
  registered this = true <->
  MemoryCache.plain this = true
  /\ forall x, x ∈ pending (MemoryCache.loop this) ->
       callback x <> "__proto__"
       /\ MemoryCache.timeoutHandleForKey (MemoryCache.keyTimeout this) !! callback x
          = Some (handle x)
       /\ (handle x < next_handle (MemoryCache.loop this))%nat.
Proof.
  unfold registered. rewrite andb_true_iff, forallb_forall.
  split; intros [Hplain H]; (split; [exact Hplain|]); intros x Hx.
  - apply list_elem_of_In, H in Hx. apply andb_true_iff in Hx as [Hx Hh].
    apply andb_true_iff in Hx as [Hp Hk].
    apply negb_true_iff, String.eqb_neq in Hp.
    apply bool_decide_eq_true in Hk. apply Nat.ltb_lt in Hh. auto.
  - apply list_elem_of_In, H in Hx as (Hp & Hk & Hh). rewrite !andb_true_iff.
    repeat split.
    + apply negb_true_iff, String.eqb_neq. exact Hp.
    + apply bool_decide_eq_true. exact Hk.
    + apply Nat.ltb_lt. exact Hh.
Qed.

Lemma registered_plain (this : MemoryCache.t) :
  registered this = true -> MemoryCache.plain this = true.
Proof. intros H. apply registered_spec in H as [H _]. exact H. Qed.

(** While [timeoutHandleForKey] has its first prototype, a key has the
    handle filed under it and no other. *)
Lemma handle_of_plain (key : string) (this : MemoryCache.t) :
  MemoryCache.plain this = true ->
  MemoryCache.handle_of key this
  = if String.eqb key "__proto__" then None
    else MemoryCache.timeoutHandleForKey (MemoryCache.keyTimeout this) !! key.
Proof.
  unfold MemoryCache.plain, MemoryCache.handle_of. intros H.
  destruct (MemoryCache.cache_proto this); [discriminate|].
  destruct (MemoryCache.timeoutHandleForKey_proto _); [discriminate|].
  destruct (String.eqb key "__proto__"); [reflexivity|].
  destruct (_ !! key); reflexivity.
Qed.

(** While [cache] has its first prototype, an ordinary key finds the
    entry filed under it, or nothing. *)
Lemma get_plain (key : string) (this : MemoryCache.t) :
  MemoryCache.plain this = true ->
  MemoryCache.ordinary key = true ->
  MemoryCache.get key this
  = match MemoryCache.cache this !! key with
    | Some cachedValue =>
        Ok (Some {| bodyStream := Readable_from (MemoryCache.bodyBuffer cachedValue);
                    metaData := MemoryCache.entry_metaData cachedValue |})
    | None => Ok None
    end.
Proof.
  unfold MemoryCache.plain, MemoryCache.ordinary, MemoryCache.get, MemoryCache.lookup,
    MemoryCache.Object_prototype_member.
  intros Hplain Hkey. apply andb_true_iff in Hkey as [Hproto Hinherited].
  apply negb_true_iff in Hproto, Hinherited. rewrite Hproto.
  destruct (MemoryCache.cache_proto this); [discriminate|].
  destruct (MemoryCache.cache this !! key); [reflexivity|].
  rewrite Hinherited. reflexivity.
Qed.

Lemma ordinary_not_proto (key : string) :
  MemoryCache.ordinary key = true -> key <> "__proto__".
Proof.
  unfold MemoryCache.ordinary. intros H. apply andb_true_iff in H as [H _].
  apply negb_true_iff, String.eqb_neq in H. exact H.
Qed.

Lemma next_due_Some (limit : Z) (l : list timer) (x : timer) :
  next_due limit l = Some x -> x ∈ l /\ due x <= limit.
Proof.
  revert x. induction l as [|y l IH]; intros x; cbn [next_due]; [discriminate|].
  destruct (next_due limit l) as [z|].
  - destruct (due y <=? limit) eqn:Hy; cbn [andb].
    + destruct (due y <=? due z); intros [= <-].
      * split; [left|lia].
      * destruct (IH z eq_refl). split; [right; assumption|assumption].
    + intros [= <-]. destruct (IH z eq_refl). split; [right; assumption|assumption].
  - destruct (due y <=? limit) eqn:Hy; [|discriminate].
    intros [= <-]. split; [left|lia].
Qed.

Lemma next_due_None (limit : Z) (l : list timer) :
  next_due limit l = None -> forall x, x ∈ l -> limit < due x.
Proof.
  induction l as [|y l IH]; cbn [next_due]; intros H x Hx.
  - inversion Hx.
  - destruct (next_due limit l) as [z|].
    + destruct ((due y <=? limit) && (due y <=? due z)); discriminate.
    + destruct (due y <=? limit) eqn:Hy; [discriminate|].
      apply elem_of_cons in Hx as [->|Hx]; [lia|]. apply IH; auto.
Qed.

Lemma clearTimeout_elem (h : option nat) (t : timers) (y : timer) :
  y ∈ pending (clearTimeout h t) <-> y ∈ pending t /\ h <> Some (handle y).
Proof.
  destruct h as [n|]; cbn [clearTimeout pending].
  - rewrite list_elem_of_filter. split; intros [H1 H2]; split; auto; congruence.
  - split; [intros H; split; [exact H|discriminate]|intros [H _]; exact H].
Qed.

Lemma clearTimeout_now (h : option nat) (t : timers) :
  now (clearTimeout h t) = now t /\ next_handle (clearTimeout h t) = next_handle t.
Proof. destruct h; split; reflexivity. Qed.

(** What a timer that fires leaves as it was. *)
Lemma fire_state (x : timer) (this : MemoryCache.t) :
  MemoryCache.cache (MemoryCache.fire x this)
  = (if String.eqb (callback x) "__proto__" then MemoryCache.cache this
     else delete (callback x) (MemoryCache.cache this))
  /\ MemoryCache.keyTimeout (MemoryCache.fire x this) = MemoryCache.keyTimeout this
  /\ MemoryCache.ttl (MemoryCache.fire x this) = MemoryCache.ttl this
  /\ now (MemoryCache.loop (MemoryCache.fire x this)) = now (MemoryCache.loop this)
  /\ next_handle (MemoryCache.loop (MemoryCache.fire x this))
     = next_handle (MemoryCache.loop this)
  /\ MemoryCache.cache_proto (MemoryCache.fire x this) = MemoryCache.cache_proto this
  /\ MemoryCache.node (MemoryCache.fire x this) = MemoryCache.node this.
Proof.
  unfold MemoryCache.fire, MemoryCache.remove, MemoryCache.KeyTimeout_clearTimeout.
  cbn [MemoryCache.loop MemoryCache.keyTimeout MemoryCache.cache MemoryCache.ttl
       MemoryCache.cache_proto MemoryCache.node].
  repeat split; destruct (MemoryCache.handle_of _ _); reflexivity.
Qed.

Lemma fire_plain (x : timer) (this : MemoryCache.t) :
  MemoryCache.plain (MemoryCache.fire x this) = MemoryCache.plain this.
Proof.
  unfold MemoryCache.plain.
  destruct (fire_state x this) as (_ & -> & _ & _ & _ & -> & _). reflexivity.
Qed.

Lemma fire_elem (x y : timer) (this : MemoryCache.t) :
  MemoryCache.plain this = true ->
  callback x <> "__proto__" ->
  y ∈ pending (MemoryCache.loop (MemoryCache.fire x this)) <->
  y ∈ pending (MemoryCache.loop this) /\ handle y <> handle x
  /\ MemoryCache.timeoutHandleForKey (MemoryCache.keyTimeout this) !! callback x
     <> Some (handle y).
Proof.
  intros Hplain Hkey.
  unfold MemoryCache.fire, MemoryCache.remove, MemoryCache.KeyTimeout_clearTimeout.
  cbn [MemoryCache.loop MemoryCache.keyTimeout MemoryCache.cache MemoryCache.ttl].
  rewrite clearTimeout_elem. cbn [pending]. rewrite list_elem_of_filter.
  rewrite handle_of_plain by exact Hplain.
  apply String.eqb_neq in Hkey. rewrite Hkey.
  cbn [MemoryCache.keyTimeout]. tauto.
Qed.

(** A timer that fires takes no timer with it that was not pending. *)
Lemma fire_sub (x y : timer) (this : MemoryCache.t) :
  y ∈ pending (MemoryCache.loop (MemoryCache.fire x this)) ->
  y ∈ pending (MemoryCache.loop this).
Proof.
  unfold MemoryCache.fire, MemoryCache.remove, MemoryCache.KeyTimeout_clearTimeout.
  cbn [MemoryCache.loop]. rewrite clearTimeout_elem. cbn [pending].
  rewrite list_elem_of_filter. tauto.
Qed.

Lemma fire_shrinks (x : timer) (this : MemoryCache.t) :
  x ∈ pending (MemoryCache.loop this) ->
  (length (pending (MemoryCache.loop (MemoryCache.fire x this)))
   < length (pending (MemoryCache.loop this)))%nat.
Proof.
  intros Hx. unfold MemoryCache.fire, MemoryCache.remove, MemoryCache.KeyTimeout_clearTimeout.
  cbn [MemoryCache.loop MemoryCache.keyTimeout MemoryCache.cache MemoryCache.ttl].
  assert (length (filter (fun y => handle y ≠ handle x) (pending (MemoryCache.loop this)))
          < length (pending (MemoryCache.loop this)))%nat as Hlt.
  { apply (length_filter_lt _ _ x); [exact Hx|]. intros H. apply H. reflexivity. }
  destruct (MemoryCache.handle_of _ _); cbn [clearTimeout pending].
  - eapply Nat.le_lt_trans; [apply length_filter|exact Hlt].
  - exact Hlt.
Qed.

Lemma fire_registered (x : timer) (this : MemoryCache.t) :
  x ∈ pending (MemoryCache.loop this) ->
  registered this = true -> registered (MemoryCache.fire x this) = true.
Proof.
  rewrite !registered_spec. intros Hx [Hplain H]. split.
  - rewrite fire_plain. exact Hplain.
  - intros y Hy. apply fire_sub in Hy.
    destruct (fire_state x this) as (_ & -> & _ & _ & -> & _). apply H, Hy.
Qed.

Lemma run_timers_registered (fuel : nat) (limit : Z) (this : MemoryCache.t) :
  registered this = true -> registered (MemoryCache.run_timers fuel limit this) = true.
Proof.
  revert this. induction fuel as [|fuel IH]; intros this H; cbn [MemoryCache.run_timers];
    [exact H|].
  destruct (next_due limit _) as [x|] eqn:Hnext; [|exact H].
  apply next_due_Some in Hnext as [Hx _]. apply IH, fire_registered; assumption.
Qed.

Lemma elapse_registered (ms : Z) (this : MemoryCache.t) :
  registered this = true -> registered (MemoryCache.elapse ms this) = true.
Proof.
  intros H. unfold MemoryCache.elapse.
  apply (run_timers_registered (length (pending (MemoryCache.loop this)))
           (now (MemoryCache.loop this) + ms)) in H.
  exact H.
Qed.

Lemma remove_registered (key : string) (this : MemoryCache.t) :
  registered this = true -> registered (MemoryCache.remove key this) = true.
Proof.
  rewrite !registered_spec. intros [Hplain H]. split; [exact Hplain|]. intros y.
  unfold MemoryCache.remove, MemoryCache.KeyTimeout_clearTimeout.
  cbn [MemoryCache.loop MemoryCache.keyTimeout MemoryCache.cache MemoryCache.ttl].
  rewrite clearTimeout_elem. intros [Hy _].
  rewrite (proj2 (clearTimeout_now _ _)). apply H, Hy.
Qed.

(** The delay [setTimeout] arms a timer with. *)
Definition delay (ms : Z) : Z :=
  if (1 <=? ms) && (ms <=? TIMEOUT_MAX) then ms else 1.

(** The state a [set] leaves when [ttl] is a number and the key is not
    [__proto__]. *)
Lemma MemoryCache_set_with_ttl (key : string) (bodyStream : Stream) (metaData : value)
  (this : MemoryCache.t) (ms : Z) :
  failure bodyStream = None ->
  MemoryCache.ttl this = VNum ms ->
  key <> "__proto__" ->
  let T := MemoryCache.keyTimeout this in
  let h := next_handle (MemoryCache.loop this) in
  fst (MemoryCache.set key bodyStream metaData this)
  = {| MemoryCache.ttl := VNum ms;
       MemoryCache.keyTimeout :=
         MemoryCache.mkKeyTimeout (<[ key := h ]> (MemoryCache.timeoutHandleForKey T))
           (MemoryCache.timeoutHandleForKey_proto T);
       MemoryCache.cache :=
         <[ key := MemoryCache.mkEntry (contents bodyStream) metaData ]>
           (MemoryCache.cache this);
       MemoryCache.cache_proto := MemoryCache.cache_proto this;
       MemoryCache.loop :=
         {| now := now (MemoryCache.loop this);
            next_handle := S h;
            pending :=
              pending (clearTimeout (MemoryCache.handle_of key this) (MemoryCache.loop this))
              ++ [mkTimer h (now (MemoryCache.loop this) + delay ms) key] |};
       MemoryCache.node := MemoryCache.node this |}.
Proof.
  intros Hfinite Httl Hkey T h. subst T h. apply String.eqb_neq in Hkey.
  unfold MemoryCache.set, streamToBuffer. rewrite Hfinite.
  cbn [MemoryCache.ttl]. rewrite Httl.
  unfold MemoryCache.KeyTimeout_updateTimeout, MemoryCache.KeyTimeout_clearTimeout,
    setTimeout, delay.
  cbn [MemoryCache.loop MemoryCache.keyTimeout MemoryCache.cache MemoryCache.ttl fst
       MemoryCache.cache_proto MemoryCache.node].
  rewrite Hkey.
  unfold MemoryCache.handle_of.
  cbn [MemoryCache.loop MemoryCache.keyTimeout MemoryCache.node].
  rewrite (proj1 (clearTimeout_now _ _)), (proj2 (clearTimeout_now _ _)).
  reflexivity.
Qed.

Lemma set_registered (key : string) (bodyStream : Stream) (metaData : value)
  (this : MemoryCache.t) :
  key <> "__proto__" ->
  registered this = true ->
  registered (fst (MemoryCache.set key bodyStream metaData this)) = true.
Proof.
  intros Hkey H.
  destruct (failure bodyStream) as [err|] eqn:Hfinite.
  { unfold MemoryCache.set, streamToBuffer. rewrite Hfinite. exact H. }
  pose proof Hkey as Hkeyb. apply String.eqb_neq in Hkeyb.
  destruct (MemoryCache.ttl this) eqn:Httl;
    try (unfold MemoryCache.set, streamToBuffer; rewrite Hfinite;
         cbn [MemoryCache.ttl]; rewrite Httl; rewrite Hkeyb;
         destruct this; exact H).
  rewrite (MemoryCache_set_with_ttl key bodyStream metaData this n Hfinite Httl Hkey).
  revert H. rewrite !registered_spec. intros [Hplain H]. split; [exact Hplain|]. intros y.
  cbn [MemoryCache.loop MemoryCache.keyTimeout MemoryCache.timeoutHandleForKey
       pending next_handle].
  rewrite elem_of_app, clearTimeout_elem, handle_of_plain by exact Hplain.
  rewrite Hkeyb. intros [[Hy Hne]|Hy].
  - destruct (H y Hy) as (Hp & Hk & Hh). split; [exact Hp|]. split; [|lia].
    rewrite lookup_insert_ne; [exact Hk|]. intros ->. congruence.
  - apply list_elem_of_singleton in Hy as ->. cbn [callback handle].
    rewrite lookup_insert_eq. split; [exact Hkey|]. split; [reflexivity|lia].
Qed.

Lemma new_registered (node : Platform) (options_ttl : value) (now : Z) :
  registered (MemoryCache.new node options_ttl now) = true.
Proof. reflexivity. Qed.

Lemma filter_none (P : timer -> Prop) `{!forall x, Decision (P x)} (l : list timer) :
  (forall x, x ∈ l -> ~ P x) -> filter P l = [].
Proof.
  induction l as [|y l IH]; intros Hnone; [reflexivity|].
  rewrite filter_cons_False by (apply Hnone; left).
  apply IH. intros x Hx. apply Hnone. right. exact Hx.
Qed.

(** After a [set] the key has one pending timer, the one just armed. *)
Lemma set_arms_one_timer (key : string) (bodyStream : Stream) (metaData : value)
  (this : MemoryCache.t) (ms : Z) :
  key <> "__proto__" ->
  registered this = true ->
  failure bodyStream = None ->
  MemoryCache.ttl this = VNum ms ->
  filter (fun x => callback x = key)
    (pending (MemoryCache.loop (fst (MemoryCache.set key bodyStream metaData this))))
  = [mkTimer (next_handle (MemoryCache.loop this))
       (now (MemoryCache.loop this) + delay ms) key].
Proof.
  intros Hkey H Hfinite Httl.
  rewrite (MemoryCache_set_with_ttl key bodyStream metaData this ms Hfinite Httl Hkey).
  cbn [MemoryCache.loop pending]. rewrite filter_app.
  rewrite filter_none.
  - rewrite filter_cons_True by reflexivity. reflexivity.
  - intros x Hx Hcallback. apply clearTimeout_elem in Hx as [Hx Hne].
    apply registered_spec in H as [Hplain H].
    rewrite handle_of_plain in Hne by exact Hplain.
    apply String.eqb_neq in Hkey. rewrite Hkey in Hne.
    destruct (H x Hx) as (_ & Hk & _). congruence.
Qed.

(** Timers that fire leave alone the entries of other keys. *)
Lemma run_timers_keeps (key : string) (fuel : nat) (limit : Z) (this : MemoryCache.t) :
  (forall x, x ∈ pending (MemoryCache.loop this) -> callback x = key -> limit < due x) ->
  MemoryCache.cache (MemoryCache.run_timers fuel limit this) !! key
  = MemoryCache.cache this !! key.
Proof.
  revert this. induction fuel as [|fuel IH]; intros this H; cbn [MemoryCache.run_timers];
    [reflexivity|].
  destruct (next_due limit _) as [x|] eqn:Hnext; [|reflexivity].
  apply next_due_Some in Hnext as [Hx Hdue].
  rewrite IH.
  - destruct (fire_state x this) as (-> & _).
    destruct (String.eqb (callback x) "__proto__"); [reflexivity|].
    apply lookup_delete_ne.
    intros Hkey. specialize (H x Hx Hkey). lia.
  - intros y Hy. apply fire_sub in Hy. apply H, Hy.
Qed.

Lemma run_timers_absent (key : string) (fuel : nat) (limit : Z) (this : MemoryCache.t) :
  MemoryCache.cache this !! key = None ->
  MemoryCache.cache (MemoryCache.run_timers fuel limit this) !! key = None.
Proof.
  revert this. induction fuel as [|fuel IH]; intros this H; cbn [MemoryCache.run_timers];
    [exact H|].
  destruct (next_due limit _) as [x|]; [|exact H].
  apply IH. destruct (fire_state x this) as (-> & _).
  destruct (String.eqb (callback x) "__proto__"); [exact H|].
  destruct (decide (callback x = key)) as [->|Hne].
  - apply lookup_delete_eq.
  - rewrite lookup_delete_ne by exact Hne. exact H.
Qed.

(** A due timer of the key whose handle no timer of another key shares
    removes the entry. *)
Lemma run_timers_removes (key : string) (fuel : nat) (limit : Z) (this : MemoryCache.t)
  (x : timer) :
  registered this = true ->
  x ∈ pending (MemoryCache.loop this) ->
  callback x = key ->
  due x <= limit ->
  (forall y, y ∈ pending (MemoryCache.loop this) -> handle y = handle x ->
             callback y = key) ->
  (length (pending (MemoryCache.loop this)) <= fuel)%nat ->
  MemoryCache.cache (MemoryCache.run_timers fuel limit this) !! key = None.
Proof.
  revert this. induction fuel as [|fuel IH]; intros this Hreg Hx Hkey Hdue Hown Hfuel.
  - destruct (pending (MemoryCache.loop this)); [inversion Hx|cbn in Hfuel; lia].
  - cbn [MemoryCache.run_timers].
    destruct (next_due limit _) as [y|] eqn:Hnext.
    + apply next_due_Some in Hnext as [Hy Hydue].
      destruct (proj1 (registered_spec this) Hreg) as [Hplain Hall].
      destruct (Hall y Hy) as (Hyp & Hyk' & _).
      destruct (decide (callback y = key)) as [Hyk|Hyk].
      * apply run_timers_absent. destruct (fire_state y this) as (-> & _).
        apply String.eqb_neq in Hyp. rewrite Hyp.
        rewrite Hyk. apply lookup_delete_eq.
      * assert (handle x <> handle y) as Hh.
        { intros E. apply Hyk, Hown; [exact Hy|symmetry; exact E]. }
        apply IH.
        -- apply fire_registered; assumption.
        -- apply fire_elem; [exact Hplain|exact Hyp|]. split; [exact Hx|].
           split; [exact Hh|]. rewrite Hyk'. congruence.
        -- exact Hkey.
        -- exact Hdue.
        -- intros z Hz. apply fire_sub in Hz. apply Hown, Hz.
        -- pose proof (fire_shrinks y this Hy). lia.
    + pose proof (next_due_None _ _ Hnext x Hx). lia.
Qed.

(** [get] reads the cache and nothing of the clock. *)
Lemma get_elapse (key : string) (ms : Z) (this : MemoryCache.t) :
  MemoryCache.get key (MemoryCache.elapse ms this)
  = MemoryCache.get key
      (MemoryCache.run_timers (length (pending (MemoryCache.loop this)))
         (now (MemoryCache.loop this) + ms) this).
Proof. reflexivity. Qed.

Lemma run_timers_ttl (fuel : nat) (limit : Z) (this : MemoryCache.t) :
  MemoryCache.ttl (MemoryCache.run_timers fuel limit this) = MemoryCache.ttl this.
Proof.
  revert this. induction fuel as [|fuel IH]; intros this; cbn [MemoryCache.run_timers];
    [reflexivity|].
  destruct (next_due limit _) as [x|]; [|reflexivity].
  rewrite IH. apply (fire_state x this).
Qed.

Lemma elapse_ttl (ms : Z) (this : MemoryCache.t) :
  MemoryCache.ttl (MemoryCache.elapse ms this) = MemoryCache.ttl this.
Proof. apply run_timers_ttl. Qed.

(** Timers that fire leave the prototype of [cache] as it is. *)
Lemma run_timers_proto (fuel : nat) (limit : Z) (this : MemoryCache.t) :
  MemoryCache.cache_proto (MemoryCache.run_timers fuel limit this)
  = MemoryCache.cache_proto this
  /\ MemoryCache.plain (MemoryCache.run_timers fuel limit this) = MemoryCache.plain this.
Proof.
  revert this. induction fuel as [|fuel IH]; intros this; cbn [MemoryCache.run_timers];
    [split; reflexivity|].
  destruct (next_due limit _) as [x|]; [|split; reflexivity].
  destruct (IH (MemoryCache.fire x this)) as [-> ->]. split.
  - apply (fire_state x this).
  - apply fire_plain.
Qed.

(** An entry stays for the delay of its timer, and no longer. *)
Lemma MemoryCache_entry_lifetime (key : string) (bodyStream : Stream) (metaData : value)
  (this : MemoryCache.t) (ttl ms : Z) :
  MemoryCache.ordinary key = true ->
  registered this = true ->
  failure bodyStream = None ->
  MemoryCache.ttl this = VNum ttl ->
  MemoryCache.get key
    (MemoryCache.elapse ms (fst (MemoryCache.set key bodyStream metaData this)))
  = if ms <? delay ttl
    then Ok (Some {| bodyStream := Readable_from (contents bodyStream);
                     metaData := metaData |})
    else Ok None.
Proof.
  intros Hordinary Hreg Hfinite Httl.
  pose proof (ordinary_not_proto key Hordinary) as Hkey.
  pose proof (set_registered key bodyStream metaData this Hkey Hreg) as Hreg'.
  pose proof (set_arms_one_timer key bodyStream metaData this ttl Hkey Hreg Hfinite Httl)
    as Hone.
  rewrite get_elapse, get_plain;
    [|rewrite (proj2 (run_timers_proto _ _ _)); apply registered_plain, Hreg'
     |exact Hordinary].
  set (armed := mkTimer (next_handle (MemoryCache.loop this))
                  (now (MemoryCache.loop this) + delay ttl) key) in *.
  assert (forall x, x ∈ pending (MemoryCache.loop
                                   (fst (MemoryCache.set key bodyStream metaData this))) ->
                    callback x = key -> x = armed) as Honly.
  { intros x Hx Hcallback.
    assert (x ∈ filter (fun x => callback x = key)
                  (pending (MemoryCache.loop
                     (fst (MemoryCache.set key bodyStream metaData this))))) as Hin
      by (apply list_elem_of_filter; auto).
    rewrite Hone in Hin. apply list_elem_of_singleton in Hin. exact Hin. }
  revert Hreg' Honly.
  rewrite (MemoryCache_set_with_ttl key bodyStream metaData this ttl Hfinite Httl Hkey).
  cbv zeta. fold armed. intros Hreg' Honly.
  cbn [MemoryCache.loop now] in *.
  destruct (ms <? delay ttl) eqn:Hms.
  - apply Z.ltb_lt in Hms. rewrite run_timers_keeps.
    + cbn [MemoryCache.cache]. rewrite lookup_insert_eq. reflexivity.
    + intros x Hx Hcallback. rewrite (Honly x Hx Hcallback). cbn [armed due]. lia.
  - apply Z.ltb_ge in Hms. rewrite (run_timers_removes key _ _ _ armed); auto.
    + cbn [MemoryCache.loop pending]. apply elem_of_app. right. left.
    + cbn [armed due]. lia.
    + cbn [MemoryCache.loop pending]. intros y Hy Hh.
      apply elem_of_app in Hy as [Hy|Hy].
      * apply clearTimeout_elem in Hy as [Hy _].
        destruct (proj1 (registered_spec this) Hreg) as [_ Hall].
        destruct (Hall y Hy) as (_ & _ & Hlt).
        cbn [armed handle] in Hh. lia.
      * apply list_elem_of_singleton in Hy as ->. reflexivity.
Qed.

(** An entry filed under [__proto__] is the prototype of [cache]: no
    timer removes it. *)
Lemma MemoryCache_proto_entry_stays (bodyStream : Stream) (metaData : value)
  (this : MemoryCache.t) (ms : Z) :
  failure bodyStream = None ->
  MemoryCache.get "__proto__"
    (MemoryCache.elapse ms (fst (MemoryCache.set "__proto__" bodyStream metaData this)))
  = Ok (Some {| bodyStream := Readable_from (contents bodyStream);
                metaData := metaData |}).
Proof.
  intros Hfinite.
  pose proof (proj2 (MemoryCache_get_after_set "__proto__" bodyStream metaData this
                       Hfinite)) as Hget.
  cbv zeta in Hget. rewrite get_elapse.
  unfold MemoryCache.get, MemoryCache.lookup in *. cbn [String.eqb Ascii.eqb Bool.eqb] in *.
  rewrite (proj1 (run_timers_proto _ _ _)).
  destruct (MemoryCache.cache_proto _); [exact Hget|].
  cbn in Hget. discriminate.
Qed.

Lemma stored_expiration (integrity : string -> string) (this : FileSystemCache.t)
  (now ttl : Z) (bodyStream : Stream) (metaData : value) :
  FileSystemCache.ttl this = VNum ttl ->
  obj_get "expiration" (stored_document integrity this now bodyStream metaData)
  = VNum (now + ttl).
Proof.
  intros Httl. unfold stored_document, FileSystemCache.metaCopy_of. rewrite Httl.
  destruct (String.eqb (contents bodyStream) "");
    rewrite obj_get_set_ne by discriminate; apply obj_get_set_eq.
Qed.

(** An entry filed with a time limit is read back until the clock has
    passed the limit, and reported missing from then on, though its
    files remain. *)
Lemma FileSystemCache_entry_lifetime (integrity : string -> string)
  (this : FileSystemCache.t) (now now_get now' ttl : Z) (key : string)
  (bodyStream : Stream) (metaData : value) (c : FileSystemCache.cacache) :
  (forall x y, integrity x = integrity y -> x = y) ->
  failure bodyStream = None ->
  json_safe (VObj (own_enumerable metaData)) = true ->
  obj_lookup "empty" (own_enumerable metaData) = None ->
  FileSystemCache.ttl this = VNum ttl ->
  now + ttl <> 0 ->
  let files :=
    fst (FileSystemCache.set integrity this now now_get FileSystemCache.no_faults
           key bodyStream metaData c) in
  FileSystemCache.get this now' key files
  = (if now + ttl <? now' then Resolved None
     else Resolved (Some {| bodyStream := Readable_from (contents bodyStream);
                            metaData := FileSystemCache.delete_internal
                                          (VObj (own_enumerable metaData)) |}))
  /\ FileSystemCache.get_info (key +:+ "meta") files
     = Some (integrity (JSON_stringify
                          (VObj (stored_document integrity this now bodyStream metaData)))).
Proof.
  intros Hinj Hfinite Hsafe Hempty Httl Hnonzero files. subst files.
  rewrite FileSystemCache_set_stores by exact Hfinite. cbn [fst]. split.
  - rewrite (FileSystemCache_get_stored integrity this this) by assumption.
    rewrite (stored_expiration integrity this now ttl) by exact Httl.
    cbn [truthy FileSystemCache.less_than].
    destruct (now + ttl =? 0) eqn:E; [apply Z.eqb_eq in E; contradiction|].
    reflexivity.
  - unfold stored_files, FileSystemCache.get_info. cbn. apply lookup_insert_eq.
Qed.

(** C7 (commonjs/index.cjs).  A [MemoryCache] whose [ttl] is a number
    hands that number to [setTimeout], and the entry is there for [get]
    until the delay of the timer has elapsed and gone from then on; this
    is proved for an ordinary key and a cache whose timers are on record.
    The delay is the [ttl] when that lies between 1 and [TIMEOUT_MAX]
    milliseconds: there the entry is kept for the [ttl] and no longer,
    with exactly one pending timer for the key after each [set], so that
    an entry set again stays for the full [ttl] from that moment.  For a
    [ttl] above [TIMEOUT_MAX] the delay is one millisecond: the entry is
    gone one millisecond after the [set], while a [FileSystemCache] with
    the same [ttl] still reads it back.  [FileSystemCache] compares the
    time limit filed with the entry against the clock at each [get]: the
    entry is read back while the clock has not passed the limit and
    reported missing afterwards, its metadata still on file.  An entry a
    [MemoryCache] has filed under [__proto__] is never removed. *)
Theorem C7_entries_expire_after_ttl (integrity : string -> string) (key : string)
  (body : Stream) (meta : value) (ttl : Z) :
  (forall x y, integrity x = integrity y -> x = y) ->
  failure body = None ->
  (MemoryCache.ordinary key = true ->
   forall this : MemoryCache.t,
     registered this = true ->
     MemoryCache.ttl this = VNum ttl ->
     let this' := fst (MemoryCache.set key body meta this) in
     (forall ms, 0 <= ms < delay ttl ->
        MemoryCache.get key (MemoryCache.elapse ms this')
        = Ok (Some {| bodyStream := Readable_from (contents body); metaData := meta |}))
     /\ (forall ms, delay ttl <= ms ->
           MemoryCache.get key (MemoryCache.elapse ms this') = Ok None)
     /\ filter (fun x => callback x = key) (pending (MemoryCache.loop this'))
        = [mkTimer (next_handle (MemoryCache.loop this))
             (now (MemoryCache.loop this) + delay ttl) key]
     /\ (forall d ms body' meta',
           failure body' = None ->
           0 <= ms < delay ttl ->
           MemoryCache.get key
             (MemoryCache.elapse ms
                (fst (MemoryCache.set key body' meta' (MemoryCache.elapse d this'))))
           = Ok (Some {| bodyStream := Readable_from (contents body');
                         metaData := meta' |})))
  /\ (1 <= ttl <= TIMEOUT_MAX -> delay ttl = ttl)
  /\ (forall (this : FileSystemCache.t) (now now_get : Z) (c : FileSystemCache.cacache),
        json_safe (VObj (own_enumerable meta)) = true ->
        obj_lookup "empty" (own_enumerable meta) = None ->
        FileSystemCache.ttl this = VNum ttl ->
        0 < now + ttl ->
        let files :=
          fst (FileSystemCache.set integrity this now now_get FileSystemCache.no_faults
                 key body meta c) in
        (forall now', now' <= now + ttl ->
           FileSystemCache.get this now' key files
           = Resolved (Some {| bodyStream := Readable_from (contents body);
                               metaData := FileSystemCache.delete_internal
                                             (VObj (own_enumerable meta)) |}))
        /\ (forall now', now + ttl < now' ->
              FileSystemCache.get this now' key files = Resolved None)
        /\ FileSystemCache.get_info (key +:+ "meta") files <> None)
  /\ (TIMEOUT_MAX < ttl ->
        (MemoryCache.ordinary key = true ->
         forall this : MemoryCache.t,
           registered this = true ->
           MemoryCache.ttl this = VNum ttl ->
           MemoryCache.get key
             (MemoryCache.elapse 1 (fst (MemoryCache.set key body meta this)))
           = Ok None)
        /\ (forall (this : FileSystemCache.t) (now now_get : Z)
              (c : FileSystemCache.cacache),
              json_safe (VObj (own_enumerable meta)) = true ->
              obj_lookup "empty" (own_enumerable meta) = None ->
              FileSystemCache.ttl this = VNum ttl ->
              0 <= now ->
              FileSystemCache.get this (now + 1) key
                (fst (FileSystemCache.set integrity this now now_get
                        FileSystemCache.no_faults key body meta c))
              = Resolved (Some {| bodyStream := Readable_from (contents body);
                                  metaData := FileSystemCache.delete_internal
                                                (VObj (own_enumerable meta)) |})))
  /\ (forall (this : MemoryCache.t) (ms : Z),
        MemoryCache.get "__proto__"
          (MemoryCache.elapse ms (fst (MemoryCache.set "__proto__" body meta this)))
        = Ok (Some {| bodyStream := Readable_from (contents body); metaData := meta |})).
Proof.
  intros Hinj Hfinite.
  assert (forall (this : FileSystemCache.t) (now now_get now' : Z)
            (c : FileSystemCache.cacache),
            json_safe (VObj (own_enumerable meta)) = true ->
            obj_lookup "empty" (own_enumerable meta) = None ->
            FileSystemCache.ttl this = VNum ttl ->
            0 < now + ttl ->
            now' <= now + ttl ->
            FileSystemCache.get this now' key
              (fst (FileSystemCache.set integrity this now now_get
                      FileSystemCache.no_faults key body meta c))
            = Resolved (Some {| bodyStream := Readable_from (contents body);
                                metaData := FileSystemCache.delete_internal
                                              (VObj (own_enumerable meta)) |}))
    as Hlive.
  { intros this now now_get now' c Hsafe Hempty Httl Hclock Hnow'.
    assert (now + ttl <> 0) as Hnonzero by lia.
    destruct (FileSystemCache_entry_lifetime integrity this now now_get now' ttl key
                body meta c Hinj Hfinite Hsafe Hempty Httl Hnonzero) as [-> _].
    destruct (now + ttl <? now') eqn:E; [|reflexivity]. apply Z.ltb_lt in E. lia. }
  split; [|split; [|split; [|split]]].
  - intros Hordinary this Hreg Httl this'. subst this'.
    pose proof (ordinary_not_proto key Hordinary) as Hkey. repeat split.
    + intros ms Hms. rewrite (MemoryCache_entry_lifetime key body meta this ttl) by auto.
      destruct (ms <? delay ttl) eqn:E; [reflexivity|]. apply Z.ltb_ge in E. lia.
    + intros ms Hms. rewrite (MemoryCache_entry_lifetime key body meta this ttl) by auto.
      destruct (ms <? delay ttl) eqn:E; [|reflexivity]. apply Z.ltb_lt in E. lia.
    + apply set_arms_one_timer; assumption.
    + intros d ms body' meta' Hfinite' Hms.
      rewrite (MemoryCache_entry_lifetime key body' meta' _ ttl).
      * destruct (ms <? delay ttl) eqn:E; [reflexivity|]. apply Z.ltb_ge in E. lia.
      * exact Hordinary.
      * apply elapse_registered, set_registered; assumption.
      * exact Hfinite'.
      * rewrite elapse_ttl.
        rewrite (MemoryCache_set_with_ttl key body meta this ttl Hfinite Httl Hkey).
        reflexivity.
  - unfold delay. intros [Hlow Hhigh].
    apply Z.leb_le in Hlow, Hhigh. rewrite Hlow, Hhigh. reflexivity.
  - intros this now now_get c Hsafe Hempty Httl Hclock files. subst files.
    assert (now + ttl <> 0) as Hnonzero by lia.
    repeat split.
    + intros now' Hnow'. apply Hlive; assumption.
    + intros now' Hnow'.
      destruct (FileSystemCache_entry_lifetime integrity this now now_get now' ttl key
                  body meta c Hinj Hfinite Hsafe Hempty Httl Hnonzero) as [-> _].
      destruct (now + ttl <? now') eqn:E; [reflexivity|]. apply Z.ltb_ge in E. lia.
    + destruct (FileSystemCache_entry_lifetime integrity this now now_get 0 ttl key
                  body meta c Hinj Hfinite Hsafe Hempty Httl Hnonzero) as [_ Hinfo].
      rewrite Hinfo. discriminate.
  - intros Hbig. unfold TIMEOUT_MAX in Hbig. split.
    + intros Hordinary this Hreg Httl.
      rewrite (MemoryCache_entry_lifetime key body meta this ttl) by auto.
      unfold delay, TIMEOUT_MAX.
      destruct (ttl <=? 2147483647) eqn:E; [apply Z.leb_le in E; lia|].
      rewrite andb_false_r. reflexivity.
    + intros this now now_get c Hsafe Hempty Httl Hclock.
      apply Hlive; try assumption; lia.
  - intros this ms. apply MemoryCache_proto_entry_stays, Hfinite.
Qed.

Lemma C7_witness :
  let body := Readable_from "hello" in
  let entry := {| bodyStream := body; metaData := example_meta |} in
  let stored (ttl : Z) :=
    fst (MemoryCache.set example_key body example_meta
           (MemoryCache.new example_node (VNum ttl) 0)) in
  let disk (ttl : Z) := FileSystemCache.new (VNum ttl) VUndefined in
  let files (ttl : Z) :=
    fst (FileSystemCache.set Stores.ideal_integrity (disk ttl) 5 6
           FileSystemCache.no_faults example_key body example_meta
           FileSystemCache.empty_cacache) in
  (MemoryCache.get example_key (MemoryCache.elapse 999 (stored 1000)) = Ok (Some entry)
   /\ MemoryCache.get example_key (MemoryCache.elapse 1000 (stored 1000)) = Ok None
   /\ MemoryCache.get example_key
        (MemoryCache.elapse 999
           (fst (MemoryCache.set example_key body example_meta
                   (MemoryCache.elapse 600 (stored 1000)))))
      = Ok (Some entry)
   /\ FileSystemCache.get (disk 1000) 1005 example_key (files 1000)
      = Resolved (Some entry)
   /\ FileSystemCache.get (disk 1000) 1006 example_key (files 1000) = Resolved None)
  /\ (MemoryCache.get example_key (stored 2147483648) = Ok (Some entry)
      /\ MemoryCache.get example_key (MemoryCache.elapse 1 (stored 2147483648))
         = Ok None
      /\ FileSystemCache.get (disk 2147483648) 6 example_key (files 2147483648)
         = Resolved (Some entry)).
Proof.
  intros body entry stored disk files.
  assert (json_safe (VObj (own_enumerable example_meta)) = true) as Hsafe
    by (vm_compute; reflexivity).
  split.
  - destruct (C7_entries_expire_after_ttl Stores.ideal_integrity example_key body
                example_meta 1000 ideal_integrity_inj eq_refl)
      as (Hmemory & _ & Hfiles & _).
    destruct (Hmemory eq_refl (MemoryCache.new example_node (VNum 1000) 0)
                eq_refl eq_refl)
      as (Hbefore & Hafter & _ & Hagain).
    destruct (Hfiles (disk 1000) 5 6 FileSystemCache.empty_cacache Hsafe eq_refl eq_refl
                ltac:(lia)) as (Hlive & Hdead & _).
    split; [apply (Hbefore 999); vm_compute; split; [discriminate|reflexivity]|].
    split; [apply (Hafter 1000); vm_compute; discriminate|].
    split; [apply (Hagain 600 999 body example_meta eq_refl); vm_compute;
            split; [discriminate|reflexivity]|].
    split; [apply (Hlive 1005); lia|apply (Hdead 1006); lia].
  - destruct (C7_entries_expire_after_ttl Stores.ideal_integrity example_key body
                example_meta 2147483648 ideal_integrity_inj eq_refl)
      as (Hmemory & _ & _ & Hbeyond & _).
    destruct (Hbeyond ltac:(reflexivity)) as [Hgone Hkept].
    destruct (Hmemory eq_refl (MemoryCache.new example_node (VNum 2147483648) 0)
                eq_refl eq_refl) as (Hbefore & _).
    split; [|split].
    + exact (Hbefore 0 ltac:(vm_compute; split; [discriminate|reflexivity])).
    + exact (Hgone eq_refl (MemoryCache.new example_node (VNum 2147483648) 0)
               eq_refl eq_refl).
    + exact (Hkept (disk 2147483648) 5 6 FileSystemCache.empty_cacache Hsafe eq_refl
               eq_refl ltac:(lia)).
Defined.

(** ** The cache-aware fetch and a store that answers [set] with nothing *)

(** [FileSystemCache.set] ends with [this.get(key)], which compares the
    time limit it has just filed against the clock: when the two writes
    took longer than the [ttl], the entry is expired already and [set]
    resolves to [undefined]. *)
Lemma FileSystemCache_set_expired (integrity : string -> string)
  (this : FileSystemCache.t) (now now_get ttl : Z) (key : string)
  (bodyStream : Stream) (metaData : value) (c : FileSystemCache.cacache) :
  (forall x y, integrity x = integrity y -> x = y) ->
  failure bodyStream = None ->
  json_safe (VObj (own_enumerable metaData)) = true ->
  obj_lookup "empty" (own_enumerable metaData) = None ->
  FileSystemCache.ttl this = VNum ttl ->
  0 < now + ttl < now_get ->
  snd (FileSystemCache.set integrity this now now_get FileSystemCache.no_faults
         key bodyStream metaData c)
  = Resolved None.
Proof.
  intros Hinj Hfinite Hsafe Hempty Httl Hlate.
  rewrite FileSystemCache_set_stores by exact Hfinite. cbn [snd].
  rewrite (FileSystemCache_get_stored integrity this this) by assumption.
  rewrite (stored_expiration integrity this now ttl) by exact Httl.
  cbn [truthy FileSystemCache.less_than].
  destruct (now + ttl =? 0) eqn:E; [apply Z.eqb_eq in E; lia|].
  destruct (now + ttl <? now_get) eqn:E'; [reflexivity|apply Z.ltb_ge in E'; lia].
Qed.

(** C1 (commonjs/index.cjs): with the key derived, (1) a hit at the
    initial check is returned with [fromCache = true], and nothing but
    that one [get] is called: no lock, no transport; (2) a miss at the
    initial check and a hit at the check made under the lock is returned
    with [fromCache = true] and no transport call; (3) the transport is
    called only when both checks miss; (4) it is then called once and the
    response stored by one [set]: when [set] resolves to a
    materialization, that is returned with [fromCache = false]; when
    [set] resolves to [undefined], reading [bodyStream] of it throws, and
    the call is rejected with that [TypeError], the lock released;
    (5) [FileSystemCache.set] does resolve to [undefined], whenever its
    writes take longer than the [ttl]. *)
Theorem C1_getResponse_serves_from_cache {S : Type}
  (cache : Cache S) (env : Env S) (key_flags : props)
  (requestArguments : list value) (w : World S) (cacheKey : string) :
  Cjs.getCacheKey key_flags (argument 0 requestArguments) (argument 1 requestArguments)
  = Ok cacheKey ->
  let first := cache_get cache cacheKey (store w) in
  let second := cache_get cache cacheKey (while_waiting env (store w)) in
  let only_if_cached :=
    hasOnlyWithCacheOption (argument 0 requestArguments) (argument 1 requestArguments) in
  (forall v, first = Resolved (Some v) ->
     Cjs.getResponse cache env key_flags requestArguments w
     = (mkWorld (store w) (locks w) (log w ++ [EvGet cacheKey]),
        response_of v cacheKey true))
  /\ (forall v, first = Resolved None -> only_if_cached = Ok false ->
        second = Resolved (Some v) ->
        Cjs.getResponse cache env key_flags requestArguments w
        = (mkWorld (while_waiting env (store w)) (released cacheKey w)
             (log w ++ [EvGet cacheKey; EvLock cacheKey; EvGet cacheKey;
                        EvUnlock cacheKey]),
           response_of v cacheKey true))
  /\ (forall w' r, Cjs.getResponse cache env key_flags requestArguments w = (w', r) ->
        exists events, log w' = log w ++ events
          /\ forall a, In (EvFetch a) events ->
               first = Resolved None /\ second = Resolved None)
  /\ (forall res, first = Resolved None -> only_if_cached = Ok false ->
        second = Resolved None ->
        fetch env requestArguments = Resolved res ->
        let after :=
          cache_set cache cacheKey (body res) (serializeMetaFromNodeFetchResponse res)
            (while_waiting env (store w)) in
        let w' :=
          mkWorld (fst after) (released cacheKey w)
            (log w ++ [EvGet cacheKey; EvLock cacheKey; EvGet cacheKey;
                       EvFetch requestArguments; EvSet cacheKey; EvUnlock cacheKey]) in
        (forall v, snd after = Resolved (Some v) ->
           Cjs.getResponse cache env key_flags requestArguments w
           = (w', response_of v cacheKey false))
        /\ (snd after = Resolved None ->
            Cjs.getResponse cache env key_flags requestArguments w
            = (w', Rejected (TypeError
                               "Cannot read properties of undefined (reading 'bodyStream')"))))
  /\ (forall (integrity : string -> string) (disk : Stores.disk) (res : FetchResponse)
        (ttl : Z),
        (forall x y, integrity x = integrity y -> x = y) ->
        failure (body res) = None ->
        json_safe (serializeMetaFromNodeFetchResponse res) = true ->
        FileSystemCache.ttl (Stores.this disk) = VNum ttl ->
        Stores.faults disk = FileSystemCache.no_faults ->
        0 < Stores.clock disk + ttl ->
        ttl < Stores.latency disk ->
        snd (cache_set (Stores.fileSystemCache integrity) cacheKey (body res)
               (serializeMetaFromNodeFetchResponse res) disk)
        = Resolved None).
Proof.
  intros Hkey first second only_if_cached. subst first second only_if_cached.
  split; [|split; [|split; [|split]]].
  5: { intros integrity disk res ttl Hinj Hfinite Hsafe Httl Hfaults Hclock Hlate.
       cbn [Stores.fileSystemCache cache_set]. rewrite Hfaults.
       pose proof (FileSystemCache_set_expired integrity (Stores.this disk)
                     (Stores.clock disk) (Stores.clock disk + Stores.latency disk) ttl
                     cacheKey (body res) (serializeMetaFromNodeFetchResponse res)
                     (Stores.files disk) Hinj Hfinite Hsafe eq_refl Httl
                     ltac:(lia)) as Hexpired.
       destruct (FileSystemCache.set _ _ _ _ _ _ _ _ _) as [c r].
       exact Hexpired. }
  all: unfold Cjs.getResponse; rewrite Hkey;
    unfold getResponse_from, locked, fetch_and_store, Fetch.get, lock, unlock, record,
      response_of, released;
    cbn [store locks log].
  - intros v ->. reflexivity.
  - intros v -> -> ->. cbn [respond store locks log].
    rewrite <- !app_assoc. reflexivity.
  - intros w' r.
    destruct (cache_get cache cacheKey (store w)) as [[v|]|e|]; [no_fetch| |no_fetch..].
    destruct (hasOnlyWithCacheOption _ _) as [[|]|e]; [no_fetch| |no_fetch].
    destruct (cache_get cache cacheKey (while_waiting env (store w))) as [[v|]|e|];
      cbn [respond store locks log]; [no_fetch| |no_fetch..].
    destruct (fetch env requestArguments) as [res|e|]; cbn [store locks log].
    + destruct (cache_set cache cacheKey (body res) _ _) as [s' [[nd|]|e|]];
        cbn [respond store locks log]; with_fetch.
    + with_fetch.
    + with_fetch.
  - intros res -> -> -> Hfetch. rewrite Hfetch.
    cbn [store locks log].
    destruct (cache_set cache cacheKey (body res) _ _) as [s' r]. cbn [fst snd].
    split.
    + intros v ->. cbn [respond store locks log]. rewrite <- !app_assoc. reflexivity.
    + intros ->. cbn [respond store locks log]. rewrite <- !app_assoc. reflexivity.
Qed.

(** A cache directory whose entries are to stay for one millisecond,
    while a [set] takes five. *)
Definition hasty_disk : Stores.disk :=
  Stores.mkDisk (FileSystemCache.new (VNum 1) VUndefined)
    FileSystemCache.empty_cacache 0 5 FileSystemCache.no_faults.

Lemma C1_witness :
  Cjs.getResponse Stores.memoryCache silent DEFAULT_KEY_FLAGS
    [VStr "https://example.com/"] (mkWorld warm_memory ∅ [])
  = (mkWorld warm_memory ∅ [EvGet example_key],
     Resolved (Some (mkNFCResponse (Readable_from "hello") example_meta example_key true)))
  /\ snd (Cjs.getResponse (Stores.fileSystemCache Stores.ideal_integrity)
            (mkEnv Stores.disk (fun s => s) (fun _ => Resolved hello_response))
            DEFAULT_KEY_FLAGS [VStr "https://example.com/"] (mkWorld hasty_disk ∅ []))
     = Rejected (TypeError "Cannot read properties of undefined (reading 'bodyStream')").
Proof.
  split.
  - refine (proj1 (C1_getResponse_serves_from_cache Stores.memoryCache silent
                     DEFAULT_KEY_FLAGS [VStr "https://example.com/"]
                     (mkWorld warm_memory ∅ []) example_key _)
                  (mkCachedValue (Readable_from "hello") example_meta) _).
    + vm_compute. reflexivity.
    + vm_compute. reflexivity.
  - destruct (C1_getResponse_serves_from_cache
                (Stores.fileSystemCache Stores.ideal_integrity)
                (mkEnv Stores.disk (fun s => s) (fun _ => Resolved hello_response))
                DEFAULT_KEY_FLAGS [VStr "https://example.com/"]
                (mkWorld hasty_disk ∅ []) example_key
                ltac:(vm_compute; reflexivity))
      as (_ & _ & _ & Hfetched & Hexpired).
    destruct (Hfetched hello_response eq_refl eq_refl eq_refl eq_refl) as [_ Hnothing].
    rewrite Hnothing; [reflexivity|].
    exact (Hexpired Stores.ideal_integrity hasty_disk hello_response 1
             ideal_integrity_inj eq_refl eq_refl eq_refl eq_refl
             ltac:(vm_compute; reflexivity) ltac:(vm_compute; reflexivity)).
Defined.

(** * Further properties *)

(** ** What of the init argument reaches the key (commonjs/index.cjs) *)

(** The headers as they enter the key: names in lower case, the
    only-if-cached directive left out. *)
Definition key_headers (hs : props) : props :=
  filter (fun kv => Cjs.keep_header kv = true)
         (map (fun kv => (toLowerCase (fst kv), snd kv)) hs).

(** The object the key holds for the resource. *)
Definition resource_json (key_flags : props) (resource : value) : result props :=
  if is_Request resource
  then Cjs.getRequestCacheKey key_flags resource
  else Ok [("url", resource)].

(** [getCacheKeyJson] on an init argument that is an object, step by step. *)
Lemma Cjs_getCacheKeyJson_obj (key_flags : props) (resource : value) (ps : props) :
  Cjs.getCacheKeyJson key_flags resource (VObj ps)
  = match resource_json key_flags resource with
    | Err e => Err e
    | Ok rj =>
        match Object_entries (or_empty (obj_get "headers" ps)) with
        | Err e => Err e
        | Ok hs =>
            match getBodyCacheKeyJson (obj_get "body" rj) with
            | Err e => Err e
            | Ok rbody =>
                match getBodyCacheKeyJson (obj_get "body" ps) with
                | Err e => Err e
                | Ok ibody =>
                    Ok (VArr [ VObj (obj_set "body" rbody rj);
                               VObj (obj_delete "agent"
                                       (obj_set "body" ibody
                                          (obj_set "headers"
                                             (VObj (Object_fromEntries (key_headers hs)))
                                             ps)));
                               VNum CACHE_VERSION ])
                end
            end
        end
    end.
Proof.
  unfold Cjs.getCacheKeyJson, resource_json.
  destruct (if is_Request resource then _ else _) as [rj|e]; [|reflexivity].
  rewrite bind_Ok. cbn [get_property own_enumerable]. rewrite bind_Ok.
  unfold Cjs.getHeadersCacheKeyJson.
  destruct (Object_entries _) as [hs|e]; [|reflexivity].
  rewrite !bind_Ok. fold (key_headers hs).
  destruct (getBodyCacheKeyJson (obj_get "body" rj)) as [rbody|e]; [|reflexivity].
  rewrite bind_Ok. rewrite (obj_get_set_ne "body" "headers") by discriminate.
  destruct (getBodyCacheKeyJson (obj_get "body" ps)) as [ibody|e]; reflexivity.
Qed.

Lemma Cjs_getCacheKey_init_headers (key_flags : props) (resource : value)
  (ps hs1 hs2 : props) :
  key_headers hs1 = key_headers hs2 ->
  Cjs.getCacheKey key_flags resource (VObj (obj_set "headers" (VObj hs1) ps))
  = Cjs.getCacheKey key_flags resource (VObj (obj_set "headers" (VObj hs2) ps)).
Proof.
  intros Hsame. unfold Cjs.getCacheKey. rewrite !Cjs_getCacheKeyJson_obj.
  rewrite !obj_get_set_eq, !(obj_get_set_ne "body" "headers") by discriminate.
  unfold or_empty. cbn [truthy Object_entries own_enumerable].
  rewrite Hsame, !obj_set_set_eq. reflexivity.
Qed.

(** X1.  The names of the headers in [init.headers] enter the key in
    lower case: two init arguments whose headers agree once the names are
    put in lower case, and which are alike otherwise, get the same key. *)
Theorem X1_header_names_enter_in_lower_case (key_flags : props) (resource : value)
  (ps hs1 hs2 : props) :
  map (fun kv => (toLowerCase (fst kv), snd kv)) hs1
  = map (fun kv => (toLowerCase (fst kv), snd kv)) hs2 ->
  Cjs.getCacheKey key_flags resource (VObj (obj_set "headers" (VObj hs1) ps))
  = Cjs.getCacheKey key_flags resource (VObj (obj_set "headers" (VObj hs2) ps)).
Proof.
  intros Hsame. apply Cjs_getCacheKey_init_headers. unfold key_headers.
  rewrite Hsame. reflexivity.
Qed.

Lemma X1_witness :
  Cjs.getCacheKey DEFAULT_KEY_FLAGS (VStr "https://example.com/")
    (VObj [("method", VStr "GET"); ("headers", VObj [("Accept", VStr "text/html")])])
  = Cjs.getCacheKey DEFAULT_KEY_FLAGS (VStr "https://example.com/")
      (VObj [("method", VStr "GET"); ("headers", VObj [("aCCEPT", VStr "text/html")])]).
Proof.
  apply (X1_header_names_enter_in_lower_case DEFAULT_KEY_FLAGS
           (VStr "https://example.com/") [("method", VStr "GET"); ("headers", VNull)]
           [("Accept", VStr "text/html")] [("aCCEPT", VStr "text/html")]).
  reflexivity.
Defined.

Lemma key_headers_app (a b : props) : key_headers (a ++ b) = key_headers a ++ key_headers b.
Proof. unfold key_headers. rewrite map_app, filter_app. reflexivity. Qed.

Lemma key_headers_only_if_cached (name : string) :
  toLowerCase name = "cache-control" ->
  key_headers [(name, VStr "only-if-cached")] = [].
Proof. intros H. unfold key_headers. cbn [map fst snd]. rewrite H. reflexivity. Qed.

(** X2.  The directive [cache-control: only-if-cached], under any
    spelling of its name, is dropped from [init.headers] before the key
    is made: with it among the headers the key is what it is with the
    directive taken out of them.  The field [headers] itself stays in the
    key, empty when the directive was all it held, at the place it has in
    the init argument, or last when the init argument has none: so an
    init argument whose [headers], its last field, hold the directive
    only gets the key of the same argument without [headers], and one
    whose [headers] come before another field does not. *)
Theorem X2_only_if_cached_directive_is_no_part_of_the_key (key_flags : props)
  (resource : value) (ps before after : props) (name : string) :
  toLowerCase name = "cache-control" ->
  Cjs.getCacheKey key_flags resource
    (VObj (obj_set "headers"
             (VObj (before ++ (name, VStr "only-if-cached") :: after)) ps))
  = Cjs.getCacheKey key_flags resource
      (VObj (obj_set "headers" (VObj (before ++ after)) ps))
  /\ (obj_lookup "headers" ps = None ->
      Cjs.getCacheKey key_flags resource
        (VObj (ps ++ [("headers", VObj [(name, VStr "only-if-cached")])]))
      = Cjs.getCacheKey key_flags resource (VObj ps))
  /\ Cjs.getCacheKey DEFAULT_KEY_FLAGS (VStr "https://example.com/")
       (VObj [("headers", VObj [("Cache-Control", VStr "only-if-cached")]);
              ("method", VStr "GET")])
     <> Cjs.getCacheKey DEFAULT_KEY_FLAGS (VStr "https://example.com/")
          (VObj [("method", VStr "GET")]).
Proof.
  intros Hname. split; [|split].
  - apply Cjs_getCacheKey_init_headers.
    change (before ++ (name, VStr "only-if-cached") :: after)
      with (before ++ [(name, VStr "only-if-cached")] ++ after).
    rewrite !key_headers_app, (key_headers_only_if_cached name Hname). reflexivity.
  - intros Hnone. rewrite <- (obj_set_fresh "headers" _ ps Hnone).
    unfold Cjs.getCacheKey. rewrite !Cjs_getCacheKeyJson_obj.
    rewrite obj_get_set_eq, (obj_get_set_ne "body" "headers") by discriminate.
    unfold obj_get at 3. rewrite Hnone.
    unfold or_empty. cbn [truthy Object_entries own_enumerable].
    rewrite (key_headers_only_if_cached name Hname), obj_set_set_eq. reflexivity.
  - vm_compute. discriminate.
Qed.

Lemma X2_witness :
  Cjs.getCacheKey DEFAULT_KEY_FLAGS (VStr "https://example.com/")
    (VObj [("method", VStr "GET");
           ("headers", VObj [("Cache-Control", VStr "only-if-cached")])])
  = Cjs.getCacheKey DEFAULT_KEY_FLAGS (VStr "https://example.com/")
      (VObj [("method", VStr "GET")]).
Proof.
  apply (proj1 (proj2 (X2_only_if_cached_directive_is_no_part_of_the_key
                         DEFAULT_KEY_FLAGS (VStr "https://example.com/")
                         [("method", VStr "GET")] [] [] "Cache-Control" eq_refl))).
  reflexivity.
Defined.

Lemma obj_delete_twice (k : string) (ps : props) :
  obj_delete k (obj_delete k ps) = obj_delete k ps.
Proof. apply obj_delete_absent, obj_lookup_delete_eq. Qed.

(** X3.  The [agent] of the init argument is no part of the key: an init
    argument with an [agent] gets the key of the same argument without
    one. *)
Theorem X3_agent_is_no_part_of_the_key (key_flags : props) (resource agent : value)
  (ps : props) :
  Cjs.getCacheKey key_flags resource (VObj (obj_set "agent" agent ps))
  = Cjs.getCacheKey key_flags resource (VObj (obj_delete "agent" ps)).
Proof.
  unfold Cjs.getCacheKey. rewrite !Cjs_getCacheKeyJson_obj.
  rewrite !(obj_get_set_ne _ "agent"), !(obj_get_delete_ne _ "agent") by discriminate.
  destruct (resource_json key_flags resource) as [rj|e]; [|reflexivity].
  destruct (Object_entries _) as [hs|e]; [|reflexivity].
  destruct (getBodyCacheKeyJson (obj_get "body" rj)) as [rbody|e]; [|reflexivity].
  destruct (getBodyCacheKeyJson (obj_get "body" ps)) as [ibody|e]; [|reflexivity].
  rewrite !(obj_delete_set_ne "agent") by discriminate. rewrite obj_delete_set_eq.
  rewrite !(obj_delete_set_ne "agent") by discriminate. rewrite obj_delete_twice.
  reflexivity.
Qed.

(** X4.  On a resource that is no [Request] and an init argument that is
    an object, key derivation fails only where the normalization of
    [init.body] fails, and with its error; with no init argument it
    returns a key, and on [null] for the init argument it throws. *)
Theorem X4_key_of_a_bare_resource_fails_with_the_body_only (key_flags : props)
  (url : string) (ps : props) :
  (forall e, Cjs.getCacheKey key_flags (VStr url) (VObj ps) = Err e
             <-> getBodyCacheKeyJson (obj_get "body" ps) = Err e)
  /\ (exists cacheKey, Cjs.getCacheKey key_flags (VStr url) VUndefined = Ok cacheKey)
  /\ (exists e, Cjs.getCacheKey key_flags (VStr url) VNull = Err e).
Proof.
  split; [|split].
  - intros e. unfold Cjs.getCacheKey. rewrite Cjs_getCacheKeyJson_obj.
    unfold resource_json. cbn [is_Request].
    destruct (or_empty_defined (obj_get "headers" ps)) as [Hu Hn].
    unfold Object_entries.
    destruct (or_empty (obj_get "headers" ps)); try contradiction;
      change (obj_get "body" [("url", VStr url)]) with VUndefined;
      cbn [getBodyCacheKeyJson truthy negb];
      (destruct (getBodyCacheKeyJson (obj_get "body" ps)) as [ibody|e'];
       [split; discriminate|split; intros [= ->]; reflexivity]).
  - eexists. reflexivity.
  - eexists. reflexivity.
Qed.



Lemma Cjs_getCacheKey_init_body (key_flags : props) (resource : value)
  (ps : props) (b1 b2 : value) :
  getBodyCacheKeyJson b1 = getBodyCacheKeyJson b2 ->
  Cjs.getCacheKey key_flags resource (VObj (obj_set "body" b1 ps))
  = Cjs.getCacheKey key_flags resource (VObj (obj_set "body" b2 ps)).
Proof.
  intros Hsame. unfold Cjs.getCacheKey. rewrite !Cjs_getCacheKeyJson_obj.
  rewrite !(obj_get_set_ne "headers" "body") by discriminate.
  rewrite !obj_get_set_eq, Hsame.
  destruct (resource_json key_flags resource) as [rj|e]; [|reflexivity].
  destruct (Object_entries _) as [hs|e]; [|reflexivity].
  destruct (getBodyCacheKeyJson (obj_get "body" rj)) as [rbody|e]; [|reflexivity].
  destruct (getBodyCacheKeyJson b2) as [ibody|e]; [|reflexivity].
  rewrite (obj_set_over "body" "headers" _ _ b1 b2) by discriminate. reflexivity.
Qed.

(** X6.  A body given as URL-encoded params, as a buffer or as a string
    of the same text gets the same key (a buffer whose text is the very
    text a form prints as is taken for a form, and fails). *)
Theorem X6_bodies_of_the_same_text_share_a_key (key_flags : props) (resource : value)
  (ps : props) (text : string) :
  Cjs.getCacheKey key_flags resource (VObj (obj_set "body" (VURLSearchParams text) ps))
  = Cjs.getCacheKey key_flags resource (VObj (obj_set "body" (VStr text) ps))
  /\ (text <> "[object FormData]" ->
      Cjs.getCacheKey key_flags resource (VObj (obj_set "body" (VBuffer text) ps))
      = Cjs.getCacheKey key_flags resource (VObj (obj_set "body" (VStr text) ps)))
  /\ (text = "[object FormData]" ->
      Cjs.getCacheKey key_flags (VStr "https://example.com/")
        (VObj (obj_set "body" (VBuffer text) ps))
      = Err (TypeError "formData.getBoundary is not a function")).
Proof.
  assert (getBodyCacheKeyJson (VStr text) = Ok (VStr text)) as Hstr.
  { unfold getBodyCacheKeyJson. destruct (negb (truthy (VStr text))); reflexivity. }
  split; [|split].
  - apply Cjs_getCacheKey_init_body. rewrite Hstr. reflexivity.
  - intros Hne. apply Cjs_getCacheKey_init_body. rewrite Hstr.
    unfold getBodyCacheKeyJson. cbn [truthy negb toString].
    destruct (String.eqb_spec text "[object FormData]"); [contradiction|reflexivity].
  - intros ->. unfold Cjs.getCacheKey. rewrite Cjs_getCacheKeyJson_obj.
    rewrite (obj_get_set_ne "headers" "body") by discriminate.
    rewrite obj_get_set_eq. unfold resource_json. cbn [is_Request].
    destruct (or_empty_defined (obj_get "headers" ps)) as [Hu Hn].
    unfold Object_entries.
    destruct (or_empty (obj_get "headers" ps)); try contradiction; reflexivity.
Qed.

(** ** The shape of a key *)

Definition is_hex (c : ascii) : bool :=
  let n := code c in
  ((48 <=? n) && (n <=? 57)) || ((97 <=? n) && (n <=? 102)).

Fixpoint all_hex (s : string) : bool :=
  match s with
  | EmptyString => true
  | String c s' => is_hex c && all_hex s'
  end.

Lemma hex_digit_hex (n : Z) : is_hex (MD5.hex_digit n) = true.
Proof.
  unfold MD5.hex_digit. generalize (Z.to_nat n) as m. intros m.
  do 16 (destruct m as [|m]; [reflexivity|]). destruct m; reflexivity.
Qed.

Lemma hex_bytes_shape (bs : list Z) :
  String.length (String.concat "" (map MD5.hex_byte bs)) = (2 * length bs)%nat
  /\ all_hex (String.concat "" (map MD5.hex_byte bs)) = true.
Proof.
  induction bs as [|b bs [IHl IHh]]; [split; reflexivity|].
  cbn [map String.concat length].
  destruct (map MD5.hex_byte bs) as [|y ys] eqn:E.
  - destruct bs; [|discriminate]. unfold MD5.hex_byte.
    cbn [String.length all_hex]. rewrite !hex_digit_hex. split; reflexivity.
  - unfold MD5.hex_byte. cbn [String.append String.length all_hex].
    rewrite !hex_digit_hex, IHl, IHh. split; [lia|reflexivity].
Qed.

Lemma digest_shape (msg : list Z) :
  String.length (MD5.digest msg) = 32%nat /\ all_hex (MD5.digest msg) = true.
Proof.
  unfold MD5.digest. destruct (MD5.blocks _ _ _) as [a b c d].
  apply (hex_bytes_shape (MD5.le_bytes 4 a ++ MD5.le_bytes 4 b
                          ++ MD5.le_bytes 4 c ++ MD5.le_bytes 4 d)).
Qed.

(** X7.  A key, whenever [getCacheKey] returns one, is 32 characters
    long, each a digit or a letter from [a] to [f]. *)
Theorem X7_keys_are_32_hex_digits (key_flags : props) (resource init : value)
  (cacheKey : string) :
  Cjs.getCacheKey key_flags resource init = Ok cacheKey
  \/ Ts.getCacheKey key_flags resource init = Ok cacheKey ->
  String.length cacheKey = 32%nat /\ all_hex cacheKey = true.
Proof.
  unfold Cjs.getCacheKey, Ts.getCacheKey. intros [H|H].
  - destruct (Cjs.getCacheKeyJson key_flags resource init); [|discriminate].
    injection H as <-. apply digest_shape.
  - destruct (Ts.getCacheKeyJson key_flags resource init); [|discriminate].
    injection H as <-. apply digest_shape.
Qed.

Lemma X7_witness :
  String.length "071bb0a9a478dd5c6cc5e788e7d84c75" = 32%nat
  /\ all_hex "071bb0a9a478dd5c6cc5e788e7d84c75" = true.
Proof.
  apply (X7_keys_are_32_hex_digits DEFAULT_KEY_FLAGS (VStr "https://example.com/")
           VUndefined).
  left. vm_compute. reflexivity.
Defined.

(** ** Recognizing the only-if-cached directive *)

Lemma truthy_defined (v : value) : truthy v = true -> v <> VUndefined /\ v <> VNull.
Proof. destruct v; cbn; intros H; split; congruence. Qed.

Lemma hasOnlyWithCacheOption_total (resource init : value) :
  exists b, hasOnlyWithCacheOption resource init = Ok b.
Proof.
  unfold hasOnlyWithCacheOption.
  assert (exists b, (if truthy init
                     then h ← get_property init "headers";
                          (if truthy h
                           then es ← Object_entries h; mret (existsb is_only_if_cached es)
                           else mret false)
                     else mret false) = Ok b) as [b ->].
  { destruct (truthy init) eqn:Hinit; [|eexists; reflexivity].
    destruct (truthy_defined init Hinit) as [Hu Hn].
    assert (exists h, get_property init "headers" = Ok h) as [h ->].
    { destruct init; try contradiction; cbn [get_property]; eexists; reflexivity. }
    rewrite bind_Ok. destruct (truthy h) eqn:Hh; [|eexists; reflexivity].
    destruct (truthy_defined h Hh) as [Hu' Hn'].
    unfold Object_entries. destruct h; try contradiction; eexists; reflexivity. }
  rewrite bind_Ok. destruct b; [eexists; reflexivity|].
  destruct resource; eexists; reflexivity.
Qed.

Lemma existsb_only_if_cached (hs : props) :
  existsb is_only_if_cached hs = true <->
  exists name, In (name, VStr "only-if-cached") hs /\ toLowerCase name = "cache-control".
Proof.
  rewrite existsb_exists. split.
  - intros [[name v] [Hin Hoic]]. unfold is_only_if_cached in Hoic. cbn [fst snd] in Hoic.
    apply andb_true_iff in Hoic as [Hname Hv]. apply String.eqb_eq in Hname.
    destruct v; try discriminate. apply String.eqb_eq in Hv. subst.
    exists name. split; assumption.
  - intros [name [Hin Hname]]. exists (name, VStr "only-if-cached"). split; [exact Hin|].
    unfold is_only_if_cached. cbn [fst snd is_string]. rewrite Hname. reflexivity.
Qed.

(** X8.  [hasOnlyWithCacheOption] never throws.  On an init argument whose
    [headers] is a plain object it answers [true] exactly when the headers
    hold the value [only-if-cached] (the string, and nothing but it) under
    a name that reads [cache-control] in lower case, or the resource is a
    [Request] whose [Cache-Control] header is that value. *)
Theorem X8_only_if_cached_is_recognized (resource : value) (ps hs : props) :
  (forall init, exists b, hasOnlyWithCacheOption resource init = Ok b)
  /\ (obj_get "headers" ps = VObj hs ->
      (hasOnlyWithCacheOption resource (VObj ps) = Ok true <->
       (exists name, In (name, VStr "only-if-cached") hs
                     /\ toLowerCase name = "cache-control")
       \/ (exists headers fields,
             resource = VRequest headers fields
             /\ Headers_get "Cache-Control" headers = VStr "only-if-cached"))).
Proof.
  split; [intros init; apply hasOnlyWithCacheOption_total|]. intros Hheaders.
  unfold hasOnlyWithCacheOption. cbn [truthy get_property own_enumerable].
  rewrite Hheaders, bind_Ok. cbn [truthy Object_entries own_enumerable].
  rewrite !bind_Ok. destruct (existsb is_only_if_cached hs) eqn:Hin.
  - split; [intros _; left; apply existsb_only_if_cached, Hin|reflexivity].
  - split.
    + intros H. right. destruct resource; try discriminate.
      do 2 eexists. split; [reflexivity|].
      injection H as H. unfold is_string in H.
      destruct (Headers_get _ _); try discriminate.
      apply String.eqb_eq in H. subst. reflexivity.
    + intros [H|(headers & fields & -> & H)].
      * apply existsb_only_if_cached in H. congruence.
      * cbn. rewrite H. reflexivity.
Qed.

Lemma X8_witness :
  hasOnlyWithCacheOption (VStr "https://example.com/")
    (VObj [("headers", VObj [("CACHE-CONTROL", VStr "only-if-cached")])]) = Ok true.
Proof.
  apply (proj2 (X8_only_if_cached_is_recognized (VStr "https://example.com/")
                  [("headers", VObj [("CACHE-CONTROL", VStr "only-if-cached")])]
                  [("CACHE-CONTROL", VStr "only-if-cached")]) eq_refl).
  left. exists "CACHE-CONTROL". split; [left; reflexivity|reflexivity].
Defined.

(** X9.  Headers handed over as a [Headers] object, in [init.headers],
    have no own enumerable property for [Object.entries] to list: none of
    them enters the key, and an only-if-cached directive among them is not
    seen. *)
Theorem X9_init_headers_of_class_Headers_are_not_read (key_flags : props)
  (url : string) (ps : props) (entries1 entries2 : list (string * string)) :
  Cjs.getCacheKey key_flags (VStr url) (VObj (obj_set "headers" (VHeaders entries1) ps))
  = Cjs.getCacheKey key_flags (VStr url) (VObj (obj_set "headers" (VHeaders entries2) ps))
  /\ Cjs.getCacheKey key_flags (VStr url) (VObj (obj_set "headers" (VHeaders entries1) ps))
     = Cjs.getCacheKey key_flags (VStr url) (VObj (obj_set "headers" (VObj []) ps))
  /\ hasOnlyWithCacheOption (VStr url) (VObj (obj_set "headers" (VHeaders entries1) ps))
     = Ok false.
Proof.
  assert (forall h, Cjs.getCacheKey key_flags (VStr url)
                      (VObj (obj_set "headers" (VHeaders h) ps))
                    = Cjs.getCacheKey key_flags (VStr url)
                        (VObj (obj_set "headers" (VObj []) ps))) as Hkey.
  { intros h. unfold Cjs.getCacheKey. rewrite !Cjs_getCacheKeyJson_obj.
    rewrite !obj_get_set_eq, !(obj_get_set_ne "body" "headers") by discriminate.
    unfold or_empty. cbn [truthy Object_entries own_enumerable].
    rewrite !obj_set_set_eq. reflexivity. }
  split; [|split].
  - rewrite !Hkey. reflexivity.
  - apply Hkey.
  - unfold hasOnlyWithCacheOption. cbn [truthy get_property own_enumerable].
    rewrite obj_get_set_eq. reflexivity.
Qed.

(** ** Key flags and the fields of a request, in both versions *)

Lemma Cjs_flagged_off (key_flags : props) headers (fields : props)
  (name : string) (v1 v2 : value) (n : string) :
  name <> "headers" ->
  Cjs.flag key_flags name = false ->
  Cjs.flagged key_flags (VRequest headers (obj_set name v1 fields)) n
  = Cjs.flagged key_flags (VRequest headers (obj_set name v2 fields)) n.
Proof.
  intros Hh Hoff. unfold Cjs.flagged.
  destruct (String.eqb_spec n name) as [->|Hne]; [rewrite Hoff; reflexivity|].
  destruct (Cjs.flag key_flags n); [|reflexivity].
  cbn [get_property]. destruct (String.eqb n "headers"); [reflexivity|].
  rewrite !obj_get_set_ne by assumption. reflexivity.
Qed.

Lemma Cjs_getRequestCacheKey_flag_off (key_flags : props) headers (fields : props)
  (name : string) (v1 v2 : value) :
  In name request_fields ->
  Cjs.flag key_flags name = false ->
  Cjs.getRequestCacheKey key_flags (VRequest headers (obj_set name v1 fields))
  = Cjs.getRequestCacheKey key_flags (VRequest headers (obj_set name v2 fields)).
Proof.
  intros Hin Hoff.
  assert (name <> "headers") as Hh.
  { intros ->. cbn in Hin. repeat destruct Hin as [Hin|Hin]; congruence. }
  unfold Cjs.getRequestCacheKey. cbn [headersPojo].
  rewrite !(Cjs_flagged_off key_flags headers fields name v1 v2) by assumption.
  assert ((if Cjs.flag key_flags "body"
           then b ← get_property (VRequest headers (obj_set name v1 fields)) "body";
                getBodyCacheKeyJson b
           else Ok (VStr ""))
          = (if Cjs.flag key_flags "body"
             then b ← get_property (VRequest headers (obj_set name v2 fields)) "body";
                  getBodyCacheKeyJson b
             else Ok (VStr ""))) as ->; [|reflexivity].
  destruct (String.eqb_spec "body" name) as [<-|Hne]; [rewrite Hoff; reflexivity|].
  destruct (Cjs.flag key_flags "body"); [|reflexivity].
  cbn [get_property]. cbn [String.eqb Ascii.eqb Bool.eqb].
  rewrite !obj_get_set_ne by assumption. reflexivity.
Qed.

(** X27.  On a structured request, a field whose flag is off is no part of
    the key: two requests that differ in the value of that field only get
    the same key (or fail alike), in src/index.ts and in
    commonjs/index.cjs. *)
Theorem X27_a_request_field_switched_off_is_no_part_of_the_key (key_flags : props)
  (headers : list (string * string)) (fields : props) (name : string)
  (v1 v2 init : value) :
  In name request_fields ->
  truthy (obj_get name key_flags) = false ->
  Ts.getCacheKey key_flags (VRequest headers (obj_set name v1 fields)) init
  = Ts.getCacheKey key_flags (VRequest headers (obj_set name v2 fields)) init
  /\ Cjs.getCacheKey key_flags (VRequest headers (obj_set name v1 fields)) init
     = Cjs.getCacheKey key_flags (VRequest headers (obj_set name v2 fields)) init.
Proof.
  intros Hin Hoff. split.
  - unfold Ts.getCacheKey, Ts.getCacheKeyJson. cbn [is_Request].
    rewrite (Ts_getRequestCacheKey_flag_off key_flags headers fields name v1 v2 Hin Hoff).
    reflexivity.
  - unfold Cjs.getCacheKey, Cjs.getCacheKeyJson. cbn [is_Request].
    rewrite (Cjs_getRequestCacheKey_flag_off key_flags headers fields name v1 v2 Hin Hoff).
    reflexivity.
Qed.

Lemma X27_witness :
  let key_flags := obj_set "redirect" (VBool false) DEFAULT_KEY_FLAGS in
  Cjs.getCacheKey key_flags
    (VRequest [] [("url", VStr "https://example.com/"); ("redirect", VStr "follow")])
    VUndefined
  = Cjs.getCacheKey key_flags
      (VRequest [] [("url", VStr "https://example.com/"); ("redirect", VStr "manual")])
      VUndefined.
Proof.
  intros key_flags.
  apply (proj2 (X27_a_request_field_switched_off_is_no_part_of_the_key key_flags []
                  [("url", VStr "https://example.com/"); ("redirect", VNull)]
                  "redirect" (VStr "follow") (VStr "manual") VUndefined
                  ltac:(cbn; tauto) eq_refl)).
Defined.

(** X28.  With the [headers] flag off, the headers of a structured
    request are no part of the key in either version; in src/index.ts
    those of the init argument are none either. *)
Theorem X28_headers_switched_off (key_flags : props)
  (headers1 headers2 : list (string * string)) (fields : props) (init : props)
  (h1 h2 : value) :
  truthy (obj_get "headers" key_flags) = false ->
  Ts.getCacheKey key_flags (VRequest headers1 fields) (VObj (obj_set "headers" h1 init))
  = Ts.getCacheKey key_flags (VRequest headers2 fields) (VObj (obj_set "headers" h2 init))
  /\ Cjs.getCacheKey key_flags (VRequest headers1 fields) (VObj init)
     = Cjs.getCacheKey key_flags (VRequest headers2 fields) (VObj init).
Proof.
  intros Hoff.
  assert (Ts.flag key_flags "headers" = false) as Hts by exact Hoff.
  assert (Cjs.flag key_flags "headers" = false) as Hcjs by exact Hoff.
  split.
  - apply Ts_getCacheKey_headers_flag_off, Hts.
  - unfold Cjs.getCacheKey. rewrite !Cjs_getCacheKeyJson_obj.
    unfold resource_json. cbn [is_Request].
    assert (Cjs.getRequestCacheKey key_flags (VRequest headers1 fields)
            = Cjs.getRequestCacheKey key_flags (VRequest headers2 fields)) as ->.
    { unfold Cjs.getRequestCacheKey, Cjs.flagged. cbn [headersPojo get_property].
      rewrite Hcjs. cbn [String.eqb Ascii.eqb Bool.eqb]. reflexivity. }
    reflexivity.
Qed.

Lemma X28_witness :
  let key_flags := obj_set "headers" (VBool false) DEFAULT_KEY_FLAGS in
  Cjs.getCacheKey key_flags
    (VRequest [("accept", "text/html")] [("url", VStr "https://example.com/")]) (VObj [])
  = Cjs.getCacheKey key_flags
      (VRequest [("accept", "*/*")] [("url", VStr "https://example.com/")]) (VObj []).
Proof.
  intros key_flags.
  apply (proj2 (X28_headers_switched_off key_flags [("accept", "text/html")]
                  [("accept", "*/*")] [("url", VStr "https://example.com/")] []
                  VNull VNull eq_refl)).
Defined.

(** ** Header directives in the key flags (src/index.ts) *)

Lemma Ts_filterM_app (key_flags : props) (a b : props) :
  Ts.filterM (Ts.keep_header key_flags) (a ++ b)
  = match Ts.filterM (Ts.keep_header key_flags) a with
    | Err e => Err e
    | Ok ka =>
        match Ts.filterM (Ts.keep_header key_flags) b with
        | Err e => Err e
        | Ok kb => Ok (ka ++ kb)
        end
    end.
Proof.
  induction a as [|kv a IH]; cbn [app Ts.filterM].
  - destruct (Ts.filterM _ b); reflexivity.
  - destruct (Ts.keep_header key_flags kv) as [keep|e]; [|reflexivity].
    rewrite !bind_Ok, IH.
    destruct (Ts.filterM _ a) as [ka|e]; [|reflexivity]. rewrite !bind_Ok.
    destruct (Ts.filterM _ b) as [kb|e]; [|reflexivity].
    destruct keep; reflexivity.
Qed.

(** A header the flags switch off is dropped, whatever its value. *)
Lemma Ts_keep_header_off (key_flags directives : props) (name : string) (v : value) :
  obj_get "headers" key_flags = VObj directives ->
  hasOwnProperty name directives = true ->
  truthy (obj_get name directives) = false ->
  Ts.keep_header key_flags (name, v) = Ok false.
Proof.
  intros Hflags Hown Hoff. unfold Ts.keep_header, Ts.header_flag. cbn [fst snd].
  rewrite Hflags. cbn [Object_entries own_enumerable]. rewrite bind_Ok, Hown, Hoff.
  destruct (negb _ || negb _); reflexivity.
Qed.

Lemma Ts_init_headers_off (key_flags directives : props) (name : string)
  (before after : props) (v1 v2 : value) :
  obj_get "headers" key_flags = VObj directives ->
  hasOwnProperty (toLowerCase name) directives = true ->
  truthy (obj_get (toLowerCase name) directives) = false ->
  Ts.getHeadersCacheKeyJson key_flags (VObj (before ++ (name, v1) :: after))
  = Ts.getHeadersCacheKeyJson key_flags (VObj (before ++ (name, v2) :: after)).
Proof.
  intros Hflags Hown Hoff. unfold Ts.getHeadersCacheKeyJson.
  cbn [Object_entries own_enumerable]. rewrite !bind_Ok, !map_app. cbn [map fst snd].
  rewrite !Ts_filterM_app. cbn [Ts.filterM].
  rewrite !(Ts_keep_header_off key_flags directives) by assumption. reflexivity.
Qed.

(** X24.  A header that [key_flags.headers] switches off by its name in
    lower case is no part of the key: two init arguments that differ in
    the value of that header only get the same key, whatever its
    spelling. *)
Theorem X24_a_header_switched_off_is_no_part_of_the_key (key_flags directives : props)
  (resource : value) (ps before after : props) (name : string) (v1 v2 : value) :
  obj_get "headers" key_flags = VObj directives ->
  hasOwnProperty (toLowerCase name) directives = true ->
  truthy (obj_get (toLowerCase name) directives) = false ->
  Ts.getCacheKey key_flags resource
    (VObj (obj_set "headers" (VObj (before ++ (name, v1) :: after)) ps))
  = Ts.getCacheKey key_flags resource
      (VObj (obj_set "headers" (VObj (before ++ (name, v2) :: after)) ps)).
Proof.
  intros Hflags Hown Hoff. unfold Ts.getCacheKey, Ts.getCacheKeyJson.
  destruct (if is_Request resource then _ else _) as [rj|e]; [|reflexivity].
  rewrite !bind_Ok. cbn [get_property own_enumerable]. rewrite !obj_get_set_eq.
  unfold Ts.flag. rewrite Hflags. cbn [truthy]. rewrite !bind_Ok.
  unfold or_empty. cbn [truthy].
  rewrite (Ts_init_headers_off key_flags directives name before after v1 v2)
    by assumption.
  destruct (Ts.getHeadersCacheKeyJson _ _) as [h|e]; [|reflexivity].
  rewrite !bind_Ok, !obj_set_set_eq. reflexivity.
Qed.

Lemma X24_witness :
  let key_flags :=
    obj_set "headers" (VObj [("user-agent", VBool false)]) DEFAULT_KEY_FLAGS in
  let request := VRequest [] [("url", VStr "https://example.com/")] in
  Ts.getCacheKey key_flags request
    (VObj [("headers", VObj [("User-Agent", VStr "one"); ("accept", VStr "*/*")])])
  = Ts.getCacheKey key_flags request
      (VObj [("headers", VObj [("User-Agent", VStr "two"); ("accept", VStr "*/*")])]).
Proof.
  intros key_flags request.
  apply (X24_a_header_switched_off_is_no_part_of_the_key key_flags
           [("user-agent", VBool false)] request [("headers", VNull)] []
           [("accept", VStr "*/*")] "User-Agent" (VStr "one") (VStr "two"));
    reflexivity.
Defined.

(** ** The key flags from one construction to the next *)





(** ** The text that is hashed *)

(** X26.  Two calls with a URL string and a method get the same text to
    hash only when the URLs are the same and the methods are the same:
    no URL or method, whatever characters it holds, reads as another in
    that text. *)
Theorem X26_urls_and_methods_are_told_apart (key_flags : props) (u1 u2 m1 m2 : string) :
  exists j1 j2,
    Cjs.getCacheKeyJson key_flags (VStr u1) (VObj [("method", VStr m1)]) = Ok j1
    /\ Cjs.getCacheKeyJson key_flags (VStr u2) (VObj [("method", VStr m2)]) = Ok j2
    /\ (JSON_stringify j1 = JSON_stringify j2 <-> u1 = u2 /\ m1 = m2).
Proof.
  do 2 eexists. split; [reflexivity|]. split; [reflexivity|].
  set (shape := fun u m =>
         VArr [ VObj [("url", VStr u)];
                VObj [("method", VStr m); ("headers", VObj [])];
                VNum CACHE_VERSION ]).
  assert (forall u m, JSON_parse (JSON_stringify (shape u m)) = Some (shape u m)) as Hback.
  { intros u m. apply JSON_parse_stringify. reflexivity. }
  change (JSON_stringify (shape u1 m1) = JSON_stringify (shape u2 m2)
          <-> u1 = u2 /\ m1 = m2).
  split.
  - intros Htext. pose proof (Hback u1 m1) as H1. rewrite Htext, Hback in H1.
    injection H1 as -> ->. split; reflexivity.
  - intros [-> ->]. reflexivity.
Qed.

(** ** The states a [MemoryCache] goes through *)

(** The states of a [MemoryCache] built with [ttl]: the one the
    constructor leaves, and those [set], [remove] and the passing of time
    make of them. *)
Inductive reachable (ttl : value) : MemoryCache.t -> Prop :=
| reach_new (node : Platform) (now : Z) : reachable ttl (MemoryCache.new node ttl now)
| reach_set (this : MemoryCache.t) (key : string) (bodyStream : Stream)
    (metaData : value) :
    reachable ttl this ->
    reachable ttl (fst (MemoryCache.set key bodyStream metaData this))
| reach_remove (this : MemoryCache.t) (key : string) :
    reachable ttl this -> reachable ttl (MemoryCache.remove key this)
| reach_elapse (this : MemoryCache.t) (ms : Z) :
    reachable ttl this -> 0 <= ms -> reachable ttl (MemoryCache.elapse ms this).

Definition handles (this : MemoryCache.t) : gmap string nat :=
  MemoryCache.timeoutHandleForKey (MemoryCache.keyTimeout this).

Definition timers_of (this : MemoryCache.t) : list timer :=
  pending (MemoryCache.loop this).

(** What holds of every such state as long as no [set] was given the key
    [__proto__]: the two objects have their first prototype and no
    property [__proto__] of their own; the pending timers are those on
    record, one a key at most; no handle is on record for two keys, nor
    one that is yet to be handed out; a timer is pending for cached
    entries only, and, when [ttl] is a number, for each of them; when it
    is not, no timer is pending at all. *)
Record sound (this : MemoryCache.t) : Prop := mkSound {
  sound_registered : registered this = true;
  sound_own : MemoryCache.cache this !! "__proto__" = None;
  sound_keys : NoDup (callback <$> timers_of this);
  sound_handles :
    forall k k' h, handles this !! k = Some h -> handles this !! k' = Some h -> k = k';
  sound_bound :
    forall k h, handles this !! k = Some h ->
                (h < next_handle (MemoryCache.loop this))%nat;
  sound_entries :
    forall x, x ∈ timers_of this -> is_Some (MemoryCache.cache this !! callback x);
  sound_timers :
    forall ms k, MemoryCache.ttl this = VNum ms ->
                 is_Some (MemoryCache.cache this !! k) ->
                 exists x, x ∈ timers_of this /\ callback x = k;
  sound_no_ttl :
    (forall ms, MemoryCache.ttl this <> VNum ms) -> timers_of this = [];
}.

Lemma sound_plain (this : MemoryCache.t) : sound this -> MemoryCache.plain this = true.
Proof. intros Hs. apply registered_plain, (sound_registered _ Hs). Qed.

Lemma sound_timer (this : MemoryCache.t) (x : timer) :
  sound this -> x ∈ timers_of this ->
  callback x <> "__proto__" /\ handles this !! callback x = Some (handle x).
Proof.
  intros Hs Hx.
  destruct (proj1 (registered_spec this) (sound_registered _ Hs)) as [_ Hall].
  destruct (Hall x Hx) as (Hp & Hh & _). split; assumption.
Qed.

Lemma sound_handle (this : MemoryCache.t) (x : timer) :
  sound this -> x ∈ timers_of this -> handles this !! callback x = Some (handle x).
Proof. intros Hs Hx. apply sound_timer; assumption. Qed.

(** [clearTimeout] on what [timeoutHandleForKey] has for a key takes away
    the timers of that key, and no other. *)
Lemma cleared_elem (this : MemoryCache.t) (key : string) (y : timer) :
  sound this ->
  y ∈ pending (clearTimeout (MemoryCache.handle_of key this) (MemoryCache.loop this))
  <-> y ∈ timers_of this /\ callback y <> key.
Proof.
  intros Hs. rewrite clearTimeout_elem, handle_of_plain by (apply sound_plain, Hs).
  fold (timers_of this). fold (handles this).
  destruct (String.eqb_spec key "__proto__") as [->|Hkey].
  - split; (intros [Hy _]; split; [exact Hy|]); [|discriminate].
    apply (sound_timer this y Hs Hy).
  - split.
    + intros [Hy Hne]. split; [exact Hy|]. intros <-.
      apply Hne. apply sound_handle; assumption.
    + intros [Hy Hne]. split; [exact Hy|]. intros Hh. apply Hne.
      symmetry. eapply (sound_handles _ Hs); [exact Hh|]. apply sound_handle; assumption.
Qed.

Lemma cleared_sublist (h : option nat) (t : timers) :
  pending (clearTimeout h t) `sublist_of` pending t.
Proof. destruct h; cbn [clearTimeout pending]; [apply sublist_filter|reflexivity]. Qed.

Lemma fired_elem (this : MemoryCache.t) (x y : timer) :
  sound this -> x ∈ timers_of this ->
  y ∈ timers_of (MemoryCache.fire x this)
  <-> y ∈ timers_of this /\ callback y <> callback x.
Proof.
  intros Hs Hx. unfold timers_of at 1.
  rewrite fire_elem by (apply sound_plain, Hs || apply (sound_timer this x Hs Hx)).
  fold (timers_of this). fold (handles this).
  rewrite (sound_handle this x Hs Hx). split.
  - intros (Hy & Hne & _). split; [exact Hy|]. intros E. apply Hne.
    pose proof (sound_handle this y Hs Hy) as Hh. rewrite E in Hh.
    rewrite (sound_handle this x Hs Hx) in Hh. congruence.
  - intros [Hy Hne]. split; [exact Hy|].
    assert (handle y <> handle x) as Hh.
    { intros E. apply Hne. eapply (sound_handles _ Hs).
      - apply sound_handle; eassumption.
      - rewrite E. apply sound_handle; assumption. }
    split; [exact Hh|congruence].
Qed.

Lemma fired_sublist (this : MemoryCache.t) (x : timer) :
  timers_of (MemoryCache.fire x this) `sublist_of` timers_of this.
Proof.
  unfold timers_of, MemoryCache.fire, MemoryCache.remove,
    MemoryCache.KeyTimeout_clearTimeout.
  cbn [MemoryCache.loop MemoryCache.keyTimeout MemoryCache.cache MemoryCache.ttl].
  etransitivity; [apply cleared_sublist|]. cbn [pending]. apply sublist_filter.
Qed.

(** A step that takes away the timers and the entry of one key. *)
Lemma sound_drop (this this' : MemoryCache.t) (key : string) :
  sound this ->
  (forall y, y ∈ timers_of this' <-> y ∈ timers_of this /\ callback y <> key) ->
  timers_of this' `sublist_of` timers_of this ->
  MemoryCache.cache this' = delete key (MemoryCache.cache this) ->
  handles this' = handles this ->
  next_handle (MemoryCache.loop this') = next_handle (MemoryCache.loop this) ->
  MemoryCache.ttl this' = MemoryCache.ttl this ->
  MemoryCache.plain this' = MemoryCache.plain this ->
  sound this'.
Proof.
  intros Hs Helem Hsub Hcache Hhandles Hnext Httl Hplain. constructor.
  - apply registered_spec. split; [rewrite Hplain; apply sound_plain, Hs|].
    intros y Hy. apply Helem in Hy as [Hy _].
    fold (handles this'). rewrite Hhandles, Hnext.
    destruct (proj1 (registered_spec this) (sound_registered _ Hs)) as [_ Hall].
    exact (Hall y Hy).
  - rewrite Hcache. apply lookup_delete_None. right. apply (sound_own _ Hs).
  - eapply sublist_NoDup; [apply (sound_keys _ Hs)|]. apply fmap_sublist, Hsub.
  - rewrite Hhandles. apply (sound_handles _ Hs).
  - rewrite Hhandles, Hnext. apply (sound_bound _ Hs).
  - intros y Hy. apply Helem in Hy as [Hy Hne]. rewrite Hcache.
    rewrite lookup_delete_ne by congruence. apply (sound_entries _ Hs), Hy.
  - intros ms k Hnum. rewrite Hcache. intros Hk.
    destruct (decide (key = k)) as [->|Hne].
    { rewrite lookup_delete_eq in Hk. destruct Hk; discriminate. }
    rewrite lookup_delete_ne in Hk by exact Hne. rewrite Httl in Hnum.
    destruct (sound_timers _ Hs ms k Hnum Hk) as (x & Hx & Hcb).
    exists x. split; [|exact Hcb]. apply Helem. split; [exact Hx|congruence].
  - intros Hno. rewrite Httl in Hno. pose proof (sound_no_ttl _ Hs Hno) as Hnil.
    rewrite Hnil in Hsub. apply sublist_nil_r in Hsub. exact Hsub.
Qed.

Lemma sound_remove (this : MemoryCache.t) (key : string) :
  sound this -> sound (MemoryCache.remove key this).
Proof.
  intros Hs. apply (sound_drop this _ key Hs).
  - intros y. apply (cleared_elem this key y Hs).
  - apply cleared_sublist.
  - unfold MemoryCache.remove. cbn [MemoryCache.cache MemoryCache.KeyTimeout_clearTimeout].
    destruct (String.eqb_spec key "__proto__") as [->|]; [|reflexivity].
    symmetry. apply delete_id, (sound_own _ Hs).
  - reflexivity.
  - apply clearTimeout_now.
  - reflexivity.
  - reflexivity.
Qed.

Lemma sound_fire (this : MemoryCache.t) (x : timer) :
  sound this -> x ∈ timers_of this -> sound (MemoryCache.fire x this).
Proof.
  intros Hs Hx. destruct (fire_state x this) as (Hc & Hk & Ht & _ & Hn & _).
  destruct (sound_timer this x Hs Hx) as [Hp _]. apply String.eqb_neq in Hp.
  rewrite Hp in Hc.
  apply (sound_drop this _ (callback x) Hs).
  - intros y. apply fired_elem; assumption.
  - apply fired_sublist.
  - exact Hc.
  - unfold handles. rewrite Hk. reflexivity.
  - exact Hn.
  - exact Ht.
  - apply fire_plain.
Qed.

Lemma sound_run_timers (fuel : nat) (limit : Z) (this : MemoryCache.t) :
  sound this -> sound (MemoryCache.run_timers fuel limit this).
Proof.
  revert this. induction fuel as [|fuel IH]; intros this Hs; cbn [MemoryCache.run_timers];
    [exact Hs|].
  destruct (next_due limit _) as [x|] eqn:Hnext; [|exact Hs].
  apply IH, sound_fire; [exact Hs|]. apply (next_due_Some _ _ _ Hnext).
Qed.

Lemma sound_elapse (ms : Z) (this : MemoryCache.t) :
  sound this -> sound (MemoryCache.elapse ms this).
Proof.
  intros Hs.
  pose proof (sound_run_timers (length (pending (MemoryCache.loop this)))
                (now (MemoryCache.loop this) + ms) this Hs)
    as [H1 H2 H3 H4 H5 H6 H7 H8].
  unfold MemoryCache.elapse. constructor; assumption.
Qed.

Lemma sound_new (node : Platform) (ttl : value) (now : Z) :
  sound (MemoryCache.new node ttl now).
Proof.
  constructor; cbn; try reflexivity.
  - constructor.
  - intros k k' h H. rewrite lookup_empty in H. discriminate.
  - intros k h H. rewrite lookup_empty in H. discriminate.
  - intros x Hx. inversion Hx.
  - intros ms k _ [e H]. rewrite lookup_empty in H. discriminate.
Qed.

(** The state a [set] leaves when [ttl] is no number and the key is not
    [__proto__]. *)
Lemma MemoryCache_set_without_ttl (key : string) (bodyStream : Stream) (metaData : value)
  (this : MemoryCache.t) :
  failure bodyStream = None ->
  (forall ms, MemoryCache.ttl this <> VNum ms) ->
  key <> "__proto__" ->
  fst (MemoryCache.set key bodyStream metaData this)
  = {| MemoryCache.ttl := MemoryCache.ttl this;
       MemoryCache.keyTimeout := MemoryCache.keyTimeout this;
       MemoryCache.cache :=
         <[ key := MemoryCache.mkEntry (contents bodyStream) metaData ]>
           (MemoryCache.cache this);
       MemoryCache.cache_proto := MemoryCache.cache_proto this;
       MemoryCache.loop := MemoryCache.loop this;
       MemoryCache.node := MemoryCache.node this |}.
Proof.
  intros Hfinite Hno Hkey. apply String.eqb_neq in Hkey.
  unfold MemoryCache.set, streamToBuffer. rewrite Hfinite, Hkey.
  cbn [MemoryCache.ttl]. destruct (MemoryCache.ttl this) eqn:Httl; try reflexivity.
  exfalso. eapply Hno. reflexivity.
Qed.

Lemma MemoryCache_set_failed (key : string) (bodyStream : Stream) (metaData : value)
  (this : MemoryCache.t) (err : exn) :
  failure bodyStream = Some err ->
  MemoryCache.set key bodyStream metaData this = (this, Rejected err).
Proof.
  intros Hfailed. unfold MemoryCache.set, streamToBuffer. rewrite Hfailed. reflexivity.
Qed.

Lemma sound_set (key : string) (bodyStream : Stream) (metaData : value)
  (this : MemoryCache.t) :
  key <> "__proto__" ->
  sound this -> sound (fst (MemoryCache.set key bodyStream metaData this)).
Proof.
  intros Hkey Hs.
  destruct (failure bodyStream) as [err|] eqn:Hfinite.
  { rewrite (MemoryCache_set_failed _ _ _ _ err Hfinite). exact Hs. }
  assert ((exists ms, MemoryCache.ttl this = VNum ms)
          \/ forall ms, MemoryCache.ttl this <> VNum ms) as [[ms Httl]|Hno].
  { destruct (MemoryCache.ttl this); try (right; intros ms; discriminate).
    left. eexists. reflexivity. }
  - constructor.
    + apply set_registered; [exact Hkey|apply (sound_registered _ Hs)].
    + rewrite (MemoryCache_set_with_ttl key bodyStream metaData this ms Hfinite Httl Hkey).
      cbn [MemoryCache.cache]. rewrite lookup_insert_ne by exact Hkey.
      apply (sound_own _ Hs).
    + rewrite (MemoryCache_set_with_ttl key bodyStream metaData this ms Hfinite Httl Hkey).
      unfold timers_of. cbn [MemoryCache.loop pending]. rewrite fmap_app.
      apply NoDup_app. split; [|split].
      * eapply sublist_NoDup; [apply (sound_keys _ Hs)|].
        apply fmap_sublist, cleared_sublist.
      * intros k Hk Hin. apply list_elem_of_fmap in Hk as (y & -> & Hy).
        apply (cleared_elem this key y Hs) in Hy as [_ Hne].
        cbn in Hin. apply list_elem_of_singleton in Hin. contradiction.
      * cbn. apply NoDup_singleton.
    + rewrite (MemoryCache_set_with_ttl key bodyStream metaData this ms Hfinite Httl Hkey).
      unfold handles. cbn [MemoryCache.keyTimeout MemoryCache.timeoutHandleForKey].
      fold (handles this). intros k k' h.
      destruct (decide (key = k)) as [<-|Hk], (decide (key = k')) as [<-|Hk'];
        rewrite ?lookup_insert_eq, ?lookup_insert_ne by assumption.
      * reflexivity.
      * intros [= <-] H. apply (sound_bound _ Hs) in H. lia.
      * intros H [= <-]. apply (sound_bound _ Hs) in H. lia.
      * apply (sound_handles _ Hs).
    + rewrite (MemoryCache_set_with_ttl key bodyStream metaData this ms Hfinite Httl Hkey).
      unfold handles. cbn [MemoryCache.keyTimeout MemoryCache.timeoutHandleForKey
                           MemoryCache.loop next_handle].
      fold (handles this). intros k h.
      destruct (decide (key = k)) as [<-|Hk];
        rewrite ?lookup_insert_eq, ?lookup_insert_ne by assumption.
      * intros [= <-]. lia.
      * intros H. apply (sound_bound _ Hs) in H. lia.
    + rewrite (MemoryCache_set_with_ttl key bodyStream metaData this ms Hfinite Httl Hkey).
      unfold timers_of. cbn [MemoryCache.loop pending MemoryCache.cache].
      intros x Hx. apply elem_of_app in Hx as [Hx|Hx].
      * apply (cleared_elem this key x Hs) in Hx as [Hx Hne].
        rewrite lookup_insert_ne by congruence. apply (sound_entries _ Hs), Hx.
      * apply list_elem_of_singleton in Hx as ->. cbn [callback].
        rewrite lookup_insert_eq. eexists. reflexivity.
    + rewrite (MemoryCache_set_with_ttl key bodyStream metaData this ms Hfinite Httl Hkey).
      unfold timers_of. cbn [MemoryCache.loop pending MemoryCache.cache MemoryCache.ttl].
      intros ms' k _ Hk. destruct (decide (key = k)) as [<-|Hne].
      * eexists. split; [apply elem_of_app; right; left|reflexivity].
      * rewrite lookup_insert_ne in Hk by exact Hne.
        destruct (sound_timers _ Hs ms k Httl Hk) as (x & Hx & Hcb).
        exists x. split; [|exact Hcb]. apply elem_of_app. left.
        apply (cleared_elem this key x Hs). split; [exact Hx|congruence].
    + rewrite (MemoryCache_set_with_ttl key bodyStream metaData this ms Hfinite Httl Hkey).
      cbn [MemoryCache.ttl]. intros Hno. exfalso. eapply Hno. reflexivity.
  - rewrite (MemoryCache_set_without_ttl key bodyStream metaData this Hfinite Hno Hkey).
    pose proof (sound_no_ttl _ Hs Hno) as Hnil.
    destruct Hs as [H1 H2 H3 H4 H5 H6 H7 H8].
    constructor; try assumption.
    + cbn [MemoryCache.cache]. rewrite lookup_insert_ne by exact Hkey. exact H2.
    + unfold timers_of in *. cbn [MemoryCache.loop] in *. rewrite Hnil.
      intros x Hx. inversion Hx.
    + cbn [MemoryCache.ttl]. intros ms k Httl. exfalso. eapply Hno. exact Httl.
Qed.

Lemma ttl_set (key : string) (bodyStream : Stream) (metaData : value)
  (this : MemoryCache.t) :
  MemoryCache.ttl (fst (MemoryCache.set key bodyStream metaData this))
  = MemoryCache.ttl this.
Proof.
  unfold MemoryCache.set. destruct (streamToBuffer bodyStream); try reflexivity.
  cbn [MemoryCache.ttl fst]. destruct (MemoryCache.ttl this); reflexivity.
Qed.

(** A prototype that was replaced stays replaced: a state whose objects
    have their first prototype comes from such a state, by a [set] that
    failed or was given another key than [__proto__]. *)
Lemma set_plain (key : string) (bodyStream : Stream) (metaData : value)
  (this : MemoryCache.t) :
  MemoryCache.plain (fst (MemoryCache.set key bodyStream metaData this)) = true ->
  MemoryCache.plain this = true
  /\ (failure bodyStream = None -> key <> "__proto__").
Proof.
  unfold MemoryCache.set, streamToBuffer.
  destruct (failure bodyStream) as [err|]; [intros H; split; [exact H|discriminate]|].
  cbn [MemoryCache.ttl fst].
  destruct (String.eqb_spec key "__proto__") as [->|Hkey].
  - destruct (MemoryCache.ttl this); cbn; discriminate.
  - intros H. split; [|intros _; exact Hkey].
    apply String.eqb_neq in Hkey.
    destruct (MemoryCache.ttl this); try exact H.
    revert H. unfold MemoryCache.plain, MemoryCache.KeyTimeout_updateTimeout.
    cbn. rewrite Hkey. cbn. auto.
Qed.

Lemma reachable_sound (ttl : value) (this : MemoryCache.t) :
  reachable ttl this ->
  MemoryCache.ttl this = ttl /\ (MemoryCache.plain this = true -> sound this).
Proof.
  induction 1 as [node now|this key bodyStream metaData _ [IHt IHs]
                 |this key _ [IHt IHs]|this ms _ [IHt IHs] _].
  - split; [reflexivity|intros _; apply sound_new].
  - split; [rewrite ttl_set; exact IHt|]. intros Hplain.
    apply set_plain in Hplain as [Hplain Hkey].
    destruct (failure bodyStream) as [err|] eqn:Hfinite.
    + rewrite (MemoryCache_set_failed _ _ _ _ err Hfinite). apply IHs, Hplain.
    + apply sound_set; [apply Hkey; reflexivity|apply IHs, Hplain].
  - split; [exact IHt|]. intros Hplain. apply sound_remove, IHs, Hplain.
  - split; [rewrite elapse_ttl; exact IHt|]. intros Hplain.
    apply sound_elapse, IHs. rewrite <- Hplain. symmetry.
    apply (run_timers_proto (length (pending (MemoryCache.loop this)))
             (now (MemoryCache.loop this) + ms) this).
Qed.

(** Without a numeric [ttl] no timer is ever armed, whatever the keys. *)
Lemma reachable_idle (ttl : value) (this : MemoryCache.t) :
  reachable ttl this ->
  (forall ms, ttl <> VNum ms) ->
  timers_of this = [].
Proof.
  intros Hreach Hno.
  induction Hreach as [node now|this key bodyStream metaData Hreach IH
                      |this key Hreach IH|this ms Hreach IH _].
  - reflexivity.
  - destruct (reachable_sound ttl this Hreach) as [Httl _].
    unfold timers_of, MemoryCache.set in *.
    destruct (streamToBuffer bodyStream); [|exact IH..].
    cbn [MemoryCache.ttl fst]. rewrite Httl.
    destruct ttl; try exact IH. exfalso. eapply Hno. reflexivity.
  - unfold timers_of, MemoryCache.remove, MemoryCache.KeyTimeout_clearTimeout in *.
    cbn [MemoryCache.loop]. apply sublist_nil_r. rewrite <- IH. apply cleared_sublist.
  - unfold timers_of, MemoryCache.elapse in *. rewrite IH.
    cbn [length MemoryCache.run_timers MemoryCache.loop pending]. exact IH.
Qed.

Lemma NoDup_fmap_same {A B : Type} (f : A -> B) (l : list A) (x y : A) :
  NoDup (f <$> l) -> x ∈ l -> y ∈ l -> f x = f y -> x = y.
Proof.
  induction l as [|a l IH]; intros Hnd Hx Hy Hf; [inversion Hx|].
  rewrite fmap_cons in Hnd. apply NoDup_cons in Hnd as [Ha Hnd].
  apply elem_of_cons in Hx as [->|Hx], Hy as [->|Hy].
  - reflexivity.
  - exfalso. apply Ha. rewrite Hf. apply list_elem_of_fmap. eauto.
  - exfalso. apply Ha. rewrite <- Hf. apply list_elem_of_fmap. eauto.
  - apply IH; assumption.
Qed.

(** Among timers of which no two have the same key, the timers of a key
    are the one there is. *)
Lemma timers_of_key (l : list timer) (x : timer) :
  NoDup (callback <$> l) -> x ∈ l ->
  filter (fun y => callback y = callback x) l = [x].
Proof.
  induction l as [|a l IH]; intros Hnd Hx; [inversion Hx|].
  rewrite fmap_cons in Hnd. apply NoDup_cons in Hnd as [Ha Hnd].
  apply elem_of_cons in Hx as [->|Hx].
  - rewrite filter_cons_True by reflexivity. f_equal. apply filter_none.
    intros y Hy Hk. apply Ha. rewrite <- Hk. apply list_elem_of_fmap. eauto.
  - rewrite filter_cons_False; [apply IH; assumption|].
    intros Hk. apply Ha. rewrite Hk. apply list_elem_of_fmap. eauto.
Qed.

Lemma filter_filter_same {A : Type} (P Q : A -> Prop)
  `{!forall x, Decision (P x)} `{!forall x, Decision (Q x)} (l : list A) :
  (forall x, x ∈ l -> P x -> Q x) -> filter P (filter Q l) = filter P l.
Proof.
  induction l as [|a l IH]; intros Himp; [reflexivity|].
  assert (filter P (filter Q l) = filter P l) as IH'.
  { apply IH. intros x Hx. apply Himp. right. exact Hx. }
  destruct (decide (Q a)) as [Hq|Hq].
  - rewrite (filter_cons_True Q) by exact Hq.
    destruct (decide (P a)) as [Hp|Hp].
    + rewrite !(filter_cons_True P) by exact Hp. rewrite IH'. reflexivity.
    + rewrite !(filter_cons_False P) by exact Hp. exact IH'.
  - rewrite (filter_cons_False Q) by exact Hq.
    rewrite (filter_cons_False P); [exact IH'|].
    intros Hp. apply Hq, Himp; [left|exact Hp].
Qed.

(** The timers of a key other than the one [clearTimeout] is asked
    for stay. *)
Lemma cleared_other (this : MemoryCache.t) (key k : string) :
  sound this -> k <> key ->
  filter (fun y => callback y = k)
    (pending (clearTimeout (MemoryCache.handle_of key this) (MemoryCache.loop this)))
  = filter (fun y => callback y = k) (timers_of this).
Proof.
  intros Hs Hne. rewrite handle_of_plain by (apply sound_plain, Hs).
  destruct (String.eqb key "__proto__"); [reflexivity|].
  fold (handles this). destruct (handles this !! key) as [h|] eqn:Hh; [|reflexivity].
  cbn [clearTimeout pending]. apply filter_filter_same.
  intros x Hx Hk Hhandle. apply Hne. rewrite <- Hk.
  eapply (sound_handles _ Hs); [|exact Hh]. rewrite <- Hhandle.
  apply sound_handle; assumption.
Qed.

(** X10.  As long as no [set] was given the key [__proto__], in every
    state of a [MemoryCache] with a numeric [ttl] each cached entry has
    one pending removal timer and only one, a key without an entry has
    none, and no two pending timers have the same handle.  With a [ttl]
    that is no number (a string of digits, say) no timer is ever
    pending. *)
Theorem X10_one_timer_for_each_entry (ttl : value) (this : MemoryCache.t) :
  reachable ttl this ->
  MemoryCache.plain this = true ->
  (forall ms k, ttl = VNum ms ->
     match MemoryCache.cache this !! k with
     | Some _ =>
         exists x, filter (fun y => callback y = k) (timers_of this) = [x]
     | None => filter (fun y => callback y = k) (timers_of this) = []
     end)
  /\ NoDup (handle <$> timers_of this)
  /\ ((forall ms, ttl <> VNum ms) -> timers_of this = []).
Proof.
  intros Hreach Hplain. destruct (reachable_sound ttl this Hreach) as [Httl Hs].
  specialize (Hs Hplain).
  split; [|split].
  - intros ms k ->. destruct (MemoryCache.cache this !! k) as [e|] eqn:Hk.
    + destruct (sound_timers _ Hs ms k Httl) as (x & Hx & <-).
      { rewrite Hk. eexists. reflexivity. }
      exists x. apply timers_of_key; [apply (sound_keys _ Hs)|exact Hx].
    + apply filter_none. intros x Hx Hcb.
      destruct (sound_entries _ Hs x Hx) as [e He]. congruence.
  - apply NoDup_fmap_2_strong; [|apply (NoDup_fmap_1 callback), (sound_keys _ Hs)].
    intros x y Hx Hy Hh. apply (NoDup_fmap_same callback (timers_of this));
      [apply (sound_keys _ Hs)|exact Hx|exact Hy|].
    eapply (sound_handles _ Hs); [apply sound_handle; eassumption|].
    rewrite Hh. apply sound_handle; assumption.
  - intros Hno. apply (sound_no_ttl _ Hs). rewrite Httl. exact Hno.
Qed.

(** [get] of a key reads the property of that name, the prototype of
    [cache], and nothing else of the state. *)
Lemma get_ext (k : string) (this this' : MemoryCache.t) :
  MemoryCache.cache this' !! k = MemoryCache.cache this !! k ->
  MemoryCache.cache_proto this' = MemoryCache.cache_proto this ->
  MemoryCache.node this' = MemoryCache.node this ->
  MemoryCache.get k this' = MemoryCache.get k this.
Proof.
  intros Hk Hproto Hnode. unfold MemoryCache.get, MemoryCache.lookup.
  rewrite Hk, Hproto, Hnode. reflexivity.
Qed.

Lemma run_timers_node (fuel : nat) (limit : Z) (this : MemoryCache.t) :
  MemoryCache.node (MemoryCache.run_timers fuel limit this) = MemoryCache.node this.
Proof.
  revert this. induction fuel as [|fuel IH]; intros this; cbn [MemoryCache.run_timers];
    [reflexivity|].
  destruct (next_due limit _) as [x|]; [|reflexivity].
  rewrite IH. apply (fire_state x this).
Qed.

(** The entry that a key with a pending timer has goes when that timer
    is due, and not before. *)
Lemma own_lifetime (this : MemoryCache.t) (x : timer) (ms : Z) :
  sound this -> x ∈ timers_of this ->
  MemoryCache.cache (MemoryCache.elapse ms this) !! callback x
  = if due x <=? now (MemoryCache.loop this) + ms then None
    else MemoryCache.cache this !! callback x.
Proof.
  intros Hs Hx. unfold MemoryCache.elapse. cbn [MemoryCache.cache].
  destruct (due x <=? now (MemoryCache.loop this) + ms) eqn:Hdue.
  - apply Z.leb_le in Hdue.
    rewrite (run_timers_removes (callback x) _ _ this x); auto.
    + apply (sound_registered _ Hs).
    + intros y Hy Hh. eapply (sound_handles _ Hs).
      * apply (sound_handle this y Hs Hy).
      * rewrite Hh. apply (sound_handle this x Hs Hx).
  - apply Z.leb_gt in Hdue. rewrite run_timers_keeps; [reflexivity|].
    intros y Hy Hcb.
    rewrite (NoDup_fmap_same callback (timers_of this) y x (sound_keys _ Hs) Hy Hx Hcb).
    exact Hdue.
Qed.

Lemma sound_lifetime (this : MemoryCache.t) (x : timer) (ms : Z) :
  sound this -> x ∈ timers_of this ->
  MemoryCache.ordinary (callback x) = true ->
  MemoryCache.get (callback x) (MemoryCache.elapse ms this)
  = if due x <=? now (MemoryCache.loop this) + ms then Ok None
    else MemoryCache.get (callback x) this.
Proof.
  intros Hs Hx Hordinary.
  rewrite !get_plain by (try exact Hordinary; apply sound_plain;
                         try apply sound_elapse; exact Hs).
  rewrite own_lifetime by assumption.
  destruct (due x <=? now (MemoryCache.loop this) + ms); reflexivity.
Qed.

Lemma sound_no_timer (this : MemoryCache.t) (k : string) (ms : Z) :
  (forall x, x ∈ timers_of this -> callback x <> k) ->
  MemoryCache.get k (MemoryCache.elapse ms this) = MemoryCache.get k this.
Proof.
  intros Hnone. rewrite get_elapse. apply get_ext.
  - apply run_timers_keeps. intros x Hx Hcb. destruct (Hnone x Hx Hcb).
  - apply run_timers_proto.
  - apply run_timers_node.
Qed.

(** X11.  As long as no [set] was given the key [__proto__]: when time
    passes, the entry of an ordinary key with a pending timer is removed
    once that timer is due and is there until then, whatever other timers
    are pending; what [get] gives for a key without a timer stays. *)
Theorem X11_an_entry_goes_when_its_timer_is_due (ttl : value) (this : MemoryCache.t)
  (k : string) (ms : Z) :
  reachable ttl this ->
  MemoryCache.plain this = true ->
  (MemoryCache.ordinary k = true ->
   forall x, x ∈ timers_of this -> callback x = k ->
     MemoryCache.get k (MemoryCache.elapse ms this)
     = if due x <=? now (MemoryCache.loop this) + ms then Ok None
       else MemoryCache.get k this)
  /\ ((forall x, x ∈ timers_of this -> callback x <> k) ->
      MemoryCache.get k (MemoryCache.elapse ms this) = MemoryCache.get k this).
Proof.
  intros Hreach Hplain. destruct (reachable_sound ttl this Hreach) as [_ Hs].
  specialize (Hs Hplain). split.
  - intros Hordinary x Hx <-. apply sound_lifetime; assumption.
  - apply sound_no_timer.
Qed.

(** What [set] and [remove] of one key leave of another. *)
Lemma set_other_own (key k : string) (bodyStream : Stream) (metaData : value)
  (this : MemoryCache.t) :
  k <> key -> key <> "__proto__" ->
  MemoryCache.cache (fst (MemoryCache.set key bodyStream metaData this)) !! k
  = MemoryCache.cache this !! k
  /\ MemoryCache.cache_proto (fst (MemoryCache.set key bodyStream metaData this))
     = MemoryCache.cache_proto this
  /\ MemoryCache.node (fst (MemoryCache.set key bodyStream metaData this))
     = MemoryCache.node this.
Proof.
  intros Hne Hkey. apply String.eqb_neq in Hkey.
  unfold MemoryCache.set. destruct (streamToBuffer bodyStream);
    [|repeat split; reflexivity..].
  cbn [MemoryCache.ttl fst]. rewrite Hkey.
  destruct (MemoryCache.ttl this);
    unfold MemoryCache.KeyTimeout_updateTimeout; cbn;
    rewrite lookup_insert_ne by congruence; repeat split; reflexivity.
Qed.

Lemma sound_set_other (this : MemoryCache.t) (key k : string) (bodyStream : Stream)
  (metaData : value) :
  sound this -> k <> key -> key <> "__proto__" ->
  MemoryCache.get k (fst (MemoryCache.set key bodyStream metaData this))
  = MemoryCache.get k this
  /\ filter (fun y => callback y = k)
       (timers_of (fst (MemoryCache.set key bodyStream metaData this)))
     = filter (fun y => callback y = k) (timers_of this).
Proof.
  intros Hs Hne Hkey. split.
  { destruct (set_other_own key k bodyStream metaData this Hne Hkey) as (H1 & H2 & H3).
    apply get_ext; assumption. }
  destruct (failure bodyStream) as [err|] eqn:Hfinite.
  { rewrite (MemoryCache_set_failed _ _ _ _ err Hfinite). reflexivity. }
  assert ((exists ms, MemoryCache.ttl this = VNum ms)
          \/ forall ms, MemoryCache.ttl this <> VNum ms) as [[ms Httl]|Hno].
  { destruct (MemoryCache.ttl this); try (right; intros ms; discriminate).
    left. eexists. reflexivity. }
  - rewrite (MemoryCache_set_with_ttl key bodyStream metaData this ms Hfinite Httl Hkey).
    unfold timers_of at 1. cbn [MemoryCache.loop pending].
    rewrite filter_app, filter_cons_False, filter_nil, app_nil_r
      by (cbn [callback]; congruence).
    apply cleared_other; assumption.
  - rewrite (MemoryCache_set_without_ttl key bodyStream metaData this Hfinite Hno Hkey).
    reflexivity.
Qed.

Lemma sound_remove_other (this : MemoryCache.t) (key k : string) :
  sound this -> k <> key ->
  MemoryCache.get k (MemoryCache.remove key this) = MemoryCache.get k this
  /\ filter (fun y => callback y = k) (timers_of (MemoryCache.remove key this))
     = filter (fun y => callback y = k) (timers_of this).
Proof.
  intros Hs Hne. split.
  - apply get_ext; try reflexivity.
    unfold MemoryCache.remove. cbn [MemoryCache.cache MemoryCache.KeyTimeout_clearTimeout].
    destruct (String.eqb key "__proto__"); [reflexivity|].
    apply lookup_delete_ne. congruence.
  - apply cleared_other; assumption.
Qed.

(** X12.  As long as no [set] was given the key [__proto__], [set] and
    [remove] of one key, not [__proto__], leave what [get] gives for
    every other key, and the timer pending for it, as they were. *)
Theorem X12_other_keys_are_left_alone (ttl : value) (this : MemoryCache.t)
  (key k : string) (bodyStream : Stream) (metaData : value) :
  reachable ttl this ->
  MemoryCache.plain this = true ->
  key <> "__proto__" ->
  k <> key ->
  (MemoryCache.get k (fst (MemoryCache.set key bodyStream metaData this))
   = MemoryCache.get k this
   /\ filter (fun y => callback y = k)
        (timers_of (fst (MemoryCache.set key bodyStream metaData this)))
      = filter (fun y => callback y = k) (timers_of this))
  /\ (MemoryCache.get k (MemoryCache.remove key this) = MemoryCache.get k this
      /\ filter (fun y => callback y = k) (timers_of (MemoryCache.remove key this))
         = filter (fun y => callback y = k) (timers_of this)).
Proof.
  intros Hreach Hplain Hkey Hne. destruct (reachable_sound ttl this Hreach) as [_ Hs].
  specialize (Hs Hplain). split.
  - apply sound_set_other; assumption.
  - apply sound_remove_other; assumption.
Qed.

(** X13.  As long as no [set] was given the key [__proto__], [remove]
    deletes the entry of an ordinary key and cancels the timer pending
    for it: the key has no entry afterwards, at no later time, and no
    timer. *)
Theorem X13_remove_deletes_entry_and_timer (ttl : value) (this : MemoryCache.t)
  (key : string) (ms : Z) :
  reachable ttl this ->
  MemoryCache.plain this = true ->
  MemoryCache.ordinary key = true ->
  MemoryCache.get key (MemoryCache.remove key this) = Ok None
  /\ MemoryCache.get key (MemoryCache.elapse ms (MemoryCache.remove key this)) = Ok None
  /\ filter (fun y => callback y = key) (timers_of (MemoryCache.remove key this)) = [].
Proof.
  intros Hreach Hplain Hordinary. destruct (reachable_sound ttl this Hreach) as [_ Hs].
  specialize (Hs Hplain).
  pose proof (sound_remove this key Hs) as Hs'.
  assert (MemoryCache.cache (MemoryCache.remove key this) !! key = None) as Hgone.
  { unfold MemoryCache.remove. cbn [MemoryCache.cache MemoryCache.KeyTimeout_clearTimeout].
    pose proof (ordinary_not_proto key Hordinary) as Hkey.
    apply String.eqb_neq in Hkey. rewrite Hkey. apply lookup_delete_eq. }
  split; [|split].
  - rewrite get_plain by (try exact Hordinary; apply sound_plain, Hs').
    rewrite Hgone. reflexivity.
  - rewrite get_plain by (try exact Hordinary; apply sound_plain, sound_elapse, Hs').
    unfold MemoryCache.elapse at 1. cbn [MemoryCache.cache].
    rewrite run_timers_absent by exact Hgone. reflexivity.
  - apply filter_none. intros x Hx. apply (cleared_elem this key x Hs) in Hx as [_ Hne].
    exact Hne.
Qed.

(** X14.  With a [ttl] that is no number no entry ever expires. *)
Theorem X14_no_expiry_without_a_numeric_ttl (ttl : value) (this : MemoryCache.t)
  (k : string) (ms : Z) :
  reachable ttl this ->
  (forall n, ttl <> VNum n) ->
  MemoryCache.get k (MemoryCache.elapse ms this) = MemoryCache.get k this.
Proof.
  intros Hreach Hno. apply sound_no_timer.
  rewrite (reachable_idle ttl this Hreach Hno).
  intros x Hx. inversion Hx.
Qed.

Lemma run_timers_now (fuel : nat) (limit : Z) (this : MemoryCache.t) :
  now (MemoryCache.loop (MemoryCache.run_timers fuel limit this))
  = now (MemoryCache.loop this).
Proof.
  revert this. induction fuel as [|fuel IH]; intros this; cbn [MemoryCache.run_timers];
    [reflexivity|].
  destruct (next_due limit _) as [x|]; [|reflexivity].
  rewrite IH. apply (fire_state x this).
Qed.

Lemma elapse_now (ms : Z) (this : MemoryCache.t) :
  now (MemoryCache.loop (MemoryCache.elapse ms this)) = now (MemoryCache.loop this) + ms.
Proof.
  unfold MemoryCache.elapse. cbn [MemoryCache.loop now]. rewrite run_timers_now.
  reflexivity.
Qed.

Lemma set_now (key : string) (bodyStream : Stream) (metaData : value)
  (this : MemoryCache.t) :
  now (MemoryCache.loop (fst (MemoryCache.set key bodyStream metaData this)))
  = now (MemoryCache.loop this).
Proof.
  unfold MemoryCache.set. destruct (streamToBuffer bodyStream); try reflexivity.
  cbn [MemoryCache.ttl fst]. destruct (MemoryCache.ttl this); try reflexivity.
  unfold MemoryCache.KeyTimeout_updateTimeout, MemoryCache.KeyTimeout_clearTimeout,
    setTimeout.
  cbn [MemoryCache.loop MemoryCache.keyTimeout MemoryCache.cache MemoryCache.ttl fst now].
  apply clearTimeout_now.
Qed.

(** A timer that is not due stays pending while the others fire. *)
Lemma run_timers_keeps_timer (fuel : nat) (limit : Z) (this : MemoryCache.t) (x : timer) :
  sound this -> x ∈ timers_of this -> limit < due x ->
  x ∈ timers_of (MemoryCache.run_timers fuel limit this).
Proof.
  revert this. induction fuel as [|fuel IH]; intros this Hs Hx Hdue;
    cbn [MemoryCache.run_timers]; [exact Hx|].
  destruct (next_due limit _) as [y|] eqn:Hnext; [|exact Hx].
  apply next_due_Some in Hnext as [Hy Hydue].
  apply IH; [apply sound_fire; assumption| |exact Hdue].
  apply fired_elem; [assumption..|]. split; [exact Hx|]. intros Hcb.
  rewrite (NoDup_fmap_same callback (timers_of this) x y (sound_keys _ Hs) Hx Hy Hcb)
    in Hdue. lia.
Qed.

(** X15.  As long as no [set] was given the key [__proto__], the time an
    entry stays is counted from its own [set]: let an entry be set under
    an ordinary key, [d] milliseconds pass, and another key be set; then,
    [ms] milliseconds later, the entry is there when [d + ms] is less than
    the delay of its timer, and gone otherwise. *)
Theorem X15_a_set_of_another_key_does_not_renew (ttl : Z) (this : MemoryCache.t)
  (k k' : string) (body body' : Stream) (meta meta' : value) (d ms : Z) :
  reachable (VNum ttl) this ->
  MemoryCache.plain this = true ->
  MemoryCache.ordinary k = true ->
  k' <> "__proto__" ->
  k <> k' ->
  failure body = None ->
  0 <= d -> 0 <= ms ->
  let first := fst (MemoryCache.set k body meta this) in
  let second := fst (MemoryCache.set k' body' meta' (MemoryCache.elapse d first)) in
  MemoryCache.get k (MemoryCache.elapse ms second)
  = if d + ms <? delay ttl
    then Ok (Some {| bodyStream := Readable_from (contents body); metaData := meta |})
    else Ok None.
Proof.
  intros Hreach Hplain Hordinary Hk' Hne Hfinite Hd Hms first second.
  pose proof (ordinary_not_proto k Hordinary) as Hk.
  destruct (reachable_sound _ _ Hreach) as [Httl Hs]. specialize (Hs Hplain).
  pose proof (sound_set k body meta this Hk Hs) as Hs1. fold first in Hs1.
  pose proof (sound_elapse d first Hs1) as Hs2.
  pose proof (sound_set k' body' meta' _ Hk' Hs2) as Hs3. fold second in Hs3.
  set (x := mkTimer (next_handle (MemoryCache.loop this))
              (now (MemoryCache.loop this) + delay ttl) k).
  set (e := MemoryCache.mkEntry (contents body) meta).
  assert (x ∈ timers_of first) as Hx1.
  { unfold first, timers_of.
    rewrite (MemoryCache_set_with_ttl k body meta this ttl Hfinite Httl Hk).
    cbn [MemoryCache.loop pending]. apply elem_of_app. right. left. }
  assert (MemoryCache.cache first !! k = Some e) as Hget1.
  { unfold first.
    rewrite (MemoryCache_set_with_ttl k body meta this ttl Hfinite Httl Hk).
    cbn [MemoryCache.cache]. apply lookup_insert_eq. }
  assert (now (MemoryCache.loop first) = now (MemoryCache.loop this)) as Hnow1
    by apply set_now.
  pose proof (own_lifetime first x d Hs1 Hx1) as Hlife1.
  cbn [callback due x] in Hlife1. rewrite Hnow1, Hget1 in Hlife1.
  destruct (set_other_own k' k body' meta' (MemoryCache.elapse d first) Hne Hk')
    as (Hget3 & _ & _). fold second in Hget3.
  destruct (sound_set_other (MemoryCache.elapse d first) k' k body' meta' Hs2 Hne Hk')
    as [_ Htimers3]. fold second in Htimers3.
  rewrite get_plain by (try exact Hordinary; apply sound_plain, sound_elapse, Hs3).
  assert (MemoryCache.cache (MemoryCache.elapse ms second) !! k
          = if d + ms <? delay ttl then Some e else None) as ->;
    [|destruct (d + ms <? delay ttl); reflexivity].
  destruct (d + ms <? delay ttl) eqn:Hlate.
  - apply Z.ltb_lt in Hlate.
    destruct (now (MemoryCache.loop this) + delay ttl <=? now (MemoryCache.loop this) + d)
      eqn:E; [apply Z.leb_le in E; lia|]. clear E.
    assert (x ∈ timers_of second) as Hx3.
    { assert (x ∈ filter (fun y => callback y = k) (timers_of second)) as Hin.
      { rewrite Htimers3. apply list_elem_of_filter. split; [reflexivity|].
        apply run_timers_keeps_timer; [exact Hs1|exact Hx1|].
        cbn [due x]. rewrite Hnow1. lia. }
      apply list_elem_of_filter in Hin as [_ Hin]. exact Hin. }
    pose proof (own_lifetime second x ms Hs3 Hx3) as Hlife3.
    cbn [callback due x] in Hlife3. rewrite Hlife3. clear Hlife3.
    unfold second at 1. rewrite set_now, elapse_now, Hnow1.
    destruct (_ <=? _ + ms) eqn:E; [apply Z.leb_le in E; lia|].
    rewrite Hget3. exact Hlife1.
  - apply Z.ltb_ge in Hlate.
    destruct (Z.le_gt_cases (delay ttl) d) as [Hgone|Hthere].
    + destruct (_ <=? _) eqn:E in Hlife1; [|apply Z.leb_gt in E; lia].
      rewrite <- Hget3 in Hlife1.
      unfold MemoryCache.elapse at 1. cbn [MemoryCache.cache].
      apply run_timers_absent. exact Hlife1.
    + assert (x ∈ timers_of second) as Hx3.
      { assert (x ∈ filter (fun y => callback y = k) (timers_of second)) as Hin.
        { rewrite Htimers3. apply list_elem_of_filter. split; [reflexivity|].
          apply run_timers_keeps_timer; [exact Hs1|exact Hx1|].
          cbn [due x]. rewrite Hnow1. lia. }
        apply list_elem_of_filter in Hin as [_ Hin]. exact Hin. }
      pose proof (own_lifetime second x ms Hs3 Hx3) as Hlife3.
      cbn [callback due x] in Hlife3. rewrite Hlife3. clear Hlife3.
      unfold second at 1. rewrite set_now, elapse_now, Hnow1.
      destruct (_ <=? _ + ms) eqn:E; [reflexivity|apply Z.leb_gt in E; lia].
Qed.

(** X29.  The entries of a [MemoryCache] are the properties of a plain
    object, and a key is a property name.  On a new cache [get] returns
    [undefined] for an ordinary key, and throws a [TypeError] for
    [__proto__] and for every name [Object.prototype] defines, as it
    takes what the object inherits for an entry without a [bodyBuffer].
    An entry set under [__proto__] becomes the prototype of the object:
    [get] finds it, [remove] does not take it away, and [get] of
    [bodyBuffer] throws from then on unless an entry of that name was
    set. *)
Theorem X29_keys_are_property_names (node : Platform) (ttl : value) (now : Z) :
  (forall key, MemoryCache.ordinary key = true ->
     MemoryCache.get key (MemoryCache.new node ttl now) = Ok None)
  /\ (forall key, MemoryCache.ordinary key = false ->
        MemoryCache.get key (MemoryCache.new node ttl now)
        = Err (not_iterable VUndefined))
  /\ (forall (this : MemoryCache.t) (body : Stream) (meta : value),
        failure body = None ->
        let this' := fst (MemoryCache.set "__proto__" body meta this) in
        let entry := {| bodyStream := Readable_from (contents body); metaData := meta |} in
        MemoryCache.get "__proto__" this' = Ok (Some entry)
        /\ MemoryCache.get "__proto__" (MemoryCache.remove "__proto__" this')
           = Ok (Some entry)
        /\ (MemoryCache.cache this !! "bodyBuffer" = None ->
            MemoryCache.get "bodyBuffer" this' = Err (not_iterable VUndefined))).
Proof.
  split; [|split].
  - intros key Hkey. rewrite get_plain by (reflexivity || exact Hkey).
    cbn [MemoryCache.new MemoryCache.cache]. rewrite lookup_empty. reflexivity.
  - intros key Hkey. unfold MemoryCache.ordinary in Hkey.
    unfold MemoryCache.get, MemoryCache.lookup, MemoryCache.Object_prototype_member.
    cbn [MemoryCache.new MemoryCache.cache MemoryCache.cache_proto MemoryCache.node].
    rewrite lookup_empty.
    destruct (String.eqb key "__proto__"); [reflexivity|].
    cbn [negb andb] in Hkey. apply negb_false_iff in Hkey. rewrite Hkey.
    reflexivity.
  - intros this body meta Hfinite this' entry.
    pose proof (proj2 (MemoryCache_get_after_set "__proto__" body meta this Hfinite))
      as Hget. cbv zeta in Hget. fold this' entry in Hget.
    split; [exact Hget|]. split.
    + rewrite <- Hget. apply get_ext; reflexivity.
    + intros Hnone. revert Hget. unfold this', MemoryCache.set, streamToBuffer.
      rewrite Hfinite. cbn [fst MemoryCache.ttl String.eqb Ascii.eqb Bool.eqb].
      intros _. unfold MemoryCache.get, MemoryCache.lookup.
      destruct (MemoryCache.ttl this);
        unfold MemoryCache.KeyTimeout_updateTimeout;
        cbn [MemoryCache.cache MemoryCache.cache_proto MemoryCache.node
             MemoryCache.KeyTimeout_clearTimeout MemoryCache.loop setTimeout
             String.eqb Ascii.eqb Bool.eqb];
        rewrite Hnone; cbn [truthy];
        unfold Key.get_property, obj_get; cbn [own_enumerable];
        rewrite (indexed_no_name "b" "odyBuffer") by reflexivity;
        reflexivity.
Qed.

(** ** The cache directory of a [FileSystemCache] *)

Lemma meta_key_inj (k k' : string) : k +:+ "meta" = k' +:+ "meta" -> k = k'.
Proof.
  revert k'. induction k as [|a k IH]; intros [|a' k'] H; cbn [String.append] in H.
  - reflexivity.
  - apply (f_equal String.length) in H. cbn [String.length] in H.
    rewrite length_append in H. cbn [String.length] in H. lia.
  - apply (f_equal String.length) in H. cbn [String.length] in H.
    rewrite length_append in H. cbn [String.length] in H. lia.
  - injection H as -> H. f_equal. apply IH, H.
Qed.

(** The directories a [FileSystemCache] makes of an empty one by [set],
    whatever faults its writes run into, and [remove]; the metadata it is
    given are objects of JSON values. *)
Inductive written (integrity : string -> string) : FileSystemCache.cacache -> Prop :=
| written_empty : written integrity FileSystemCache.empty_cacache
| written_set (this : FileSystemCache.t) (now now_get : Z) (f : FileSystemCache.faults)
    (key : string) (bodyStream : Stream) (metaData : value)
    (c : FileSystemCache.cacache) :
    written integrity c ->
    json_safe (VObj (own_enumerable metaData)) = true ->
    written integrity
      (fst (FileSystemCache.set integrity this now now_get f key bodyStream metaData c))
| written_remove (this : FileSystemCache.t) (key : string)
    (c : FileSystemCache.cacache) :
    written integrity c -> written integrity (FileSystemCache.remove this key c).

(** The body a metadata document stands for is on file, unless the
    document says the body is empty. *)
Definition body_on_file (integrity : string -> string) (doc : props)
  (c : FileSystemCache.cacache) : Prop :=
  truthy (obj_get "empty" doc) = true
  \/ exists data, obj_get "bodyStreamIntegrity" doc = VStr (integrity data)
                  /\ FileSystemCache.content c !! integrity data = Some data.

(** Every content is filed under its own digest, and every metadata key
    leads to a document of JSON values whose body is on file. *)
Record well_filed (integrity : string -> string) (c : FileSystemCache.cacache)
  : Prop := mkWellFiled {
  filed_by_digest : Stores.content_addressed integrity c;
  filed_documents :
    forall key d, FileSystemCache.index c !! (key +:+ "meta") = Some d ->
      exists doc, FileSystemCache.content c !! d = Some (JSON_stringify (VObj doc))
                  /\ json_safe (VObj doc) = true
                  /\ body_on_file integrity doc c;
}.

(** One more content leaves the contents on file as they are. *)
Lemma content_kept (integrity : string -> string) (c : FileSystemCache.cacache)
  (data : string) (d text : string) :
  (forall x y, integrity x = integrity y -> x = y) ->
  Stores.content_addressed integrity c ->
  FileSystemCache.content c !! d = Some text ->
  <[ integrity data := data ]> (FileSystemCache.content c) !! d = Some text.
Proof.
  intros Hinj Hca Hd. destruct (decide (integrity data = d)) as [<-|Hne].
  - rewrite lookup_insert_eq. f_equal. apply Hinj. exact (Hca _ _ Hd).
  - rewrite lookup_insert_ne by assumption. exact Hd.
Qed.

Lemma content_addressed_insert (integrity : string -> string)
  (c : FileSystemCache.cacache) (index : gmap string string) (data : string) :
  Stores.content_addressed integrity c ->
  Stores.content_addressed integrity
    (FileSystemCache.mkCacache index (<[ integrity data := data ]> (FileSystemCache.content c))).
Proof.
  intros Hca d text. cbn [FileSystemCache.content].
  destruct (decide (integrity data = d)) as [<-|Hne].
  - rewrite lookup_insert_eq. intros [= <-]. reflexivity.
  - rewrite lookup_insert_ne by assumption. apply Hca.
Qed.

Lemma body_on_file_kept (integrity : string -> string) (doc : props)
  (c : FileSystemCache.cacache) (index : gmap string string) (data : string) :
  (forall x y, integrity x = integrity y -> x = y) ->
  Stores.content_addressed integrity c ->
  body_on_file integrity doc c ->
  body_on_file integrity doc
    (FileSystemCache.mkCacache index (<[ integrity data := data ]> (FileSystemCache.content c))).
Proof.
  intros Hinj Hca [Hempty|(body & Hbsi & Hbody)]; [left; exact Hempty|right].
  exists body. split; [exact Hbsi|]. cbn [FileSystemCache.content].
  apply content_kept; assumption.
Qed.

(** The write of a body. *)
Lemma well_filed_body (integrity : string -> string) (c : FileSystemCache.cacache)
  (key data : string) :
  (forall x y, integrity x = integrity y -> x = y) ->
  well_filed integrity c ->
  well_filed integrity
    (FileSystemCache.mkCacache
       (<[ key +:+ "body" := integrity data ]> (FileSystemCache.index c))
       (<[ integrity data := data ]> (FileSystemCache.content c))).
Proof.
  intros Hinj [Hca Hdocs]. constructor.
  - apply content_addressed_insert, Hca.
  - intros k d. cbn [FileSystemCache.index FileSystemCache.content].
    rewrite lookup_insert_ne by apply body_key_not_meta_key.
    intros Hk. destruct (Hdocs k d Hk) as (doc & Htext & Hsafe & Hbody).
    exists doc. split; [apply content_kept; assumption|]. split; [exact Hsafe|].
    apply body_on_file_kept; assumption.
Qed.

(** The write of a metadata document. *)
Lemma well_filed_meta (integrity : string -> string) (c : FileSystemCache.cacache)
  (key : string) (doc : props) :
  (forall x y, integrity x = integrity y -> x = y) ->
  well_filed integrity c ->
  json_safe (VObj doc) = true ->
  body_on_file integrity doc c ->
  well_filed integrity
    (FileSystemCache.mkCacache
       (<[ key +:+ "meta" := integrity (JSON_stringify (VObj doc)) ]>
          (FileSystemCache.index c))
       (<[ integrity (JSON_stringify (VObj doc)) := JSON_stringify (VObj doc) ]>
          (FileSystemCache.content c))).
Proof.
  intros Hinj [Hca Hdocs] Hsafe Hbody. constructor.
  - apply content_addressed_insert, Hca.
  - intros k d. cbn [FileSystemCache.index FileSystemCache.content].
    destruct (decide (key +:+ "meta" = k +:+ "meta")) as [E|E].
    + rewrite E, lookup_insert_eq. intros [= <-]. exists doc.
      split; [apply lookup_insert_eq|]. split; [exact Hsafe|].
      apply body_on_file_kept; assumption.
    + rewrite lookup_insert_ne by exact E. intros Hk.
      destruct (Hdocs k d Hk) as (doc' & Htext & Hsafe' & Hbody').
      exists doc'. split; [apply content_kept; assumption|]. split; [exact Hsafe'|].
      apply body_on_file_kept; assumption.
Qed.

Lemma well_filed_remove (integrity : string -> string) (this : FileSystemCache.t)
  (key : string) (c : FileSystemCache.cacache) :
  well_filed integrity c -> well_filed integrity (FileSystemCache.remove this key c).
Proof.
  intros [Hca Hdocs]. constructor; [exact Hca|].
  intros k d. unfold FileSystemCache.remove.
  cbn [FileSystemCache.getBodyAndMetaKeys FileSystemCache.index FileSystemCache.content].
  intros Hk. apply lookup_delete_Some in Hk as [_ Hk].
  apply lookup_delete_Some in Hk as [_ Hk]. apply (Hdocs k d Hk).
Qed.

Lemma metaCopy_safe (this : FileSystemCache.t) (now : Z) (metaData : value) :
  json_safe (VObj (own_enumerable metaData)) = true ->
  json_safe (VObj (FileSystemCache.metaCopy_of this now metaData)) = true.
Proof.
  intros Hsafe. unfold FileSystemCache.metaCopy_of.
  destruct (FileSystemCache.ttl this); try exact Hsafe.
  apply json_safe_set; [exact Hsafe|reflexivity].
Qed.

Lemma well_filed_set (integrity : string -> string) (this : FileSystemCache.t)
  (now now_get : Z) (f : FileSystemCache.faults) (key : string) (bodyStream : Stream)
  (metaData : value) (c : FileSystemCache.cacache) :
  (forall x y, integrity x = integrity y -> x = y) ->
  json_safe (VObj (own_enumerable metaData)) = true ->
  well_filed integrity c ->
  well_filed integrity
    (fst (FileSystemCache.set integrity this now now_get f key bodyStream metaData c)).
Proof.
  intros Hinj Hsafe Hwf.
  pose proof (metaCopy_safe this now metaData Hsafe) as Hcopy.
  assert (json_safe (VObj (obj_set "empty" (VBool true)
                             (FileSystemCache.metaCopy_of this now metaData))) = true)
    as Hdoc_empty by (apply json_safe_set; [exact Hcopy|reflexivity]).
  assert (forall c0, body_on_file integrity
                       (obj_set "empty" (VBool true)
                          (FileSystemCache.metaCopy_of this now metaData)) c0)
    as Hbody_empty by (intros c0; left; rewrite obj_get_set_eq; reflexivity).
  unfold FileSystemCache.set, FileSystemCache.put_stream, FileSystemCache.put.
  cbn [FileSystemCache.getBodyAndMetaKeys].
  destruct (failure bodyStream); [exact Hwf|].
  destruct (String.eqb (contents bodyStream) "").
  { cbn [FileSystemCache.ENODATA FileSystemCache.err_code is_string String.eqb
         Ascii.eqb Bool.eqb].
    destruct (FileSystemCache.put_fault f); [exact Hwf|].
    cbn [fst]. apply well_filed_meta; auto. }
  destruct (FileSystemCache.put_stream_fault f) as [err|].
  - destruct (is_string (FileSystemCache.err_code err) "ENODATA"); [|exact Hwf].
    destruct (FileSystemCache.put_fault f); [exact Hwf|].
    cbn [fst]. apply well_filed_meta; auto.
  - destruct (FileSystemCache.put_fault f).
    + cbn [fst]. apply well_filed_body; assumption.
    + cbn [fst]. apply well_filed_meta.
      * exact Hinj.
      * apply well_filed_body; assumption.
      * apply json_safe_set; [exact Hcopy|reflexivity].
      * right. exists (contents bodyStream). rewrite obj_get_set_eq.
        split; [reflexivity|]. cbn [FileSystemCache.content]. apply lookup_insert_eq.
Qed.

Lemma written_well_filed (integrity : string -> string) (c : FileSystemCache.cacache) :
  (forall x y, integrity x = integrity y -> x = y) ->
  written integrity c -> well_filed integrity c.
Proof.
  intros Hinj. induction 1 as [|this now now_get f key bodyStream metaData c _ IH Hsafe
                              |this key c _ IH].
  - constructor.
    + intros d text H. cbn in H. rewrite lookup_empty in H. discriminate.
    + intros k d H. cbn in H. rewrite lookup_empty in H. discriminate.
  - apply well_filed_set; assumption.
  - apply well_filed_remove, IH.
Qed.

(** On a well-filed directory [get] finds a miss or an entry whose body
    can be read. *)
Lemma well_filed_get (integrity : string -> string) (this : FileSystemCache.t)
  (now : Z) (key : string) (c : FileSystemCache.cacache) :
  well_filed integrity c ->
  FileSystemCache.get this now key c = Resolved None
  \/ exists v, FileSystemCache.get this now key c = Resolved (Some v)
               /\ failure (bodyStream v) = None.
Proof.
  intros [Hca Hdocs]. unfold FileSystemCache.get, FileSystemCache.get_info,
    FileSystemCache.get_byDigest.
  cbn [FileSystemCache.getBodyAndMetaKeys snd].
  destruct (FileSystemCache.index c !! (key +:+ "meta")) as [d|] eqn:Hd; [|left; reflexivity].
  destruct (Hdocs key d Hd) as (doc & -> & Hsafe & Hbody).
  rewrite (JSON_parse_stringify _ Hsafe). cbn [FileSystemCache.meta_props].
  destruct (truthy _ && _); [left; reflexivity|right].
  eexists. split; [reflexivity|]. cbn [bodyStream].
  destruct Hbody as [->|(data & -> & Hdata)]; [reflexivity|].
  destruct (truthy (obj_get "empty" doc)); [reflexivity|].
  unfold FileSystemCache.get_stream_byDigest. rewrite Hdata. reflexivity.
Qed.

(** X16.  On a cache directory that [FileSystemCache] alone has written,
    by [set] and [remove] from an empty one, with metadata of JSON values
    and whatever faults of the writes, [get] is never rejected: it
    resolves to a miss or to an entry whose body stream can be read. *)
Theorem X16_get_never_fails_on_its_own_directory (integrity : string -> string)
  (c : FileSystemCache.cacache) (this : FileSystemCache.t) (now : Z) (key : string) :
  (forall x y, integrity x = integrity y -> x = y) ->
  written integrity c ->
  FileSystemCache.get this now key c = Resolved None
  \/ exists v, FileSystemCache.get this now key c = Resolved (Some v)
               /\ failure (bodyStream v) = None.
Proof.
  intros Hinj Hwritten. apply (well_filed_get integrity), written_well_filed; assumption.
Qed.

(** On a well-filed directory [get] answers the same after more contents
    have been filed, the index under the metadata key being what it
    was. *)
Lemma well_filed_get_kept (integrity : string -> string) (this : FileSystemCache.t)
  (now : Z) (key : string) (c c' : FileSystemCache.cacache) :
  well_filed integrity c ->
  FileSystemCache.index c' !! (key +:+ "meta") = FileSystemCache.index c !! (key +:+ "meta") ->
  (forall d text, FileSystemCache.content c !! d = Some text ->
                  FileSystemCache.content c' !! d = Some text) ->
  FileSystemCache.get this now key c' = FileSystemCache.get this now key c.
Proof.
  intros [Hca Hdocs] Hindex Hcontent. unfold FileSystemCache.get, FileSystemCache.get_info,
    FileSystemCache.get_byDigest.
  cbn [FileSystemCache.getBodyAndMetaKeys snd]. rewrite Hindex.
  destruct (FileSystemCache.index c !! (key +:+ "meta")) as [d|] eqn:Hd; [|reflexivity].
  destruct (Hdocs key d Hd) as (doc & Htext & Hsafe & Hbody).
  rewrite Htext, (Hcontent _ _ Htext).
  rewrite (JSON_parse_stringify _ Hsafe). cbn [FileSystemCache.meta_props].
  destruct (truthy _ && _); [reflexivity|].
  destruct Hbody as [->|(data & -> & Hdata)]; [reflexivity|].
  destruct (truthy (obj_get "empty" doc)); [reflexivity|].
  unfold FileSystemCache.get_stream_byDigest. rewrite Hdata, (Hcontent _ _ Hdata).
  reflexivity.
Qed.

(** What a [set] leaves of the directory: the index under the metadata
    keys of the other keys, and the contents. *)
Lemma set_keeps (integrity : string -> string) (this : FileSystemCache.t)
  (now now_get : Z) (f : FileSystemCache.faults) (key k : string) (bodyStream : Stream)
  (metaData : value) (c : FileSystemCache.cacache) :
  (forall x y, integrity x = integrity y -> x = y) ->
  Stores.content_addressed integrity c ->
  k <> key ->
  let c' := fst (FileSystemCache.set integrity this now now_get f key bodyStream
                   metaData c) in
  FileSystemCache.index c' !! (k +:+ "meta") = FileSystemCache.index c !! (k +:+ "meta")
  /\ (forall d text, FileSystemCache.content c !! d = Some text ->
                     FileSystemCache.content c' !! d = Some text).
Proof.
  intros Hinj Hca Hne c'. subst c'.
  assert (key +:+ "meta" <> k +:+ "meta") as Hmeta.
  { intros E. apply Hne. symmetry. apply meta_key_inj, E. }
  pose proof (body_key_not_meta_key key k) as Hbody.
  unfold FileSystemCache.set, FileSystemCache.put_stream, FileSystemCache.put.
  cbn [FileSystemCache.getBodyAndMetaKeys].
  destruct (failure bodyStream); [split; auto|].
  destruct (String.eqb (contents bodyStream) "").
  { cbn [FileSystemCache.ENODATA FileSystemCache.err_code is_string String.eqb
         Ascii.eqb Bool.eqb].
    destruct (FileSystemCache.put_fault f); [split; auto|].
    cbn [fst FileSystemCache.index FileSystemCache.content]. split.
    - apply lookup_insert_ne, Hmeta.
    - intros d text. apply content_kept; assumption. }
  destruct (FileSystemCache.put_stream_fault f) as [err|].
  - destruct (is_string (FileSystemCache.err_code err) "ENODATA"); [|split; auto].
    destruct (FileSystemCache.put_fault f); [split; auto|].
    cbn [fst FileSystemCache.index FileSystemCache.content]. split.
    + apply lookup_insert_ne, Hmeta.
    + intros d text. apply content_kept; assumption.
  - destruct (FileSystemCache.put_fault f);
      cbn [fst FileSystemCache.index FileSystemCache.content].
    + split.
      * apply lookup_insert_ne, Hbody.
      * intros d text. apply content_kept; assumption.
    + split.
      * rewrite !lookup_insert_ne by assumption. reflexivity.
      * intros d text Hd.
        pose proof (content_addressed_insert integrity c
                      (<[ key +:+ "body" := integrity (contents bodyStream) ]>
                         (FileSystemCache.index c))
                      (contents bodyStream) Hca) as Hca1.
        apply (content_kept integrity _ _ d text Hinj Hca1).
        cbn [FileSystemCache.content]. apply content_kept; assumption.
Qed.

(** X17.  On such a directory, a [set] of one key, whichever way it
    ends, and a [remove] of one key leave what [get] answers for every
    other key as it was. *)
Theorem X17_directory_entries_are_independent (integrity : string -> string)
  (c : FileSystemCache.cacache) (this this' : FileSystemCache.t)
  (now now_get t : Z) (f : FileSystemCache.faults) (key k : string)
  (bodyStream : Stream) (metaData : value) :
  (forall x y, integrity x = integrity y -> x = y) ->
  written integrity c ->
  k <> key ->
  FileSystemCache.get this' t k
    (fst (FileSystemCache.set integrity this now now_get f key bodyStream metaData c))
  = FileSystemCache.get this' t k c
  /\ FileSystemCache.get this' t k (FileSystemCache.remove this key c)
     = FileSystemCache.get this' t k c.
Proof.
  intros Hinj Hwritten Hne.
  pose proof (written_well_filed integrity c Hinj Hwritten) as Hwf. split.
  - destruct (set_keeps integrity this now now_get f key k bodyStream metaData c
                Hinj (filed_by_digest _ _ Hwf) Hne) as [Hindex Hcontent].
    apply (well_filed_get_kept integrity); assumption.
  - apply FileSystemCache_get_ext; [|reflexivity].
    unfold FileSystemCache.remove.
    cbn [FileSystemCache.getBodyAndMetaKeys FileSystemCache.index].
    rewrite !lookup_delete_ne; [reflexivity| |].
    + intros E. exact (body_key_not_meta_key _ _ E).
    + intros E. apply Hne. symmetry. apply meta_key_inj, E.
Qed.

(** X18.  After [remove(key)] a [get(key)] misses, whatever the directory
    holds and whatever the time; the contents stay on file. *)
Theorem X18_remove_makes_get_miss (this this' : FileSystemCache.t) (now : Z)
  (key : string) (c : FileSystemCache.cacache) :
  FileSystemCache.get this' now key (FileSystemCache.remove this key c) = Resolved None
  /\ FileSystemCache.get_info (key +:+ "body") (FileSystemCache.remove this key c) = None
  /\ FileSystemCache.content (FileSystemCache.remove this key c)
     = FileSystemCache.content c.
Proof.
  unfold FileSystemCache.get, FileSystemCache.get_info, FileSystemCache.remove.
  cbn [FileSystemCache.getBodyAndMetaKeys snd FileSystemCache.index FileSystemCache.content].
  rewrite lookup_delete_eq. split; [reflexivity|]. split; [|reflexivity].
  rewrite lookup_delete_ne by (intros E; symmetry in E; exact (body_key_not_meta_key _ _ E)).
  apply lookup_delete_eq.
Qed.

(** X19.  The metadata [serializeMetaFromNodeFetchResponse] makes of a
    response has none of the fields [FileSystemCache] keeps for itself:
    filed with the body of the response and read back before it expires,
    it is what it was, field by field, and the body is the bytes of the
    response. *)
Theorem X19_response_metadata_comes_back_unchanged (integrity : string -> string)
  (this : FileSystemCache.t) (now now_get : Z) (key : string) (res : FetchResponse)
  (c : FileSystemCache.cacache) :
  (forall x y, integrity x = integrity y -> x = y) ->
  failure (body res) = None ->
  json_safe (serializeMetaFromNodeFetchResponse res) = true ->
  (forall ms, FileSystemCache.ttl this = VNum ms -> now_get <= now + ms) ->
  snd (FileSystemCache.set integrity this now now_get FileSystemCache.no_faults key
         (body res) (serializeMetaFromNodeFetchResponse res) c)
  = Resolved (Some {| bodyStream := Readable_from (contents (body res));
                      metaData := serializeMetaFromNodeFetchResponse res |}).
Proof.
  intros Hinj Hfinite Hsafe Hlive.
  rewrite FileSystemCache_set_stores by exact Hfinite. cbn [snd].
  rewrite (FileSystemCache_get_stored integrity this this); [|exact Hinj|exact Hsafe|reflexivity].
  rewrite unexpired_passes; [reflexivity|].
  unfold unexpired. destruct (FileSystemCache.ttl this); try reflexivity.
  apply Hlive. reflexivity.
Qed.

(** ** Calls of the cache-aware fetch, one after the other *)

(** [response.ejectFromCache()]: the closure [() => cache.remove(cacheKey)]
    the response was built with. *)
Definition eject {S : Type} (cache : Cache S) (response : NFCResponse) (s : S) : S :=
  cache_remove cache (ejectFromCache response) s.


Lemma Cjs_getResponse_fetches {S : Type} (cache : Cache S) (env : Env S)
  (key_flags : props) (requestArguments : list value) (w : World S)
  (cacheKey : string) (res : FetchResponse) (s' : S) (v : CachedValue) :
  Cjs.getCacheKey key_flags (argument 0 requestArguments) (argument 1 requestArguments)
  = Ok cacheKey ->
  hasOnlyWithCacheOption (argument 0 requestArguments) (argument 1 requestArguments)
  = Ok false ->
  cache_get cache cacheKey (store w) = Resolved None ->
  cache_get cache cacheKey (while_waiting env (store w)) = Resolved None ->
  fetch env requestArguments = Resolved res ->
  cache_set cache cacheKey (body res) (serializeMetaFromNodeFetchResponse res)
    (while_waiting env (store w)) = (s', Resolved (Some v)) ->
  Cjs.getResponse cache env key_flags requestArguments w
  = (mkWorld s' (released cacheKey w)
       (log w ++ [EvGet cacheKey; EvLock cacheKey; EvGet cacheKey;
                  EvFetch requestArguments; EvSet cacheKey; EvUnlock cacheKey]),
     Resolved (Some (mkNFCResponse (bodyStream v) (metaData v) cacheKey false))).
Proof.
  intros Hkey Honly Hfirst Hsecond Hfetch Hset. unfold Cjs.getResponse. rewrite Hkey, Honly.
  unfold getResponse_from, get. rewrite Hfirst.
  unfold locked, fetch_and_store, get, lock, record. cbn [store locks log].
  rewrite Hsecond, Hfetch, Hset. unfold unlock, released. cbn [store locks log respond].
  rewrite <- !app_assoc. reflexivity.
Qed.

(** The calls one [getResponse] makes once the key is derived, in the
    order it makes them, when it settles ... *)
Definition settled_traces (cacheKey : string) (requestArguments : list value)
  : list (list event) :=
  [ [EvGet cacheKey; EvLock cacheKey; EvGet cacheKey; EvUnlock cacheKey];
    [EvGet cacheKey; EvLock cacheKey; EvGet cacheKey; EvFetch requestArguments;
     EvUnlock cacheKey];
    [EvGet cacheKey; EvLock cacheKey; EvGet cacheKey; EvFetch requestArguments;
     EvSet cacheKey; EvUnlock cacheKey] ].

(** ... and when it waits for ever on the store or on the transport. *)
Definition pending_traces (cacheKey : string) (requestArguments : list value)
  : list (list event) :=
  [ [EvGet cacheKey; EvLock cacheKey; EvGet cacheKey];
    [EvGet cacheKey; EvLock cacheKey; EvGet cacheKey; EvFetch requestArguments];
    [EvGet cacheKey; EvLock cacheKey; EvGet cacheKey; EvFetch requestArguments;
     EvSet cacheKey] ].

Ltac trace_done :=
  match goal with
  | H : (_, _) = (_, _) |- _ => injection H as <- <-
  end;
  cbn [log locks]; rewrite <- ?app_assoc; eexists; (split; [reflexivity|]).

(** X20.  Whatever the store and the transport answer, one call of
    [getResponse] either asks the store once and takes no lock, or takes
    the lock, asks the store a second time, calls the transport at most
    once and [set] at most once, after the transport, and gives the lock
    back when it settles; only a call that never settles keeps the lock.
    No other lock is changed. *)
Theorem X20_the_calls_of_one_getResponse {S : Type} (cache : Cache S) (env : Env S)
  (key_flags : props) (requestArguments : list value) (w w' : World S)
  (cacheKey : string) (r : outcome (option NFCResponse)) :
  Cjs.getCacheKey key_flags (argument 0 requestArguments) (argument 1 requestArguments)
  = Ok cacheKey ->
  Cjs.getResponse cache env key_flags requestArguments w = (w', r) ->
  exists events,
    log w' = log w ++ events
    /\ ((events = [EvGet cacheKey] /\ locks w' = locks w /\ store w' = store w)
        \/ (In events (settled_traces cacheKey requestArguments)
            /\ r <> Pending /\ locks w' = released cacheKey w)
        \/ (In events (pending_traces cacheKey requestArguments)
            /\ r = Pending /\ locks w' = {[ cacheKey ]} ∪ locks w)).
Proof.
  intros Hkey. unfold Cjs.getResponse. rewrite Hkey.
  unfold getResponse_from, get, record. cbn [store locks log].
  destruct (cache_get cache cacheKey (store w)) as [[v|]|e|];
    try (intros H; trace_done; left; repeat split; reflexivity).
  destruct (hasOnlyWithCacheOption _ _) as [[|]|e];
    try (intros H; trace_done; left; repeat split; reflexivity).
  unfold locked, fetch_and_store, get, lock, unlock, record, released.
  cbn [store locks log].
  destruct (cache_get cache cacheKey (while_waiting env (store w))) as [[v|]|e|];
    cbn [respond];
    try (intros H; trace_done; right; left; cbn; split; [tauto|split; [discriminate|reflexivity]]);
    try (intros H; trace_done; right; right; cbn; split; [tauto|split; reflexivity]).
  destruct (fetch env requestArguments) as [res|e|];
    try (intros H; trace_done; right; left; cbn; split; [tauto|split; [discriminate|reflexivity]]);
    try (intros H; trace_done; right; right; cbn; split; [tauto|split; reflexivity]).
  destruct (cache_set cache cacheKey _ _ _) as [s' [[v|]|e|]]; cbn [respond store locks log];
    try (intros H; trace_done; right; left; cbn; split; [tauto|split; [discriminate|reflexivity]]);
    try (intros H; trace_done; right; right; cbn; split; [tauto|split; reflexivity]).
Qed.

(** A key that [getCacheKey] returns is 32 characters long, so it names
    nothing that a plain object inherits: what [get] finds under it is an
    entry of the cache, or nothing, whatever was stored before. *)
Lemma Cjs_getCacheKey_length (key_flags : props) (resource init : value)
  (cacheKey : string) :
  Cjs.getCacheKey key_flags resource init = Ok cacheKey ->
  String.length cacheKey = 32%nat.
Proof.
  unfold Cjs.getCacheKey. intros H.
  destruct (Cjs.getCacheKeyJson key_flags resource init); [|discriminate].
  injection H as <-. apply digest_shape.
Qed.

Ltac other_name Hlen :=
  repeat match goal with
         | |- context [String.eqb ?k ?s] =>
             destruct (String.eqb_spec k s) as [->|_];
             [vm_compute in Hlen; discriminate|]
         end.

Lemma MemoryCache_get_absent (cacheKey : string) (this : MemoryCache.t) :
  String.length cacheKey = 32%nat ->
  MemoryCache.cache this !! cacheKey = None ->
  MemoryCache.get cacheKey this = Ok None.
Proof.
  intros Hlen Hnone.
  unfold MemoryCache.get, MemoryCache.lookup, MemoryCache.Object_prototype_member,
    MemoryCache.inherited, MemoryCache.Object_prototype. rewrite Hnone.
  cbn [existsb]. other_name Hlen.
  destruct (MemoryCache.cache_proto this); reflexivity.
Qed.

Lemma MemoryCache_remove_absent (cacheKey : string) (this : MemoryCache.t) :
  String.length cacheKey = 32%nat ->
  MemoryCache.get cacheKey (MemoryCache.remove cacheKey this) = Ok None.
Proof.
  intros Hlen. apply MemoryCache_get_absent; [exact Hlen|].
  unfold MemoryCache.remove. cbn [MemoryCache.cache]. other_name Hlen.
  apply lookup_delete_eq.
Qed.


(** X23.  [response.ejectFromCache()] removes the entry the response
    came from: on a [MemoryCache] the next call with the same arguments
    misses, calls the transport again and answers with what it fetches. *)
Theorem X23_an_ejected_response_is_fetched_again (env : Env MemoryCache.t)
  (key_flags : props) (requestArguments : list value) (w : World MemoryCache.t)
  (response : NFCResponse) (res : FetchResponse) :
  Cjs.getCacheKey key_flags (argument 0 requestArguments) (argument 1 requestArguments)
  = Ok (ejectFromCache response) ->
  hasOnlyWithCacheOption (argument 0 requestArguments) (argument 1 requestArguments)
  = Ok false ->
  while_waiting env (eject Stores.memoryCache response (store w))
  = eject Stores.memoryCache response (store w) ->
  fetch env requestArguments = Resolved res ->
  failure (body res) = None ->
  let cacheKey := ejectFromCache response in
  let ejected := mkWorld (eject Stores.memoryCache response (store w)) (locks w) (log w) in
  MemoryCache.get cacheKey (store ejected) = Ok None
  /\ exists s',
       Cjs.getResponse Stores.memoryCache env key_flags requestArguments ejected
       = (mkWorld s' (released cacheKey w)
            (log w ++ [EvGet cacheKey; EvLock cacheKey; EvGet cacheKey;
                       EvFetch requestArguments; EvSet cacheKey; EvUnlock cacheKey]),
          Resolved (Some (mkNFCResponse (Readable_from (contents (body res)))
                            (serializeMetaFromNodeFetchResponse res) cacheKey false))).
Proof.
  intros Hkey Honly Hquiet Hfetch Hfinite cacheKey ejected.
  set (s0 := eject Stores.memoryCache response (store w)) in *.
  assert (MemoryCache.get cacheKey s0 = Ok None) as Hmiss.
  { apply MemoryCache_remove_absent, (Cjs_getCacheKey_length _ _ _ _ Hkey). }
  split; [exact Hmiss|].
  destruct (MemoryCache_get_after_set cacheKey (body res)
              (serializeMetaFromNodeFetchResponse res) s0 Hfinite) as [Hset _].
  exists (fst (MemoryCache.set cacheKey (body res)
                 (serializeMetaFromNodeFetchResponse res) s0)).
  apply (Cjs_getResponse_fetches Stores.memoryCache env key_flags requestArguments ejected
           cacheKey res _
           {| bodyStream := Readable_from (contents (body res));
              metaData := serializeMetaFromNodeFetchResponse res |});
    try assumption.
  - cbn [Stores.memoryCache cache_get store ejected]. rewrite Hmiss. reflexivity.
  - cbn [Stores.memoryCache cache_get store ejected]. rewrite Hquiet, Hmiss.
    reflexivity.
  - change (MemoryCache.set cacheKey (body res) (serializeMetaFromNodeFetchResponse res)
              (while_waiting env s0)
            = (fst (MemoryCache.set cacheKey (body res)
                      (serializeMetaFromNodeFetchResponse res) s0),
               Resolved (Some {| bodyStream := Readable_from (contents (body res));
                                 metaData := serializeMetaFromNodeFetchResponse res |}))).
    rewrite Hquiet, <- Hset. apply surjective_pairing.
Qed.


(** ** Instances *)

Definition one_entry (ttl : value) : MemoryCache.t :=
  fst (MemoryCache.set "a" (Readable_from "A") (VObj [])
         (MemoryCache.new example_node ttl 0)).

Lemma one_entry_reachable (ttl : value) : reachable ttl (one_entry ttl).
Proof. apply reach_set, reach_new. Qed.

Lemma X10_witness :
  (exists x, filter (fun y => callback y = "a") (timers_of (one_entry (VNum 1000))) = [x])
  /\ filter (fun y => callback y = "b") (timers_of (one_entry (VNum 1000))) = []
  /\ NoDup (handle <$> timers_of (one_entry (VNum 1000))).
Proof.
  destruct (X10_one_timer_for_each_entry (VNum 1000) (one_entry (VNum 1000))
              (one_entry_reachable _) eq_refl) as (Htimers & Hhandles & _).
  split; [exact (Htimers 1000 "a" eq_refl)|].
  split; [exact (Htimers 1000 "b" eq_refl)|exact Hhandles].
Defined.

Lemma X11_witness :
  MemoryCache.get "a" (MemoryCache.elapse 999 (one_entry (VNum 1000)))
  = MemoryCache.get "a" (one_entry (VNum 1000))
  /\ MemoryCache.get "a" (MemoryCache.elapse 1000 (one_entry (VNum 1000))) = Ok None.
Proof.
  split.
  - refine (proj1 (X11_an_entry_goes_when_its_timer_is_due (VNum 1000)
                     (one_entry (VNum 1000)) "a" 999 (one_entry_reachable _) eq_refl)
              eq_refl (mkTimer 0 1000 "a") _ eq_refl).
    vm_compute. left.
  - refine (proj1 (X11_an_entry_goes_when_its_timer_is_due (VNum 1000)
                     (one_entry (VNum 1000)) "a" 1000 (one_entry_reachable _) eq_refl)
              eq_refl (mkTimer 0 1000 "a") _ eq_refl).
    vm_compute. left.
Defined.

Lemma X12_witness :
  MemoryCache.get "a"
    (fst (MemoryCache.set "b" (Readable_from "B") VNull (one_entry (VNum 1000))))
  = MemoryCache.get "a" (one_entry (VNum 1000))
  /\ MemoryCache.get "a" (MemoryCache.remove "b" (one_entry (VNum 1000)))
     = MemoryCache.get "a" (one_entry (VNum 1000)).
Proof.
  destruct (X12_other_keys_are_left_alone (VNum 1000) (one_entry (VNum 1000)) "b" "a"
              (Readable_from "B") VNull (one_entry_reachable _) eq_refl)
    as [[Hset _] [Hremove _]]; [discriminate|discriminate|].
  split; [exact Hset|exact Hremove].
Defined.

Lemma X13_witness :
  MemoryCache.get "a" (MemoryCache.remove "a" (one_entry (VNum 1000))) = Ok None
  /\ filter (fun y => callback y = "a")
       (timers_of (MemoryCache.remove "a" (one_entry (VNum 1000)))) = [].
Proof.
  destruct (X13_remove_deletes_entry_and_timer (VNum 1000) (one_entry (VNum 1000)) "a" 0
              (one_entry_reachable _) eq_refl eq_refl) as (Hentry & _ & Htimer).
  split; [exact Hentry|exact Htimer].
Defined.

Lemma X14_witness :
  MemoryCache.get "a" (MemoryCache.elapse 86400000 (one_entry (VStr "1000")))
  = MemoryCache.get "a" (one_entry (VStr "1000")).
Proof.
  apply (X14_no_expiry_without_a_numeric_ttl (VStr "1000") (one_entry (VStr "1000")) "a"
           86400000 (one_entry_reachable _)).
  intros n. discriminate.
Defined.

Lemma X15_witness :
  MemoryCache.get "a"
    (MemoryCache.elapse 300
       (fst (MemoryCache.set "b" (Readable_from "B") VNull
               (MemoryCache.elapse 600 (one_entry (VNum 1000))))))
  = Ok (Some {| bodyStream := Readable_from "A"; metaData := VObj [] |}).
Proof.
  apply (X15_a_set_of_another_key_does_not_renew 1000
           (MemoryCache.new example_node (VNum 1000) 0)
           "a" "b" (Readable_from "A") (Readable_from "B") (VObj []) VNull 600 300
           (reach_new _ _ 0)); [reflexivity|reflexivity|discriminate..|reflexivity|lia|lia].
Defined.

Definition one_file : FileSystemCache.cacache :=
  fst (FileSystemCache.set Stores.ideal_integrity (FileSystemCache.new (VNum 1000) VUndefined)
         0 1 FileSystemCache.no_faults "a" (Readable_from "A") example_meta
         FileSystemCache.empty_cacache).

Lemma one_file_written : written Stores.ideal_integrity one_file.
Proof. apply written_set; [apply written_empty|reflexivity]. Qed.

Lemma X16_witness :
  FileSystemCache.get (FileSystemCache.new (VNum 1000) VUndefined) 2 "a" one_file
  = Resolved None
  \/ exists v,
       FileSystemCache.get (FileSystemCache.new (VNum 1000) VUndefined) 2 "a" one_file
       = Resolved (Some v)
       /\ failure (bodyStream v) = None.
Proof.
  exact (X16_get_never_fails_on_its_own_directory Stores.ideal_integrity one_file
           (FileSystemCache.new (VNum 1000) VUndefined) 2 "a" ideal_integrity_inj
           one_file_written).
Defined.

Lemma X17_witness :
  FileSystemCache.get (FileSystemCache.new VUndefined VUndefined) 2 "a"
    (fst (FileSystemCache.set Stores.ideal_integrity
            (FileSystemCache.new VUndefined VUndefined) 1 2
            (FileSystemCache.mkFaults None (Some disk_error)) "b" (Readable_from "B")
            example_meta one_file))
  = FileSystemCache.get (FileSystemCache.new VUndefined VUndefined) 2 "a" one_file.
Proof.
  refine (proj1 (X17_directory_entries_are_independent Stores.ideal_integrity one_file
                   (FileSystemCache.new VUndefined VUndefined)
                   (FileSystemCache.new VUndefined VUndefined) 1 2 2
                   (FileSystemCache.mkFaults None (Some disk_error)) "b" "a"
                   (Readable_from "B") example_meta ideal_integrity_inj
                   one_file_written _)).
  discriminate.
Defined.

Lemma X19_witness :
  snd (FileSystemCache.set Stores.ideal_integrity
         (FileSystemCache.new (VNum 1000) VUndefined) 0 1000 FileSystemCache.no_faults
         example_key (body hello_response)
         (serializeMetaFromNodeFetchResponse hello_response)
         FileSystemCache.empty_cacache)
  = Resolved (Some {| bodyStream := Readable_from "hello"; metaData := example_meta |}).
Proof.
  apply (X19_response_metadata_comes_back_unchanged Stores.ideal_integrity
           (FileSystemCache.new (VNum 1000) VUndefined) 0 1000 example_key hello_response
           FileSystemCache.empty_cacache ideal_integrity_inj eq_refl eq_refl).
  intros ms [= <-]. lia.
Defined.

(** A transport that answers every request with the same response. *)
Definition online {S : Type} : Env S := mkEnv S (fun s => s) (fun _ => Resolved hello_response).

Lemma X20_witness :
  exists events,
    log (fst (Cjs.getResponse Stores.memoryCache online DEFAULT_KEY_FLAGS
                [VStr "https://example.com/"] (mkWorld (MemoryCache.new example_node VUndefined 0) ∅ [])))
    = [] ++ events
    /\ In events (settled_traces example_key [VStr "https://example.com/"]).
Proof.
  destruct (X20_the_calls_of_one_getResponse Stores.memoryCache online DEFAULT_KEY_FLAGS
              [VStr "https://example.com/"] (mkWorld (MemoryCache.new example_node VUndefined 0) ∅ [])
              _ example_key _ ltac:(vm_compute; reflexivity) (surjective_pairing _))
    as (events & Hlog & [(-> & _)|[(Hin & _)|(_ & Hpending & _)]]).
  - vm_compute in Hlog. discriminate.
  - exists events. split; [exact Hlog|exact Hin].
  - vm_compute in Hpending. discriminate.
Defined.




Lemma X23_witness :
  let response := mkNFCResponse (Readable_from "hello") example_meta example_key true in
  exists s',
    Cjs.getResponse Stores.memoryCache online DEFAULT_KEY_FLAGS
      [VStr "https://example.com/"]
      (mkWorld (eject Stores.memoryCache response warm_memory) ∅ [])
    = (mkWorld s' (released example_key (mkWorld warm_memory ∅ []))
         ([] ++ [EvGet example_key; EvLock example_key; EvGet example_key;
                 EvFetch [VStr "https://example.com/"]; EvSet example_key;
                 EvUnlock example_key]),
       Resolved (Some (mkNFCResponse (Readable_from "hello") example_meta example_key
                         false))).
Proof.
  intros response.
  exact (proj2 (X23_an_ejected_response_is_fetched_again online DEFAULT_KEY_FLAGS
                  [VStr "https://example.com/"] (mkWorld warm_memory ∅ []) response
                  hello_response ltac:(vm_compute; reflexivity) eq_refl eq_refl eq_refl
                  eq_refl)).
Defined.

Lemma X6_witness :
  Cjs.getCacheKey DEFAULT_KEY_FLAGS (VStr "https://example.com/")
    (VObj [("method", VStr "POST"); ("body", VBuffer "a=1")])
  = Cjs.getCacheKey DEFAULT_KEY_FLAGS (VStr "https://example.com/")
      (VObj [("method", VStr "POST"); ("body", VStr "a=1")]).
Proof.
  apply (proj1 (proj2 (X6_bodies_of_the_same_text_share_a_key DEFAULT_KEY_FLAGS
                         (VStr "https://example.com/")
                         [("method", VStr "POST"); ("body", VNull)] "a=1"))).
  discriminate.
Defined.
